(** * renfield-mcp-dlna: discovery cache, renderer lookup, queue sessions

    A shallow embedding of [discovery.py], [queue_manager.py] and the
    tools of [server.py] that are built on them.

    The Python modules keep their state in module globals and in
    [QueueSession] objects that are shared by reference (the registry, the
    caller and the event subscription all hold the same object).  The
    embedding therefore threads one [World] through every operation: the
    module globals, a store of session objects addressed by reference, the
    tasks handed to the event loop, a clock, and the log of everything that
    was sent to the network ([wire]).

    A coroutine is run to completion before the next one starts.  The one
    [await] that is a suspension point here is that of [_preload_next],
    which reads the current index before it and writes the preload record
    after it: its two halves can be run with other operations in between. *)

From Stdlib Require Import QArith Ascii.
From stdpp Require Import gmap strings list pretty.

Local Open Scope Z_scope.

(** ** Data model *)

(** [discovery.DlnaRenderer] *)
Record DlnaRenderer := {
  name : string;
  udn : string;
  location : string;
  supports_next : bool;
  av_transport_control_url : string;
  rendering_control_url : string;
  base_url : string
}.

(** [queue_manager.Track] *)
Record Track := {
  url : string;
  title : string;
  artist : string;
  album : string;
  art_url : string
}.

(** The handle [DmrDevice(device, event_handler=...)] built by [start]. *)
Record DmrDevice := { device_location : string }.

(** Everything the program sends to the network or to the notify server. *)
Inductive Call :=
| MSearch
| FetchDescription (loc : string)
| StartServer
| StopServer
| CreateDevice (loc : string)
| Subscribe (d : DmrDevice)
| Unsubscribe (d : DmrDevice)
| SetTransportURI (d : DmrDevice) (uri ttl metadata : string)
| SetNextTransportURI (d : DmrDevice) (uri ttl metadata : string)
| Play (d : DmrDevice)
| Stop (d : DmrDevice).

Inductive Exn :=
| UpnpError (msg : string)
| AssertionError
| IndexError
| TypeError (msg : string)
| AttributeError (msg : string)
| OSError (msg : string)
| RecursionError (msg : string)
| NoSuchObject.

(** [str(e)] as it is spliced into the tool results. *)
Definition str_exn (e : Exn) : string :=
  match e with
  | UpnpError msg => msg
  | AssertionError => ""
  | IndexError => "list index out of range"
  | TypeError msg => msg
  | AttributeError msg => msg
  | OSError msg => msg
  | RecursionError msg => msg
  | NoSuchObject => "no such object"
  end.

(** What a call gives: the value it returns or the exception it raises. *)
Inductive Outcome (A : Type) :=
| Return (a : A)
| Raise (e : Exn).
Arguments Return {A} a.
Arguments Raise {A} e.

(** Values produced by [json.loads]. *)
#[local] Unset Elimination Schemes.
Inductive JSON :=
| JNull
| JBool (b : bool)
| JNumber (q : Q)
| JString (s : string)
| JArray (items : list JSON)
| JObject (members : list (string * JSON)).
#[local] Set Elimination Schemes.

(** What one [_fetch_device_description] task hands to [asyncio.gather]:
    a renderer, [None], or (with [return_exceptions=True]) an exception. *)
Inductive FetchResult :=
| Fetched (r : DlnaRenderer)
| NoRenderer
| FetchFailed (e : Exn).

(** [QueueSession] instance attributes. *)
Record QueueSession := {
  renderer : DlnaRenderer;
  tracks : list Track;
  current_index : Z;
  _dmr : option DmrDevice;
  _preloaded_index : option Z
}.

(** The dictionary returned by [QueueSession.status]. *)
Record Status := {
  status_renderer : string;
  status_state : string;
  status_track : Z;
  status_total_tracks : nat;
  status_title : option string;
  status_artist : option string;
  status_album : option string
}.

(** What [_preload_next] holds while it is suspended at its [await]:
    nothing when it returned before, else the index it read and what the
    awaited call gives. *)
Inductive Suspended :=
| Finished
| Awaiting (next_idx : Z) (answer : Outcome unit).

(** Coroutines given to [asyncio.create_task] by the event handler. *)
Inductive Task :=
| T_preload_next (self : nat)
| T_auto_advance (self : nat)
| T_cleanup (self : nat).

(** The four module globals of the shared UPnP infrastructure; [true] stands
    for "is not None". *)
Record Infra := {
  _requester : bool;
  _notify_server : bool;
  _event_handler : bool;
  _factory : bool
}.

Definition infra_none : Infra :=
  {| _requester := false; _notify_server := false;
     _event_handler := false; _factory := false |}.

Definition infra_set : Infra :=
  {| _requester := true; _notify_server := true;
     _event_handler := true; _factory := true |}.

Record World := {
  _renderer_cache : list DlnaRenderer;      (* discovery._renderer_cache *)
  _cache_time : Q;                          (* discovery._cache_time *)
  infra : Infra;                            (* queue_manager globals *)
  _sessions : gmap string nat;              (* queue_manager._sessions *)
  heap : list QueueSession;                 (* session objects, by reference *)
  tasks : list Task;                        (* created, not yet run *)
  clock : Q;                                (* time.time() *)
  wire : list Call                          (* calls issued, oldest first *)
}.

Definition with_cache (c : list DlnaRenderer) (t : Q) (w : World) : World :=
  {| _renderer_cache := c; _cache_time := t; infra := infra w;
     _sessions := _sessions w; heap := heap w; tasks := tasks w;
     clock := clock w; wire := wire w |}.

Definition with_infra (i : Infra) (w : World) : World :=
  {| _renderer_cache := _renderer_cache w; _cache_time := _cache_time w;
     infra := i; _sessions := _sessions w; heap := heap w; tasks := tasks w;
     clock := clock w; wire := wire w |}.

Definition with_sessions (m : gmap string nat) (w : World) : World :=
  {| _renderer_cache := _renderer_cache w; _cache_time := _cache_time w;
     infra := infra w; _sessions := m; heap := heap w; tasks := tasks w;
     clock := clock w; wire := wire w |}.

Definition with_heap (h : list QueueSession) (w : World) : World :=
  {| _renderer_cache := _renderer_cache w; _cache_time := _cache_time w;
     infra := infra w; _sessions := _sessions w; heap := h; tasks := tasks w;
     clock := clock w; wire := wire w |}.

Definition with_tasks (t : list Task) (w : World) : World :=
  {| _renderer_cache := _renderer_cache w; _cache_time := _cache_time w;
     infra := infra w; _sessions := _sessions w; heap := heap w; tasks := t;
     clock := clock w; wire := wire w |}.

Definition with_clock (t : Q) (w : World) : World :=
  {| _renderer_cache := _renderer_cache w; _cache_time := _cache_time w;
     infra := infra w; _sessions := _sessions w; heap := heap w;
     tasks := tasks w; clock := t; wire := wire w |}.

Definition with_wire (l : list Call) (w : World) : World :=
  {| _renderer_cache := _renderer_cache w; _cache_time := _cache_time w;
     infra := infra w; _sessions := _sessions w; heap := heap w;
     tasks := tasks w; clock := clock w; wire := l |}.

Definition set_current_index (i : Z) (s : QueueSession) : QueueSession :=
  {| renderer := renderer s; tracks := tracks s; current_index := i;
     _dmr := _dmr s; _preloaded_index := _preloaded_index s |}.

Definition set_dmr (d : option DmrDevice) (s : QueueSession) : QueueSession :=
  {| renderer := renderer s; tracks := tracks s;
     current_index := current_index s; _dmr := d;
     _preloaded_index := _preloaded_index s |}.

Definition set_preloaded_index (p : option Z) (s : QueueSession)
  : QueueSession :=
  {| renderer := renderer s; tracks := tracks s;
     current_index := current_index s; _dmr := _dmr s;
     _preloaded_index := p |}.

(** ** What lies outside the repository

    Library functions and the behaviour of the network are taken as an
    interface; every theorem below holds for each implementation of it. *)
Class Environment := {
  (** [str.lower] *)
  lower : string -> string;
  (** [didl.build_didl_metadata url title artist album art_url] *)
  build_didl_metadata : string -> string -> string -> string -> string -> string;
  (** [json.loads]: the decoded value, or the text of the
      [JSONDecodeError]; any other exception it raises ([RecursionError] on
      deeply nested text) is a [Raise] *)
  json_loads : string -> Outcome (string + JSON);
  (** [_ssdp_search], given what was sent so far: the locations it
      collects, or the exception that leaves it (the [OSError] of the socket
      set-up and of [sendto], which are outside its [try]) *)
  ssdp_search : list Call -> Outcome (list string);
  (** the outcome of [_fetch_device_description] for one location *)
  fetch_device_description : list Call -> string -> FetchResult;
  (** seconds a discovery pass takes *)
  pass_duration : list Call -> Q;
  (** [None] when the call is acknowledged, [Some msg] when it raises *)
  fault : list Call -> Call -> option string
}.

(** ** Exceptions and state: the monad of the embedding *)

Definition M (A : Type) : Type := World -> Outcome A * World.

Definition ret {A} (a : A) : M A := fun w => (Return a, w).

Definition raise {A} (e : Exn) : M A := fun w => (Raise e, w).

Definition bind {A B} (m : M A) (k : A -> M B) : M B :=
  fun w =>
    match m w with
    | (Return a, w') => k a w'
    | (Raise e, w') => (Raise e, w')
    end.

(** [try: m  except Exception as e: h e] *)
Definition try_except {A} (m : M A) (h : Exn -> M A) : M A :=
  fun w =>
    match m w with
    | (Return a, w') => (Return a, w')
    | (Raise e, w') => h e w'
    end.

Notation "x <- m ;; k" := (bind m (fun x => k))
  (at level 100, m at next level, right associativity).
Notation "m ;;; k" := (bind m (fun _ => k))
  (at level 100, right associativity).

Definition get_world : M World := fun w => (Return w, w).

(** The outcome of a call into a library, in the state as it is. *)
Definition lift {A} (o : Outcome A) : M A := fun w => (o, w).

(** An awaited call as the coroutine sees it when it resumes: the value, or
    the exception raised at the [await]. *)
Definition attempt {A} (m : M A) : M (Outcome A) :=
  fun w =>
    match m w with
    | (Return a, w') => (Return (Return a), w')
    | (Raise e, w') => (Return (Raise e), w')
    end.

Definition modify_world (f : World -> World) : M unit :=
  fun w => (Return tt, f w).

(** [assert b] *)
Definition py_assert (b : bool) : M unit :=
  if b then ret tt else raise AssertionError.

(** [l[i]] with Python's indexing: negative indices count from the end,
    anything out of range raises [IndexError]. *)
Definition py_index {A} (l : list A) (i : Z) : option A :=
  if bool_decide (0 <= i) then l !! Z.to_nat i
  else if bool_decide (- Z.of_nat (length l) <= i)
       then l !! Z.to_nat (Z.of_nat (length l) + i)
       else None.

Definition index {A} (l : list A) (i : Z) : M A :=
  match py_index l i with
  | Some x => ret x
  | None => raise IndexError
  end.

(** [a < b] on time stamps *)
Definition Qltb (a b : Q) : bool := negb (Qle_bool b a).

(** [needle in hay] on strings *)
Fixpoint str_in (needle hay : string) : bool :=
  String.prefix needle hay ||
  match hay with
  | EmptyString => false
  | String _ hay' => str_in needle hay'
  end.

(** Python's truth value of a decoded JSON value. *)
Definition truthy (v : JSON) : bool :=
  match v with
  | JNull => false
  | JBool b => b
  | JNumber q => negb (Qeq_bool q 0)
  | JString s => negb (String.eqb s "")
  | JArray items => match items with [] => false | _ :: _ => true end
  | JObject members => match members with [] => false | _ :: _ => true end
  end.

(** [d.get(key)] and [d.get(key, default)] on a decoded object *)
Definition dict_get (d : list (string * JSON)) (key : string) : option JSON :=
  snd <$> List.find (fun kv => String.eqb kv.1 key) d.

Definition dict_get_default (d : list (string * JSON)) (key : string)
  (dflt : JSON) : JSON :=
  default dflt (dict_get d key).

(** A string-typed dataclass field holding a decoded value.  The source
    stores the value as it is; here a field is a string, and a value that is
    not a JSON string is kept as the empty string. *)
Definition text (v : JSON) : string :=
  match v with
  | JString s => s
  | _ => ""
  end.

(** The parameters of the [__init__] that [@dataclass] generates for
    [Track]. *)
Definition Track_fields : list string :=
  ["url"; "title"; "artist"; "album"; "art_url"].

(** [Track(key=value, ...)]: binding the keyword arguments to the generated
    [__init__] fails with [TypeError] on a keyword that is not a field, and
    on a missing [url] (the one field without a default). *)
Definition Track_call (kwargs : list (string * JSON)) : M Track :=
  match List.find (fun kv => negb (existsb (String.eqb kv.1) Track_fields))
                  kwargs with
  | Some (k, _) =>
      raise (TypeError ("Track.__init__() got an unexpected keyword argument '"
                        +:+ k +:+ "'"))
  | None =>
      match dict_get kwargs "url" with
      | None =>
          raise (TypeError
                   "Track.__init__() missing 1 required positional argument: 'url'")
      | Some u =>
          ret {| url := text u;
                 title := text (dict_get_default kwargs "title" (JString ""));
                 artist := text (dict_get_default kwargs "artist" (JString ""));
                 album := text (dict_get_default kwargs "album" (JString ""));
                 art_url := text (dict_get_default kwargs "art_url" (JString "")) |}
      end
  end.

(** Dereference a session object. *)
Definition deref (self : nat) : M QueueSession :=
  fun w =>
    match heap w !! self with
    | Some s => (Return s, w)
    | None => (Raise NoSuchObject, w)
    end.

(** Assign to attributes of a session object. *)
Definition setattr (self : nat) (f : QueueSession -> QueueSession) : M unit :=
  fun w =>
    match heap w !! self with
    | Some s => (Return tt, with_heap (<[self := f s]> (heap w)) w)
    | None => (Raise NoSuchObject, w)
    end.

(** [asyncio.create_task] *)
Definition create_task (t : Task) : M unit :=
  modify_world (fun w => with_tasks (tasks w ++ [t]) w).

(** ** Observations on the wire *)

Definition is_search (c : Call) : bool :=
  match c with
  | MSearch => true
  | _ => false
  end.

(** Number of multicast searches in a log. *)
Definition searches (l : list Call) : nat := length (List.filter is_search l).

Definition is_set_transport_uri (c : Call) : bool :=
  match c with
  | SetTransportURI _ _ _ _ => true
  | _ => false
  end.

(** Calls addressed to a renderer or to the notify server, as opposed to the
    discovery traffic of [discover_renderers]. *)
Definition is_discovery (c : Call) : bool :=
  match c with
  | MSearch | FetchDescription _ => true
  | _ => false
  end.

(** The calls [stop] addresses to the device of a session: none without a
    handle. *)
Definition stop_calls (s : QueueSession) : list Call :=
  match _dmr s with
  | Some d => [Stop d; Unsubscribe d]
  | None => []
  end.

(** [QueueState] invariant: a preload, if outstanding, is for the track
    after the current one. *)
Definition preload_ok (s : QueueSession) : Prop :=
  match _preloaded_index s with
  | Some p => p = current_index s + 1
  | None => True
  end.

Definition preloads_ok (w : World) : Prop := Forall preload_ok (heap w).

(** A preload is only ever recorded for a renderer with the capability. *)
Definition capability_ok (s : QueueSession) : Prop :=
  supports_next (renderer s) = false -> _preloaded_index s = None.

Definition capabilities_ok (w : World) : Prop := Forall capability_ok (heap w).

(** What [_on_event] is called with as [state_variables].  The handler is
    written for a mapping, which it reads with [.get]; [DmrDevice], to which
    [start] gives the handler as [on_event], calls it with the sequence of
    the state variables that changed, here name and value each. *)
Inductive StateVariables :=
| Mapping (d : gmap string string)
| Sequence (vars : list (string * string)).

(** The operations of a queue session. *)
Inductive Op :=
| OpStart
| OpEvent (state_variables : StateVariables)
| OpNext
| OpPrevious
| OpAutoAdvance
| OpPreloadNext.

(** ** discovery.py *)
Module discovery.
Section with_environment.
Context {env : Environment}.

Definition CACHE_TTL : Q := 300 # 1.

(** The [for result in results] loop of [discover_renderers]. *)
Fixpoint collect (results : list FetchResult) : list DlnaRenderer :=
  match results with
  | [] => []
  | Fetched r :: rest => r :: collect rest
  | _ :: rest => collect rest
  end.

(** [asyncio.gather] over one fetch per location; results keep the order
    of [locations]. *)
Fixpoint gather (locations : list string) : M (list FetchResult) :=
  match locations with
  | [] => ret []
  | loc :: rest =>
      w <- get_world ;;
      let result := fetch_device_description (wire w) loc in
      modify_world (fun w => with_wire (wire w ++ [FetchDescription loc]) w) ;;;
      results <- gather rest ;;
      ret (result :: results)
  end.

Definition cache_is_fresh (force : bool) (w : World) : bool :=
  negb force
  && match _renderer_cache w with [] => false | _ :: _ => true end
  && Qltb (clock w - _cache_time w) CACHE_TTL.

(** [MSearch] is logged when [_ssdp_search] is entered, also when it then
    raises. *)
Definition discover_renderers (force : bool) : M (list DlnaRenderer) :=
  w <- get_world ;;
  if cache_is_fresh force w then ret (_renderer_cache w)
  else
    modify_world (fun w => with_wire (wire w ++ [MSearch]) w) ;;;
    locations <- lift (ssdp_search (wire w)) ;;
    results <- gather locations ;;
    let renderers := collect results in
    modify_world
      (fun w' =>
         let now := (clock w' + pass_duration (wire w))%Q in
         with_cache renderers now (with_clock now w')) ;;;
    ret renderers.

Definition find_renderer (name_ : string) : M (option DlnaRenderer) :=
  renderers <- discover_renderers false ;;
  let name_lower := lower name_ in
  match List.find (fun r => String.eqb (lower (name r)) name_lower) renderers with
  | Some r => ret (Some r)
  | None =>
      match List.find (fun r => str_in name_lower (lower (name r))) renderers with
      | Some r => ret (Some r)
      | None => ret None
      end
  end.

(** *** Text of SSDP responses

    A character of a string is read as the code point of the same number;
    the responses considered hold code points below 256. *)

Definition CR : ascii := ascii_of_nat 13.
Definition LF : ascii := ascii_of_nat 10.
Definition CRLF : string := String CR (String LF EmptyString).

(** Put a character in front of the first piece. *)
Definition push_front (c : ascii) (pieces : list string) : list string :=
  match pieces with
  | [] => [String c EmptyString]
  | piece :: rest => String c piece :: rest
  end.

(** [s.split("\r\n")] *)
Fixpoint split_crlf (s : string) : list string :=
  match s with
  | EmptyString => [EmptyString]
  | String c rest =>
      match rest with
      | String c' rest' =>
          if (Ascii.eqb c CR && Ascii.eqb c' LF)%bool
          then EmptyString :: split_crlf rest'
          else push_front c (split_crlf rest)
      | EmptyString => [String c EmptyString]
      end
  end.

(** [s.split(":", 1)[1]]: what follows the first colon; [None] stands for
    the [IndexError] of a string without colon. *)
Fixpoint after_colon (s : string) : option string :=
  match s with
  | EmptyString => None
  | String c rest => if Ascii.eqb c ":" then Some rest else after_colon rest
  end.

(** [str.isspace] on one code point below 256 *)
Definition is_space (c : ascii) : bool :=
  let n := nat_of_ascii c in
  ((Nat.leb 9 n && Nat.leb n 13) || (Nat.leb 28 n && Nat.leb n 32)
   || Nat.eqb n 133 || Nat.eqb n 160)%bool.

Fixpoint lstrip (s : string) : string :=
  match s with
  | EmptyString => EmptyString
  | String c rest => if is_space c then lstrip rest else s
  end.

Fixpoint rstrip (s : string) : string :=
  match s with
  | EmptyString => EmptyString
  | String c rest =>
      match rstrip rest with
      | EmptyString => if is_space c then EmptyString else String c EmptyString
      | kept => String c kept
      end
  end.

(** [s.strip()] *)
Definition strip (s : string) : string := rstrip (lstrip s).

(** The loop of [_parse_location] over the lines of the response. *)
Fixpoint first_location (lines : list string) : Outcome (option string) :=
  match lines with
  | [] => Return None
  | line :: rest =>
      if String.prefix "location:" (lower line)
      then match after_colon line with
           | Some value => Return (Some (strip value))
           | None => Raise IndexError
           end
      else first_location rest
  end.

Definition _parse_location (response : string) : Outcome (option string) :=
  first_location (split_crlf response).

(** One turn of the receive loop of [_ssdp_search]: a datagram, already
    decoded, the time-out of one [recv], or an [OSError]. *)
Inductive Recv :=
| Datagram (text : string)
| TimedOut
| SocketError.

(** The receive loop of [_ssdp_search] over the turns it takes before the
    deadline. *)
Fixpoint receive (turns : list Recv) (locations : list string)
  : Outcome (list string) :=
  match turns with
  | [] => Return locations
  | Datagram text :: rest =>
      match _parse_location text with
      | Raise e => Raise e
      | Return None => receive rest locations
      | Return (Some loc) =>
          if (negb (String.eqb loc "")
              && negb (existsb (String.eqb loc) locations))%bool
          then receive rest (locations ++ [loc])
          else receive rest locations
      end
  | TimedOut :: rest => receive rest locations
  | SocketError :: _ => Return locations
  end.

(** [_ssdp_search] from the first [recv] on. *)
Definition _ssdp_search (turns : list Recv) : Outcome (list string) :=
  receive turns [].

End with_environment.

(** *** Device descriptions

    [_fetch_device_description] and [_check_set_next_support] over the
    documents the HTTP session returns.  The list of the URLs handed to
    [session.get] so far is passed along. *)

Definition _NS_DEVICE : string := "urn:schemas-upnp-org:device-1-0".
Definition _NS_SERVICE : string := "urn:schemas-upnp-org:service-1-0".
Definition _AVTRANSPORT_TYPE : string :=
  "urn:schemas-upnp-org:service:AVTransport:1".
Definition _RENDERING_CONTROL_TYPE : string :=
  "urn:schemas-upnp-org:service:RenderingControl:1".

(** An [xml.etree.ElementTree.Element]: its tag, its text ([None] when it
    has none) and its children in document order. *)
#[local] Unset Elimination Schemes.
Inductive Element :=
| Elem (tag : string) (text : option string) (children : list Element).
#[local] Set Elimination Schemes.

Definition tag_of (elem : Element) : string :=
  match elem with Elem tag _ _ => tag end.

Definition text_of (elem : Element) : option string :=
  match elem with Elem _ text _ => text end.

Definition children_of (elem : Element) : list Element :=
  match elem with Elem _ _ children => children end.

Definition has_tag (tag : string) (elem : Element) : bool :=
  String.eqb (tag_of elem) tag.

(** [elem.find(tag)]: the first child with the tag *)
Definition find (elem : Element) (tag : string) : option Element :=
  List.find (has_tag tag) (children_of elem).

(** [elem.findtext(tag, default)] *)
Definition findtext (elem : Element) (tag default : string) : string :=
  match find elem tag with
  | Some child => match text_of child with
                  | Some text => text
                  | None => EmptyString
                  end
  | None => default
  end.

(** [elem.findall(tag)]: the children with the tag *)
Definition findall (elem : Element) (tag : string) : list Element :=
  List.filter (has_tag tag) (children_of elem).

(** The element and all elements below it, in document order. *)
Fixpoint descendants (elem : Element) : list Element :=
  match elem with
  | Elem _ _ children => elem :: flat_map descendants children
  end.

(** [elem.iter(tag)] *)
Definition iter (elem : Element) (tag : string) : list Element :=
  List.filter (has_tag tag) (descendants elem).

(** What [session.get(url)] and [resp.text()] give: the status and the
    body, or any exception raised on the way. *)
Inductive Response :=
| Replied (status : Z) (text : string)
| Errored.

Class Web := {
  (** [session.get], given the URLs asked for before *)
  get : list string -> string -> Response;
  (** [ET.fromstring]; [None] is [ET.ParseError] *)
  fromstring : string -> option Element;
  (** [urlparse]: scheme and netloc; [None] is its [ValueError] *)
  urlparse : string -> option (string * string)
}.

Inductive Failure :=
| ValueError
| UnboundLocalError.

(** The outcome of [_fetch_device_description]: a renderer, [None], or an
    exception that leaves the function. *)
Inductive Description :=
| IsRenderer (r : DlnaRenderer)
| IsNone
| Raises (e : Failure).

(** The local variables the loop over the services assigns;
    [supports_next] is unbound before its first assignment. *)
Record Locals := {
  av_control_url : string;
  rc_control_url : string;
  bound_supports_next : option bool
}.

Section with_web.
Context {web : Web}.

Definition device_tag (name : string) : string :=
  "{" +:+ _NS_DEVICE +:+ "}" +:+ name.

Definition service_tag (name : string) : string :=
  "{" +:+ _NS_SERVICE +:+ "}" +:+ name.

Definition _base_url_from_location (location : string) : option string :=
  match urlparse location with
  | Some (scheme, netloc) => Some (scheme +:+ "://" +:+ netloc)
  | None => None
  end.

(** [path if path.startswith("http") else base_url + path] *)
Definition resolve (base_url path : string) : string :=
  if String.prefix "http" path then path else base_url +:+ path.

Definition names_set_next (action : Element) : bool :=
  String.eqb (findtext action (service_tag "name") "") "SetNextAVTransportURI".

Definition _check_set_next_support (base_url scpd_path : string)
    (asked : list string) : bool * list string :=
  if String.eqb scpd_path "" then (false, asked)
  else
    let url := resolve base_url scpd_path in
    match get asked url with
    | Errored => (false, asked ++ [url])
    | Replied status xml_text =>
        if negb (status =? 200)%Z then (false, asked ++ [url])
        else match fromstring xml_text with
             | None => (false, asked ++ [url])
             | Some root =>
                 (existsb names_set_next (iter root (service_tag "action")),
                  asked ++ [url])
             end
    end.

(** The loop of [_fetch_device_description] over the services. *)
Fixpoint services_loop (services : list Element) (base_url : string)
    (vars : Locals) (asked : list string) : Locals * list string :=
  match services with
  | [] => (vars, asked)
  | service :: rest =>
      let service_type := findtext service (device_tag "serviceType") "" in
      let control_url := findtext service (device_tag "controlURL") "" in
      let scpd_url := findtext service (device_tag "SCPDURL") "" in
      if String.eqb service_type _AVTRANSPORT_TYPE then
        let '(supports, asked') :=
          _check_set_next_support base_url scpd_url asked in
        services_loop rest base_url
          {| av_control_url := control_url;
             rc_control_url := rc_control_url vars;
             bound_supports_next := Some supports |} asked'
      else if String.eqb service_type _RENDERING_CONTROL_TYPE then
        services_loop rest base_url
          {| av_control_url := av_control_url vars;
             rc_control_url := control_url;
             bound_supports_next := bound_supports_next vars |} asked
      else services_loop rest base_url vars asked
  end.

Definition _fetch_device_description (location : string)
    (asked : list string) : Description * list string :=
  match get asked location with
  | Errored => (IsNone, asked ++ [location])
  | Replied status xml_text =>
      let asked := asked ++ [location] in
      if negb (status =? 200)%Z then (IsNone, asked)
      else
        match fromstring xml_text with
        | None => (IsNone, asked)
        | Some root =>
        match find root (device_tag "device") with
        | None => (IsNone, asked)
        | Some device =>
        let friendly_name := findtext device (device_tag "friendlyName") "" in
        let udn := findtext device (device_tag "UDN") "" in
        if String.eqb udn "" then (IsNone, asked)
        else
          match _base_url_from_location location with
          | None => (Raises ValueError, asked)
          | Some base_url =>
          match find device (device_tag "serviceList") with
          | None => (IsNone, asked)
          | Some service_list =>
              let '(vars, asked) :=
                services_loop (findall service_list (device_tag "service"))
                  base_url
                  {| av_control_url := "";
                     rc_control_url := "";
                     bound_supports_next := None |} asked in
              if String.eqb (av_control_url vars) "" then (IsNone, asked)
              else
                let av_control_url := resolve base_url (av_control_url vars) in
                let rc_control_url :=
                  if String.eqb (rc_control_url vars) ""
                  then rc_control_url vars
                  else resolve base_url (rc_control_url vars) in
                match bound_supports_next vars with
                | None => (Raises UnboundLocalError, asked)
                | Some supports_next =>
                    (IsRenderer
                       {| name := friendly_name;
                          udn := udn;
                          location := location;
                          supports_next := supports_next;
                          av_transport_control_url := av_control_url;
                          rendering_control_url := rc_control_url;
                          base_url := base_url |}, asked)
                end
          end
          end
        end
        end
  end.

End with_web.
End discovery.

(** ** queue_manager.py *)
Module queue_manager.
Section with_environment.
Context {env : Environment}.

(** One awaited call on the AV-control port or on the notify server: it
    is logged, and it raises when the other side does not acknowledge. *)
Definition call (c : Call) : M unit :=
  fun w =>
    let w' := with_wire (wire w ++ [c]) w in
    match fault (wire w) c with
    | None => (Return tt, w')
    | Some msg => (Raise (UpnpError msg), w')
    end.

Definition _ensure_infrastructure : M unit :=
  w <- get_world ;;
  if _notify_server (infra w) then ret tt
  else
    modify_world (with_infra infra_set) ;;;
    call StartServer.

Definition _shutdown_infrastructure : M unit :=
  w <- get_world ;;
  (if _notify_server (infra w) then call StopServer else ret tt) ;;;
  modify_world (with_infra infra_none).

(** [QueueSession(renderer, tracks)]: a new object, returned by
    reference. *)
Definition __init__ (renderer_ : DlnaRenderer) (tracks_ : list Track)
  : M nat :=
  fun w =>
    let obj := {| renderer := renderer_; tracks := tracks_;
                  current_index := 0; _dmr := None;
                  _preloaded_index := None |} in
    (Return (length (heap w)), with_heap (heap w ++ [obj]) w).

Definition metadata_of (track : Track) : string :=
  build_didl_metadata (url track) (title track) (artist track)
                      (album track) (art_url track).

(** [_preload_next] up to its [await]: it reads the current index and
    sends the preload call.  The result is what the coroutine holds while it
    is suspended. *)
Definition _preload_next_send (self : nat) : M Suspended :=
  s <- deref self ;;
  let next_idx := current_index s + 1 in
  if bool_decide (next_idx >= Z.of_nat (length (tracks s)))
     || negb (supports_next (renderer s))
  then ret Finished
  else
    match _dmr s with
    | None => ret Finished
    | Some dmr =>
        track <- index (tracks s) next_idx ;;
        let metadata := metadata_of track in
        answer <- attempt (call (SetNextTransportURI dmr (url track)
                                   (title track) metadata)) ;;
        ret (Awaiting next_idx answer)
    end.

(** [_preload_next] from its [await] on: it records the index it read
    before, or clears the record when the call raised. *)
Definition _preload_next_resume (self : nat) (held : Suspended) : M unit :=
  match held with
  | Finished => ret tt
  | Awaiting next_idx (Return _) =>
      setattr self (set_preloaded_index (Some next_idx))
  | Awaiting next_idx (Raise _) =>
      setattr self (set_preloaded_index None)
  end.

(** [_preload_next] run without anything else in between. *)
Definition _preload_next (self : nat) : M unit :=
  held <- _preload_next_send self ;;
  _preload_next_resume self held.

Definition start (self : nat) : M unit :=
  _ensure_infrastructure ;;;
  w <- get_world ;;
  py_assert (_factory (infra w)) ;;;
  py_assert (_event_handler (infra w)) ;;;
  s <- deref self ;;
  call (CreateDevice (location (renderer s))) ;;;
  let dmr := {| device_location := location (renderer s) |} in
  setattr self (set_dmr (Some dmr)) ;;;
  call (Subscribe dmr) ;;;
  track <- index (tracks s) 0 ;;
  let metadata := metadata_of track in
  call (SetTransportURI dmr (url track) (title track) metadata) ;;;
  call (Play dmr) ;;;
  if bool_decide (Z.of_nat (length (tracks s)) > 1)
     && supports_next (renderer s)
  then _preload_next self
  else ret tt.

Definition _auto_advance (self : nat) : M unit :=
  s <- deref self ;;
  if bool_decide (current_index s + 1 >= Z.of_nat (length (tracks s)))
  then ret tt
  else
    setattr self (set_current_index (current_index s + 1)) ;;;
    setattr self (set_preloaded_index None) ;;;
    track <- index (tracks s) (current_index s + 1) ;;
    let metadata := metadata_of track in
    try_except
      (match _dmr s with
       | None => raise AssertionError
       | Some dmr =>
           call (SetTransportURI dmr (url track) (title track) metadata) ;;;
           call (Play dmr)
       end)
      (fun _ => ret tt).

Definition _cleanup (self : nat) : M unit :=
  s <- deref self ;;
  let udn_ := udn (renderer s) in
  w <- get_world ;;
  (if bool_decide (is_Some (_sessions w !! udn_))
   then modify_world (fun w => with_sessions (delete udn_ (_sessions w)) w)
   else ret tt) ;;;
  w <- get_world ;;
  if bool_decide (_sessions w = ∅) then _shutdown_infrastructure
  else ret tt.

(** The event handler.  A sequence has no [.get]: on one that is not empty
    the first read raises [AttributeError]. *)
Definition _on_event (self : nat) (state_variables : StateVariables)
  : M unit :=
  match state_variables with
  | Sequence [] => ret tt
  | Sequence (_ :: _) =>
      raise (AttributeError "'list' object has no attribute 'get'")
  | Mapping state_variables =>
  if bool_decide (state_variables = ∅) then ret tt
  else
    let transport_state := state_variables !! "TransportState" in
    let current_uri := state_variables !! "CurrentTrackURI" in
    s <- deref self ;;
    let last := Z.of_nat (length (tracks s)) - 1 in
    let track_end_or_finish : M unit :=
      if bool_decide (transport_state = Some "STOPPED")
         && negb (supports_next (renderer s))
         && bool_decide (current_index s < last)
      then create_task (T_auto_advance self)
      else if bool_decide (transport_state = Some "STOPPED")
              && bool_decide (current_index s >= last)
      then create_task (T_cleanup self)
      else ret tt in
    match current_uri, _preloaded_index s with
    | Some uri, Some preloaded =>
        if bool_decide (uri = "") then track_end_or_finish
        else
          preloaded_track <- index (tracks s) preloaded ;;
          if bool_decide (uri = url preloaded_track)
          then
            setattr self (set_current_index preloaded) ;;;
            setattr self (set_preloaded_index None) ;;;
            create_task (T_preload_next self)
          else track_end_or_finish
    | _, _ => track_end_or_finish
    end
  end.

(** [DmrDevice] delivering an event to the handler [start] gave it. *)
Definition on_event (self : nat) (vars : list (string * string)) : M unit :=
  _on_event self (Sequence vars).

Definition next (self : nat) : M (option Track) :=
  s <- deref self ;;
  if bool_decide (current_index s + 1 >= Z.of_nat (length (tracks s)))
  then ret None
  else
    setattr self (set_current_index (current_index s + 1)) ;;;
    setattr self (set_preloaded_index None) ;;;
    track <- index (tracks s) (current_index s + 1) ;;
    let metadata := metadata_of track in
    match _dmr s with
    | None => raise AssertionError
    | Some dmr =>
        call (SetTransportURI dmr (url track) (title track) metadata) ;;;
        call (Play dmr) ;;;
        _preload_next self ;;;
        ret (Some track)
    end.

Definition previous (self : nat) : M (option Track) :=
  s <- deref self ;;
  if bool_decide (current_index s <= 0)
  then ret None
  else
    setattr self (set_current_index (current_index s - 1)) ;;;
    setattr self (set_preloaded_index None) ;;;
    track <- index (tracks s) (current_index s - 1) ;;
    let metadata := metadata_of track in
    match _dmr s with
    | None => raise AssertionError
    | Some dmr =>
        call (SetTransportURI dmr (url track) (title track) metadata) ;;;
        call (Play dmr) ;;;
        _preload_next self ;;;
        ret (Some track)
    end.

Definition stop (self : nat) : M unit :=
  s <- deref self ;;
  match _dmr s with
  | Some dmr =>
      try_except (call (Stop dmr)) (fun _ => ret tt) ;;;
      try_except (call (Unsubscribe dmr)) (fun _ => ret tt)
  | None => ret tt
  end ;;;
  _cleanup self.

Definition status (self : nat) : M Status :=
  s <- deref self ;;
  track <- match tracks s with
           | [] => ret None
           | _ :: _ => t <- index (tracks s) (current_index s) ;; ret (Some t)
           end ;;
  ret {| status_renderer := name (renderer s);
         status_state := match _dmr s with
                         | Some _ => "playing"
                         | None => "stopped"
                         end;
         status_track := current_index s + 1;
         status_total_tracks := length (tracks s);
         status_title := title <$> track;
         status_artist := artist <$> track;
         status_album := album <$> track |}.

Definition play_tracks (renderer_ : DlnaRenderer) (tracks_ : list Track)
  : M nat :=
  w <- get_world ;;
  match _sessions w !! udn renderer_ with
  | Some existing => stop existing
  | None => ret tt
  end ;;;
  session <- __init__ renderer_ tracks_ ;;
  modify_world
    (fun w => with_sessions (<[udn renderer_ := session]> (_sessions w)) w) ;;;
  start session ;;;
  ret session.

Definition get_session (udn_ : string) : M (option nat) :=
  w <- get_world ;;
  ret (_sessions w !! udn_).

(** The event loop: a task is one of the coroutines the handler created. *)
Definition run_task (t : Task) : M unit :=
  match t with
  | T_preload_next self => _preload_next self
  | T_auto_advance self => _auto_advance self
  | T_cleanup self => _cleanup self
  end.

(** Run the oldest pending task.  An exception that escapes a task stays
    with the task object; the loop goes on. *)
Definition run_next_task : M unit :=
  fun w =>
    match tasks w with
    | [] => (Return tt, w)
    | t :: rest => (Return tt, (run_task t (with_tasks rest w)).2)
    end.

Fixpoint run_tasks (n : nat) : M unit :=
  match n with
  | O => ret tt
  | S n' => run_next_task ;;; run_tasks n'
  end.

(** Run the tasks that are pending now. *)
Definition run_pending : M unit :=
  w <- get_world ;;
  run_tasks (length (tasks w)).

(** One operation of the session [self], its result dropped. *)
Definition run_op (self : nat) (op : Op) : M unit :=
  match op with
  | OpStart => start self
  | OpEvent state_variables => _on_event self state_variables
  | OpNext => next self ;;; ret tt
  | OpPrevious => previous self ;;; ret tt
  | OpAutoAdvance => _auto_advance self
  | OpPreloadNext => _preload_next self
  end.

(** [get_all_sessions]: a copy of the registry *)
Definition get_all_sessions : M (gmap string nat) :=
  w <- get_world ;;
  ret (_sessions w).

(** What [_preload_next] sends for a session whose current index is [i] and
    whose handle is [d], and the preload it then records, when the device
    acknowledges. *)
Definition preload_calls (s : QueueSession) (d : DmrDevice) (i : Z)
  : list Call :=
  if supports_next (renderer s)
     && bool_decide (i + 1 < Z.of_nat (length (tracks s)))
  then match py_index (tracks s) (i + 1) with
       | Some t =>
           [SetNextTransportURI d (url t) (title t) (metadata_of t)]
       | None => []
       end
  else [].

Definition preload_after (s : QueueSession) (i : Z) : option Z :=
  if supports_next (renderer s)
     && bool_decide (i + 1 < Z.of_nat (length (tracks s)))
  then Some (i + 1)
  else None.

End with_environment.
End queue_manager.

(** ** server.py: the [play_tracks] tool *)
Module server.

(** The dictionary a tool returns: an error message under the key [error],
  or the success record of [play_tracks]. *)
Inductive ToolResult :=
| Error (msg : string)
| Success (renderer_name : string) (total_tracks : nat)
        (supports_gapless : bool) (title_ artist_ album_ : string).

(** How the [for i, t in enumerate(track_list_raw)] loop ends: by its
  [return], or by running off the end of the list. *)
Inductive LoopEnd :=
| Returned (r : ToolResult)
| Completed (track_objects : list Track).

Section with_environment.
Context {env : Environment}.

Definition missing_url (i : nat) : ToolResult :=
  Error ("Track " +:+ pretty i +:+ " missing required 'url' field").

Fixpoint build_track_objects (i : nat) (track_list_raw : list JSON)
  (track_objects : list Track) : M LoopEnd :=
  match track_list_raw with
  | [] => ret (Completed track_objects)
  | t :: rest =>
      match t with
      | JObject d =>
          if truthy (dict_get_default d "url" JNull)
          then
            track <- Track_call
                       [("url", dict_get_default d "url" JNull);
                        ("title", dict_get_default d "title" (JString ""));
                        ("artist", dict_get_default d "artist" (JString ""));
                        ("album", dict_get_default d "album" (JString ""));
                        ("art_url", dict_get_default d "art_url" (JString ""));
                        ("media_type",
                          dict_get_default d "media_type" (JString "audio"))] ;;
            build_track_objects (S i) rest (track_objects ++ [track])
          else ret (Returned (missing_url i))
      | _ => ret (Returned (missing_url i))
      end
  end.

(** An item the loop rejects: not an object, or without a true [url]. *)
Definition offending (t : JSON) : bool :=
  match t with
  | JObject d => negb (truthy (dict_get_default d "url" JNull))
  | _ => true
  end.

(** Input that is rejected before any [Track] is built: text that does not
    decode, a value that is not a non-empty array, or an array whose first
    item is offending. *)
Definition malformed (decoded : string + JSON) : bool :=
  match decoded with
  | inl _ => true
  | inr (JArray (t :: _)) => offending t
  | inr _ => true
  end.

(** The result that rejects such input. *)
Definition rejection (decoded : string + JSON) : ToolResult :=
  match decoded with
  | inl e => Error ("Invalid tracks JSON: " +:+ e)
  | inr (JArray (_ :: _)) => missing_url 0
  | inr _ => Error "tracks must be a non-empty JSON array"
  end.

Definition play_tracks (renderer_name tracks_ : string) : M ToolResult :=
  found <- discovery.find_renderer renderer_name ;;
  match found with
  | None => ret (Error ("Renderer '" +:+ renderer_name +:+ "' not found"))
  | Some renderer_ =>
      decoded <- lift (json_loads tracks_) ;;
      match decoded with
      | inl e => ret (Error ("Invalid tracks JSON: " +:+ e))
      | inr (JArray (t :: rest)) =>
          loop <- build_track_objects 0 (t :: rest) [] ;;
          match loop with
          | Returned r => ret r
          | Completed track_objects =>
              try_except
                (queue_manager.play_tracks renderer_ track_objects ;;;
                 first <- index track_objects 0 ;;
                 ret (Success (name renderer_) (length track_objects)
                              (supports_next renderer_)
                              (title first) (artist first) (album first)))
                (fun e => ret (Error ("Playback failed: " +:+ str_exn e)))
          end
      | inr _ => ret (Error "tracks must be a non-empty JSON array")
      end
  end.

(** The dictionaries the other tools return. *)
Inductive Reply :=
| Failed (msg : string)
| Renderers (total : nat) (renderers : list (string * bool))
| Stopped (renderer_name : string)
| NowPlaying (renderer_name : string) (track : Z) (total_tracks : nat)
             (title_ artist_ : string)
| Idle (renderer_name : string)
| Report (st : Status).

Definition not_found (renderer_name : string) : Reply :=
  Failed ("Renderer '" +:+ renderer_name +:+ "' not found").

Definition no_active_playback (r : DlnaRenderer) : Reply :=
  Failed ("No active playback on '" +:+ name r +:+ "'").

Definition list_renderers (force_refresh : bool) : M Reply :=
  renderers <- discovery.discover_renderers force_refresh ;;
  let items := (fun r => (name r, supports_next r)) <$> renderers in
  ret (Renderers (length items) items).

Definition stop (renderer_name : string) : M Reply :=
  found <- discovery.find_renderer renderer_name ;;
  match found with
  | None => ret (not_found renderer_name)
  | Some renderer_ =>
      session <- queue_manager.get_session (udn renderer_) ;;
      match session with
      | None => ret (no_active_playback renderer_)
      | Some session =>
          queue_manager.stop session ;;;
          ret (Stopped (name renderer_))
      end
  end.

Definition next_track (renderer_name : string) : M Reply :=
  found <- discovery.find_renderer renderer_name ;;
  match found with
  | None => ret (not_found renderer_name)
  | Some renderer_ =>
      session <- queue_manager.get_session (udn renderer_) ;;
      match session with
      | None => ret (no_active_playback renderer_)
      | Some session =>
          track <- queue_manager.next session ;;
          match track with
          | None => ret (Failed "Already at last track")
          | Some track =>
              s <- deref session ;;
              ret (NowPlaying (name renderer_) (current_index s + 1)
                              (length (tracks s)) (title track) (artist track))
          end
      end
  end.

Definition previous_track (renderer_name : string) : M Reply :=
  found <- discovery.find_renderer renderer_name ;;
  match found with
  | None => ret (not_found renderer_name)
  | Some renderer_ =>
      session <- queue_manager.get_session (udn renderer_) ;;
      match session with
      | None => ret (no_active_playback renderer_)
      | Some session =>
          track <- queue_manager.previous session ;;
          match track with
          | None => ret (Failed "Already at first track")
          | Some track =>
              s <- deref session ;;
              ret (NowPlaying (name renderer_) (current_index s + 1)
                              (length (tracks s)) (title track) (artist track))
          end
      end
  end.

Definition get_status (renderer_name : string) : M Reply :=
  found <- discovery.find_renderer renderer_name ;;
  match found with
  | None => ret (not_found renderer_name)
  | Some renderer_ =>
      session <- queue_manager.get_session (udn renderer_) ;;
      match session with
      | None => ret (Idle (name renderer_))
      | Some session =>
          st <- queue_manager.status session ;;
          ret (Report st)
      end
  end.

End with_environment.
End server.

(** ** Further invariants of sessions, registry and infrastructure *)

(** The current index is inside the queue, and a recorded preload is an
    index of the queue after the first. *)
Definition index_ok (s : QueueSession) : Prop :=
  0 <= current_index s < Z.of_nat (length (tracks s))
  /\ match _preloaded_index s with
     | Some p => 0 < p < Z.of_nat (length (tracks s))
     | None => True
     end.

Definition indexes_ok (w : World) : Prop := Forall index_ok (heap w).

(** The index a suspended [_preload_next] holds is an index of the
    session's queue after the first. *)
Definition held_in_queue (s : QueueSession) (held : Suspended) : Prop :=
  match held with
  | Finished => True
  | Awaiting next_idx _ => 0 < next_idx < Z.of_nat (length (tracks s))
  end.

(** The four globals of the shared infrastructure are set together and
    cleared together. *)
Definition infra_ok (w : World) : Prop :=
  infra w = infra_none \/ infra w = infra_set.

(** Every entry of the registry refers to a session object, and is filed
    under the identity of that session's renderer. *)
Definition registry_ok (w : World) : Prop :=
  forall (u : string) (sid : nat),
    _sessions w !! u = Some sid ->
    exists s, heap w !! sid = Some s /\ udn (renderer s) = u.

(** What never changes in a session object. *)
Definition same_queue (s s' : QueueSession) : Prop :=
  renderer s' = renderer s /\ tracks s' = tracks s.

Definition is_set_next (c : Call) : bool :=
  match c with
  | SetNextTransportURI _ _ _ _ => true
  | _ => false
  end.


(** [inside x root]: [x] is [root] or an element below it. *)
Inductive inside : discovery.Element -> discovery.Element -> Prop :=
| inside_self (elem : discovery.Element) : inside elem elem
| inside_child (x child elem : discovery.Element) :
    In child (discovery.children_of elem) -> inside x child -> inside x elem.

(** The SCPD documents the loop over the services asks for. *)
Definition scpd_requests (base_url : string)
    (services : list discovery.Element) : list string :=
  flat_map
    (fun service =>
       let scpd_url :=
         discovery.findtext service (discovery.device_tag "SCPDURL") "" in
       if (String.eqb
             (discovery.findtext service (discovery.device_tag "serviceType") "")
             discovery._AVTRANSPORT_TYPE
           && negb (String.eqb scpd_url ""))%bool
       then [discovery.resolve base_url scpd_url]
       else [])
    services.
(** ** Concrete environments and worlds for the examples *)
Module sample.

Definition lower_ascii (c : ascii) : ascii :=
  let n := nat_of_ascii c in
  if (Nat.leb 65 n && Nat.leb n 90)%bool then ascii_of_nat (n + 32) else c.

(** [str.lower] on ASCII text *)
Fixpoint ascii_lower (s : string) : string :=
  match s with
  | EmptyString => EmptyString
  | String c rest => String (lower_ascii c) (ascii_lower rest)
  end.

Definition quote : string := String (ascii_of_nat 34) EmptyString.

(** The JSON text of a list of one track that has only a url member. *)
Definition one_track_json : string :=
  "[{" +:+ quote +:+ "url" +:+ quote +:+ ": "
       +:+ quote +:+ "http://nas/a.flac" +:+ quote +:+ "}]".

(** The same list followed by an item without members. *)
Definition mixed_json : string :=
  "[{" +:+ quote +:+ "url" +:+ quote +:+ ": "
       +:+ quote +:+ "http://nas/a.flac" +:+ quote +:+ "}, {}]".

(** [json.loads] on the texts the examples use. *)
Definition loads (s : string) : string + JSON :=
  if String.eqb s "[]" then inr (JArray [])
  else if String.eqb s "{}" then inr (JObject [])
  else if String.eqb s "[{}]" then inr (JArray [JObject []])
  else if String.eqb s "[1]" then inr (JArray [JNumber 1])
  else if String.eqb s one_track_json
       then inr (JArray [JObject [("url", JString "http://nas/a.flac")]])
  else if String.eqb s mixed_json
       then inr (JArray [JObject [("url", JString "http://nas/a.flac")];
                         JObject []])
  else inl "Expecting value: line 1 column 1 (char 0)".

Definition didl (url_ title_ artist_ album_ art_url_ : string) : string :=
  "<DIDL-Lite><item><dc:title>" +:+ title_ +:+ "</dc:title><res>"
    +:+ url_ +:+ "</res></item></DIDL-Lite>".

Definition mk_renderer (name_ udn_ : string) (gapless : bool) : DlnaRenderer :=
  {| name := name_; udn := udn_;
     location := "http://192.168.1.100:49152/" +:+ udn_ +:+ "/description.xml";
     supports_next := gapless;
     av_transport_control_url :=
       "http://192.168.1.100:49152/AVTransport/control";
     rendering_control_url :=
       "http://192.168.1.100:49152/RenderingControl/control";
     base_url := "http://192.168.1.100:49152" |}.

Definition hifiberry : DlnaRenderer :=
  mk_renderer "HiFiBerry Garten" "uuid:test-1234" true.

Definition linn : DlnaRenderer := mk_renderer "Linn DS" "uuid:linn" false.

Definition samsung_tv : DlnaRenderer :=
  mk_renderer "Samsung TV" "uuid:tv" true.

Definition samsung_tv_living_room : DlnaRenderer :=
  mk_renderer "Samsung TV Living Room" "uuid:tv-lr" true.

(** A network on which one search finds the given renderers, one location
    each, and every device acknowledges every call. *)
Definition network (found : list DlnaRenderer) : Environment :=
  {| lower := ascii_lower;
     build_didl_metadata := didl;
     json_loads := fun s => Return (loads s);
     ssdp_search := fun _ => Return (location <$> found);
     fetch_device_description :=
       fun _ loc =>
         match List.find (fun r => String.eqb (location r) loc) found with
         | Some r => Fetched r
         | None => NoRenderer
         end;
     pass_duration := fun _ => 4 # 1;
     fault := fun _ _ => None |}.

(** A network on which nothing answers the search. *)
Definition silent : Environment := network [].

Definition mk_track (n : string) : Track :=
  {| url := "http://jellyfin.local:8096/Audio/" +:+ n +:+ "/stream.flac";
     title := "Track " +:+ n; artist := "Test Artist";
     album := "Test Album"; art_url := "" |}.

Definition three_tracks : list Track :=
  [mk_track "0"; mk_track "1"; mk_track "2"].

Definition two_tracks : list Track := [mk_track "0"; mk_track "1"].

(** The process right after start-up, at a wall-clock time of 1000 s. *)
Definition boot : World :=
  {| _renderer_cache := []; _cache_time := 0; infra := infra_none;
     _sessions := ∅; heap := []; tasks := []; clock := 1000 # 1;
     wire := [] |}.

(** A session of a single track that was created and never started. *)
Definition single_idle : World :=
  (queue_manager.__init__ linn [mk_track "0"] boot).2.

(** Three tracks playing on the gapless renderer. *)
Definition playing : World :=
  (queue_manager.play_tracks (env := network [hifiberry])
     hifiberry three_tracks boot).2.

(** Two tracks playing on the renderer without gapless support. *)
Definition playing_linn : World :=
  (queue_manager.play_tracks (env := network [linn]) linn two_tracks boot).2.

(** A three-track session on the gapless renderer, created, registered,
    not started yet. *)
Definition created : World :=
  with_sessions {[ "uuid:test-1234" := 0%nat ]}
    (queue_manager.__init__ hifiberry three_tracks boot).2.

Definition hifiberry_dmr : DmrDevice :=
  {| device_location := location hifiberry |}.

Definition linn_dmr : DmrDevice := {| device_location := location linn |}.

(** The session object of [created], of [playing] and of
    [playing_linn]. *)
Definition created_session : QueueSession :=
  {| renderer := hifiberry; tracks := three_tracks; current_index := 0;
     _dmr := None; _preloaded_index := None |}.

Definition playing_session : QueueSession :=
  {| renderer := hifiberry; tracks := three_tracks; current_index := 0;
     _dmr := Some hifiberry_dmr; _preloaded_index := Some 1 |}.

Definition playing_linn_session : QueueSession :=
  {| renderer := linn; tracks := two_tracks; current_index := 0;
     _dmr := Some linn_dmr; _preloaded_index := None |}.

Definition single_idle_session : QueueSession :=
  {| renderer := linn; tracks := [mk_track "0"]; current_index := 0;
     _dmr := None; _preloaded_index := None |}.

Definition track1_playing : gmap string string :=
  {[ "CurrentTrackURI" := url (mk_track "1") ]}.

Definition stopped : gmap string string :=
  {[ "TransportState" := "STOPPED" ]}.

(** The same two events as [DmrDevice] delivers them. *)
Definition track1_delivered : list (string * string) :=
  [("TransportState", "PLAYING"); ("CurrentTrackURI", url (mk_track "1"))].

Definition stopped_delivered : list (string * string) :=
  [("TransportState", "STOPPED")].

(** The same network with a device that refuses the calls picked by
    [refused]. *)
Definition refusing (found : list DlnaRenderer) (refused : Call -> bool)
  : Environment :=
  {| lower := ascii_lower;
     build_didl_metadata := didl;
     json_loads := fun s => Return (loads s);
     ssdp_search := fun _ => Return (location <$> found);
     fetch_device_description :=
       fun _ loc =>
         match List.find (fun r => String.eqb (location r) loc) found with
         | Some r => Fetched r
         | None => NoRenderer
         end;
     pass_duration := fun _ => 4 # 1;
     fault := fun _ c => if refused c then Some "UPnP error 501" else None |}.


Definition is_create_device (c : Call) : bool :=
  match c with
  | CreateDevice _ => true
  | _ => false
  end.


(** [playing] after a discovery pass: the renderer is in the cache. *)
Definition playing_cached : World :=
  (discovery.discover_renderers (env := network [hifiberry]) false playing).2.

(** A single track playing on the renderer without gapless support. *)
Definition last_track : World :=
  (queue_manager.play_tracks (env := network [linn]) linn [mk_track "0"]
     boot).2.

Definition last_track_session : QueueSession :=
  {| renderer := linn; tracks := [mk_track "0"]; current_index := 0;
     _dmr := Some linn_dmr; _preloaded_index := None |}.

(** [playing] after its session was replaced by a two-track session. *)
Definition replaced : World :=
  (queue_manager.play_tracks (env := network [hifiberry]) hifiberry
     two_tracks playing).2.

(** The answer of a renderer to the multicast search. *)
Definition ssdp_response (loc : string) : string :=
  "HTTP/1.1 200 OK" +:+ discovery.CRLF
    +:+ "CACHE-CONTROL: max-age=1800" +:+ discovery.CRLF
    +:+ "Location: " +:+ loc +:+ discovery.CRLF
    +:+ "ST: urn:schemas-upnp-org:device:MediaRenderer:1" +:+ discovery.CRLF
    +:+ discovery.CRLF.

(** The device description of [hifiberry] and the SCPD document of its
    AVTransport service, as element trees. *)
Definition device_field (name_ text : string) : discovery.Element :=
  discovery.Elem (discovery.device_tag name_) (Some text) [].

Definition service_elem (type control scpd : string) : discovery.Element :=
  discovery.Elem (discovery.device_tag "service") None
    [device_field "serviceType" type;
     device_field "controlURL" control;
     device_field "SCPDURL" scpd].

Definition rendering_control_service : discovery.Element :=
  service_elem discovery._RENDERING_CONTROL_TYPE
    "/RenderingControl/control" "/RenderingControl/scpd.xml".

Definition av_transport_service : discovery.Element :=
  service_elem discovery._AVTRANSPORT_TYPE
    "/AVTransport/control" "/AVTransport/scpd.xml".

Definition connection_manager_service : discovery.Element :=
  service_elem "urn:schemas-upnp-org:service:ConnectionManager:1"
    "/ConnectionManager/control" "/ConnectionManager/scpd.xml".

Definition service_list_elem : discovery.Element :=
  discovery.Elem (discovery.device_tag "serviceList") None
    [rendering_control_service; av_transport_service;
     connection_manager_service].

Definition device_elem : discovery.Element :=
  discovery.Elem (discovery.device_tag "device") None
    [device_field "friendlyName" "HiFiBerry Garten";
     device_field "UDN" "uuid:test-1234";
     service_list_elem].

Definition description_doc : discovery.Element :=
  discovery.Elem (discovery.device_tag "root") None
    [discovery.Elem (discovery.device_tag "specVersion") None [];
     device_elem].

Definition action_elem (name_ : string) : discovery.Element :=
  discovery.Elem (discovery.service_tag "action") None
    [discovery.Elem (discovery.service_tag "name") (Some name_) []].

Definition scpd_doc : discovery.Element :=
  discovery.Elem (discovery.service_tag "scpd") None
    [discovery.Elem (discovery.service_tag "actionList") None
       [action_elem "SetAVTransportURI";
        action_elem "SetNextAVTransportURI";
        action_elem "Play"]].

(** The HTTP side of [hifiberry]: its description, the SCPD document of its
    AVTransport service, and 404 for everything else. *)
Definition upnp : discovery.Web :=
  {| discovery.get :=
       fun _ url_ =>
         if String.eqb url_ (location hifiberry)
         then discovery.Replied 200 "description"
         else if String.eqb url_
                   "http://192.168.1.100:49152/AVTransport/scpd.xml"
              then discovery.Replied 200 "scpd"
              else discovery.Replied 404 "";
     discovery.fromstring :=
       fun text =>
         if String.eqb text "description" then Some description_doc
         else if String.eqb text "scpd" then Some scpd_doc
              else None;
     discovery.urlparse := fun _ => Some ("http", "192.168.1.100:49152") |}.
End sample.

(** * Properties *)

(** ** Records and the monad *)

Lemma with_wire_same (w : World) : with_wire (wire w) w = w.
Proof. by destruct w. Qed.

(** Two worlds with the same fields are the same world. *)
Lemma world_ext (w1 w2 : World) :
  _renderer_cache w1 = _renderer_cache w2 ->
  _cache_time w1 = _cache_time w2 ->
  infra w1 = infra w2 ->
  _sessions w1 = _sessions w2 ->
  heap w1 = heap w2 ->
  tasks w1 = tasks w2 ->
  clock w1 = clock w2 ->
  wire w1 = wire w2 ->
  w1 = w2.
Proof. destruct w1, w2; cbn; intros; by subst. Qed.

Lemma Qltb_true (a b : Q) : Qltb a b = true <-> (a < b)%Q.
Proof.
  unfold Qltb. rewrite negb_true_iff. split.
  - intros H. apply Qnot_le_lt. intros Hle.
    apply Qle_bool_iff in Hle. congruence.
  - intros H. destruct (Qle_bool b a) eqn:E; [|done].
    apply Qle_bool_iff in E. by apply Qlt_not_le in H.
Qed.

Lemma searches_app (l1 l2 : list Call) :
  searches (l1 ++ l2) = (searches l1 + searches l2)%nat.
Proof. unfold searches. by rewrite List.filter_app, length_app. Qed.

Lemma searches_fetches (locs : list string) :
  searches (FetchDescription <$> locs) = 0%nat.
Proof. induction locs as [|loc locs IH]; [done|]. exact IH. Qed.

(** ** discovery.py *)
Section discovery_facts.
Context {env : Environment}.
Import discovery.

(** The fan-out returns one result per location and sends one fetch per
    location, in order. *)
Lemma gather_spec (locations : list string) (w : World) :
  exists results,
    gather locations w
    = (Return results,
       with_wire (wire w ++ (FetchDescription <$> locations)) w).
Proof.
  revert w. induction locations as [|loc rest IH]; intros w.
  - exists []. cbn. by rewrite app_nil_r, with_wire_same.
  - destruct (IH (with_wire (wire w ++ [FetchDescription loc]) w))
      as [results Hres].
    exists (fetch_device_description (wire w) loc :: results).
    cbn. unfold bind, get_world, modify_world. rewrite Hres. cbn.
    by rewrite <- app_assoc.
Qed.

(** A call that finds the cache fresh returns it and touches nothing. *)
Lemma discover_hit (force : bool) (w : World) :
  cache_is_fresh force w = true ->
  discover_renderers force w = (Return (_renderer_cache w), w).
Proof.
  intros H. unfold discover_renderers, bind, get_world. by rewrite H.
Qed.

(** Any other call runs one discovery pass; when the search returns, the
    pass replaces the cache. *)
Lemma discover_miss (force : bool) (w : World) (locations : list string) :
  cache_is_fresh force w = false ->
  ssdp_search (wire w) = Return locations ->
  exists results,
    let now := (clock w + pass_duration (wire w))%Q in
    discover_renderers force w
    = (Return (collect results),
       with_cache (collect results) now
         (with_clock now
            (with_wire (wire w ++ MSearch
                          :: (FetchDescription <$> locations)) w))).
Proof.
  intros H Hs.
  destruct (gather_spec locations (with_wire (wire w ++ [MSearch]) w))
    as [results Hres].
  exists results.
  unfold discover_renderers, bind, get_world, modify_world, lift.
  rewrite H. cbn [wire with_wire]. rewrite Hs, Hres. cbn.
  by rewrite <- app_assoc.
Qed.

(** When the search raises, the pass ends there: the exception leaves
    [discover_renderers] and the cache stays as it was. *)
Lemma discover_fails (force : bool) (w : World) (e : Exn) :
  cache_is_fresh force w = false ->
  ssdp_search (wire w) = Raise e ->
  discover_renderers force w = (Raise e, with_wire (wire w ++ [MSearch]) w).
Proof.
  intros H Hs.
  unfold discover_renderers, bind, get_world, modify_world, lift.
  rewrite H. cbn [wire with_wire]. by rewrite Hs.
Qed.

(** What [discover_renderers] returns is what the cache then holds. *)
Lemma discover_returned (force : bool) (w w' : World)
  (rs : list DlnaRenderer) :
  discover_renderers force w = (Return rs, w') -> _renderer_cache w' = rs.
Proof.
  intros Hd. destruct (cache_is_fresh force w) eqn:E.
  - rewrite (discover_hit _ _ E) in Hd. by injection Hd as <- <-.
  - destruct (ssdp_search (wire w)) as [locations|e] eqn:Hs.
    + destruct (discover_miss force w locations E Hs) as [results Hres].
      cbv zeta in Hres. rewrite Hres in Hd. by injection Hd as <- <-.
    + rewrite (discover_fails force w e E Hs) in Hd. discriminate Hd.
Qed.

End discovery_facts.

Lemma append_cons (c : ascii) (a b : string) :
  String c a +:+ b = String c (a +:+ b).
Proof. reflexivity. Qed.

Lemma append_nil (b : string) : "" +:+ b = b.
Proof. reflexivity. Qed.

Lemma prefix_spec (p s : string) :
  String.prefix p s = true <-> exists rest, s = p +:+ rest.
Proof.
  revert s. induction p as [|c p IH]; intros s.
  - split; [intros _; exists s; reflexivity | intros _; by destruct s].
  - destruct s as [|c' s]; cbn.
    + split; [done | intros [rest Hrest]; discriminate Hrest].
    + destruct (Ascii.ascii_dec c c') as [->|Hne].
      * rewrite IH.
        split; intros [rest Hrest]; exists rest;
          rewrite ?append_cons in *; congruence.
      * split; [done|].
        intros [rest Hrest]. rewrite append_cons in Hrest. congruence.
Qed.

(** [str_in] is Python's substring test. *)
Lemma str_in_spec (needle hay : string) :
  str_in needle hay = true <-> exists a b, hay = a +:+ needle +:+ b.
Proof.
  induction hay as [|c hay IH].
  - change (str_in needle "") with (String.prefix needle "" || false).
    rewrite orb_true_iff, prefix_spec. split.
    + intros [[rest Hrest]|?]; [|done]. exists "", rest. exact Hrest.
    + intros [a [b Hab]]. left.
      destruct a; [exists b; exact Hab | discriminate Hab].
  - change (str_in needle (String c hay))
      with (String.prefix needle (String c hay) || str_in needle hay).
    rewrite orb_true_iff, prefix_spec, IH. split.
    + intros [[rest Hrest]|[a [b Hab]]]; [exists "", rest; exact Hrest|].
      exists (String c a), b. by rewrite append_cons, Hab.
    + intros [a [b Hab]]. destruct a as [|c' a].
      * left. exists b. exact Hab.
      * right. exists a, b. rewrite append_cons in Hab. congruence.
Qed.

Lemma str_in_refl (s : string) : str_in s s = true.
Proof.
  apply str_in_spec. exists "", "". rewrite append_nil.
  induction s as [|c s IH]; [done|]. rewrite append_cons. congruence.
Qed.

(** [find] returns the first element, in list order, that passes the test. *)
Lemma find_first {A} (f : A -> bool) (pre post : list A) (x : A) :
  f x = true -> (forall y, In y pre -> f y = false) ->
  List.find f (pre ++ x :: post) = Some x.
Proof.
  intros Hx. induction pre as [|y pre IH]; intros Hpre; cbn.
  - by rewrite Hx.
  - rewrite (Hpre y) by (by left). apply IH. intros z Hz. apply Hpre. by right.
Qed.

Lemma find_all_false {A} (f : A -> bool) (l : list A) :
  (forall y, In y l -> f y = false) -> List.find f l = None.
Proof.
  induction l as [|y l IH]; intros H; cbn; [done|].
  rewrite (H y) by (by left). apply IH. intros z Hz. apply H. by right.
Qed.

Section resolve_facts.
Context {env : Environment}.
Import discovery.

Lemma find_renderer_unfold (name_ : string) (w w' : World)
  (rs : list DlnaRenderer) :
  discover_renderers false w = (Return rs, w') ->
  find_renderer name_ w
  = (Return
       (match List.find (fun r => String.eqb (lower (name r)) (lower name_)) rs with
        | Some r => Some r
        | None => List.find (fun r => str_in (lower name_) (lower (name r))) rs
        end), w').
Proof.
  intros H. unfold find_renderer, bind. rewrite H.
  destruct (List.find _ rs); [done|].
  by destruct (List.find _ rs).
Qed.

(** When the discovery raises, the lookup raises the same exception before
    it compares any name. *)
Lemma find_renderer_raises (name_ : string) (w w' : World) (e : Exn) :
  discover_renderers false w = (Raise e, w') ->
  find_renderer name_ w = (Raise e, w').
Proof. intros H. unfold find_renderer, bind. by rewrite H. Qed.

(** C8: [find_renderer] asks [discover_renderers] with [force=False] and,
    when that returns, works on the list it returns and leaves the state
    the discovery left; names are compared after [lower]; the first renderer
    whose whole name equals the query is the answer, even when an earlier
    one contains the query; without such a renderer the first one whose
    name contains the query is the answer; when no name contains the query
    the answer is [None], returned normally. *)
Theorem find_renderer_resolves (name_ : string) (w w' : World)
  (rs : list DlnaRenderer) :
  discover_renderers false w = (Return rs, w') ->
  exists answer,
    find_renderer name_ w = (Return answer, w')
    /\ (forall pre r post,
           rs = pre ++ r :: post ->
           lower (name r) = lower name_ ->
           (forall x, In x pre -> lower (name x) <> lower name_) ->
           answer = Some r)
    /\ ((forall x, In x rs -> lower (name x) <> lower name_) ->
        forall pre r post,
          rs = pre ++ r :: post ->
          str_in (lower name_) (lower (name r)) = true ->
          (forall x, In x pre -> str_in (lower name_) (lower (name x)) = false) ->
          answer = Some r)
    /\ ((forall x, In x rs -> str_in (lower name_) (lower (name x)) = false) ->
        answer = None)
    /\ (forall other, lower other = lower name_ ->
                      find_renderer other w = find_renderer name_ w).
Proof.
  intros Hd. eexists.
  split; [exact (find_renderer_unfold name_ w w' rs Hd)|].
  repeat split.
  - intros pre r post -> Hr Hpre.
    rewrite (find_first _ pre post r); [done| |].
    + by apply String.eqb_eq.
    + intros y Hy. apply String.eqb_neq. by apply Hpre.
  - intros Hnone pre r post Hrs Hr Hpre.
    rewrite find_all_false.
    + subst rs. by apply find_first.
    + intros y Hy. apply String.eqb_neq. by apply Hnone.
  - intros Hnone. rewrite find_all_false.
    + by apply find_all_false.
    + intros y Hy. apply String.eqb_neq. intros Heq.
      specialize (Hnone y Hy). rewrite <- Heq, str_in_refl in Hnone. done.
  - intros other Ho.
    rewrite (find_renderer_unfold other w w' rs Hd),
            (find_renderer_unfold name_ w w' rs Hd).
    by rewrite Ho.
Qed.

(** C2 as amended: when the first of two [discover_renderers(force=False)]
    calls returns a non-empty list and the second is made less than
    [CACHE_TTL] seconds after the cache time stamp, the two calls perform
    at most one multicast search, and the second returns the same list and
    leaves the world, the wire included, as it found it. *)
Theorem discover_twice_within_ttl (w w1 : World) (r1 : list DlnaRenderer)
  (t2 : Q) :
  discover_renderers false w = (Return r1, w1) ->
  r1 <> [] ->
  (t2 - _cache_time w1 < CACHE_TTL)%Q ->
  discover_renderers false (with_clock t2 w1) = (Return r1, with_clock t2 w1)
  /\ (searches (wire (discover_renderers false (with_clock t2 w1)).2)
      <= searches (wire w) + 1)%nat.
Proof.
  intros H1 Hne Hlt.
  assert (Hcache : _renderer_cache w1 = r1).
  { by apply (discover_returned false w). }
  assert (Hfresh : cache_is_fresh false (with_clock t2 w1) = true).
  { unfold cache_is_fresh. cbn. rewrite Hcache.
    destruct r1; [done|]. cbn. by apply Qltb_true. }
  rewrite (discover_hit _ _ Hfresh).
  cbn [snd wire with_clock _renderer_cache]. rewrite Hcache. split; [done|].
  destruct (cache_is_fresh false w) eqn:E.
  - rewrite (discover_hit _ _ E) in H1. injection H1 as _ <-. lia.
  - destruct (ssdp_search (wire w)) as [locations|e] eqn:Hs;
      [|by rewrite (discover_fails false w e E Hs) in H1].
    destruct (discover_miss false w locations E Hs) as [results Hres].
    cbv zeta in Hres. rewrite Hres in H1. injection H1 as _ <-.
    cbn [wire with_cache with_clock with_wire].
    rewrite searches_app. change (MSearch :: ?l) with ([MSearch] ++ l).
    rewrite searches_app, searches_fetches. cbn. lia.
Qed.

End resolve_facts.

(** ** queue_manager.py: the preload invariant *)

Lemma preloads_ok_insert (w w' : World) (self : nat) (x : QueueSession) :
  preloads_ok w -> heap w' = <[self := x]> (heap w) -> preload_ok x ->
  preloads_ok w'.
Proof.
  unfold preloads_ok. intros Hw -> Hx. by apply Forall_insert.
Qed.

Lemma preloads_ok_heap (w w' : World) :
  preloads_ok w -> heap w' = heap w -> preloads_ok w'.
Proof. unfold preloads_ok. by intros Hw ->. Qed.

Lemma preloads_ok_lookup (w : World) (self : nat) (s : QueueSession) :
  preloads_ok w -> heap w !! self = Some s -> preload_ok s.
Proof. intros Hw Hs. eapply Forall_lookup_1; eassumption. Qed.

Lemma py_index_nat {A} (l : list A) (i : Z) :
  0 <= i -> py_index l i = l !! Z.to_nat i.
Proof. intros H. unfold py_index. by rewrite bool_decide_eq_true_2. Qed.

(** Symbolic execution of a monadic term: decide the tests of the source one
    by one, outermost first. *)
Ltac mstep :=
  match goal with
  | H : forall h c, fault h c = None |- context [fault ?h ?c] => rewrite (H h c)
  | H : fault ?h ?c = _ |- context [fault ?h ?c] => rewrite H
  | H : py_index ?l ?i = _ |- context [py_index ?l ?i] => rewrite H
  | H : _dmr ?s = _ |- context [_dmr ?s] => rewrite H
  | H : _preloaded_index ?s = _ |- context [_preloaded_index ?s] => rewrite H
  | H : supports_next ?r = _ |- context [supports_next ?r] => rewrite H
  | H : infra ?w = _ |- context [infra ?w] => rewrite H
  | |- context [supports_next ?r] =>
      let E := fresh "Hnext" in destruct (supports_next r) eqn:E
  | |- context [match _preloaded_index ?s with _ => _ end] =>
      let E := fresh "Hpre" in destruct (_preloaded_index s) eqn:E
  | H : heap ?w !! ?i = Some ?s |- context [heap ?w !! ?i] => rewrite H
  | |- context [<[?i := ?x]> ?l !! ?i] =>
      rewrite (list_lookup_insert_eq l i x)
        by (rewrite ?length_insert; eapply lookup_lt_Some; eassumption)
  | |- context [<[?i := ?x]> (<[?i := ?y]> ?l)] =>
      rewrite (list_insert_insert_eq l i x y)
  | |- context [match heap ?w !! ?i with _ => _ end] =>
      let E := fresh "Hobj" in destruct (heap w !! i) eqn:E
  | |- context [bool_decide ?P] =>
      let E := fresh "Hdec" in destruct (bool_decide_reflect P) as [E|E]
  | |- context [match _dmr ?s with _ => _ end] =>
      let E := fresh "Hdmr" in destruct (_dmr s) eqn:E
  | |- context [match py_index ?l ?i with _ => _ end] =>
      let E := fresh "Hidx" in destruct (py_index l i) eqn:E
  | |- context [match fault ?h ?c with _ => _ end] =>
      let E := fresh "Hfault" in destruct (fault h c) eqn:E
  | |- context [if ?b then _ else _] =>
      let E := fresh "Hif" in destruct b eqn:E
  end.

Ltac msimpl :=
  cbn -[Z.add Z.of_nat Z.sub length bool_decide lookup insert delete].

Ltac mrun := repeat (msimpl; try mstep).

Ltac munfold :=
  unfold bind, deref, index, try_except, attempt, lift,
    queue_manager.call, setattr, ret, raise, get_world, modify_world,
    create_task, py_assert.

Section preload_invariant.
Context {env : Environment}.
Import queue_manager.

Ltac leaf :=
  first
    [ done
    | eapply preloads_ok_heap; [eassumption|reflexivity]
    | eapply preloads_ok_insert; [eassumption|reflexivity|];
      try match goal with
          | Hw : preloads_ok ?w, H : heap ?w !! _ = Some _ |- _ =>
              pose proof (preloads_ok_lookup _ _ _ Hw H)
          end;
      unfold preload_ok in *; cbn in *;
      repeat match goal with
             | H : _preloaded_index ?s = _ |- _ => rewrite H in *
             end;
      first [done | lia] ].

Lemma _preload_next_keeps (self : nat) (w : World) :
  preloads_ok w -> preloads_ok (_preload_next self w).2.
Proof.
  intros Hw. unfold _preload_next, _preload_next_send,
    _preload_next_resume. munfold. mrun; leaf.
Qed.

Lemma _auto_advance_keeps (self : nat) (w : World) :
  preloads_ok w -> preloads_ok (_auto_advance self w).2.
Proof.
  intros Hw. unfold _auto_advance. munfold. mrun; leaf.
Qed.

Lemma _on_event_keeps (self : nat) (sv : StateVariables) (w : World) :
  preloads_ok w -> preloads_ok (_on_event self sv w).2.
Proof.
  intros Hw. destruct sv as [sv|[|v vars]]; [|done|done].
  unfold _on_event. munfold.
  generalize (sv !! "TransportState") (sv !! "CurrentTrackURI").
  intros state [uri|]; mrun; leaf.
Qed.

Lemma next_keeps (self : nat) (w : World) :
  preloads_ok w -> preloads_ok (next self w).2.
Proof.
  intros Hw. unfold next, _preload_next, _preload_next_send,
    _preload_next_resume. munfold. mrun; leaf.
Qed.

Lemma previous_keeps (self : nat) (w : World) :
  preloads_ok w -> preloads_ok (previous self w).2.
Proof.
  intros Hw. unfold previous, _preload_next, _preload_next_send,
    _preload_next_resume. munfold. mrun; leaf.
Qed.

Lemma start_keeps (self : nat) (w : World) :
  preloads_ok w -> preloads_ok (start self w).2.
Proof.
  intros Hw. unfold start, _ensure_infrastructure, _preload_next, _preload_next_send,
    _preload_next_resume. munfold.
  mrun; leaf.
Qed.

(** The handler on an event whose current-track URI is the URL of the
    preloaded track: the session moves to that track, the preload record
    is cleared, and one [_preload_next] task is created.  Nothing is sent. *)
Lemma _on_event_gapless (self : nat) (sv : gmap string string) (w : World)
  (s : QueueSession) (p : Z) (t : Track) :
  heap w !! self = Some s ->
  _preloaded_index s = Some p ->
  py_index (tracks s) p = Some t ->
  sv !! "CurrentTrackURI" = Some (url t) ->
  url t <> "" ->
  _on_event self (Mapping sv) w
  = (Return tt,
     with_tasks (tasks w ++ [T_preload_next self])
       (with_heap
          (<[self := set_preloaded_index None (set_current_index p s)]>
             (heap w)) w)).
Proof.
  intros Hs Hp Ht Huri Hne.
  assert (Hsv : sv <> ∅) by (intros ->; by rewrite lookup_empty in Huri).
  unfold _on_event. rewrite (bool_decide_eq_false_2 _ Hsv), Huri.
  munfold. mrun; done.
Qed.

Lemma preload_invariant_step (self : nat) (op : Op) (w : World) :
  preloads_ok w -> preloads_ok (run_op self op w).2.
Proof.
  intros Hw. destruct op; cbn [run_op].
  - by apply start_keeps.
  - by apply _on_event_keeps.
  - unfold bind. pose proof (next_keeps self w Hw) as H.
    by destruct (next self w) as [[?|?] ?].
  - unfold bind. pose proof (previous_keeps self w Hw) as H.
    by destruct (previous self w) as [[?|?] ?].
  - by apply _auto_advance_keeps.
  - by apply _preload_next_keeps.
Qed.

(** What [DmrDevice] delivers makes the handler raise at its first read,
    before it has looked at the session; an empty sequence is ignored. *)
Lemma on_event_raises (self : nat) (vars : list (string * string))
  (w : World) :
  vars <> [] ->
  on_event self vars w
  = (Raise (AttributeError "'list' object has no attribute 'get'"), w).
Proof. by destruct vars. Qed.

Lemma on_event_empty (self : nat) (w : World) :
  on_event self [] w = (Return tt, w).
Proof. reflexivity. Qed.

(** C9: the code does not keep the invariant.  Run with nothing in between,
    every operation keeps it ([preload_invariant_step]).  But
    [_preload_next] reads the current index before its [await] and records
    the preload after it: when [next] runs in between, on a started gapless
    session with a next track and a device that acknowledges, the coroutine
    resumes and records the index it read, which is now the current index,
    not the current index plus one.  And a preloaded track is never
    consumed by a detected transition: the event that reports it, delivered
    by [DmrDevice], makes the handler raise and leaves index and preload as
    they were. *)
Theorem stale_preload_after_skip (self : nat) (w : World)
  (s : QueueSession) (d : DmrDevice) (vars : list (string * string)) :
  (forall h c, fault h c = None) ->
  heap w !! self = Some s ->
  _dmr s = Some d ->
  supports_next (renderer s) = true ->
  0 <= current_index s ->
  current_index s + 1 < Z.of_nat (length (tracks s)) ->
  vars <> [] ->
  (exists w1,
     _preload_next_send self w
     = (Return (Awaiting (current_index s + 1) (Return tt)), w1)
     /\ exists s',
          heap (_preload_next_resume self
                  (Awaiting (current_index s + 1) (Return tt))
                  (next self w1).2).2 !! self = Some s'
          /\ current_index s' = current_index s + 1
          /\ _preloaded_index s' = Some (current_index s + 1)
          /\ ~ preload_ok s')
  /\ on_event self vars w
     = (Raise (AttributeError "'list' object has no attribute 'get'"), w).
Proof.
  intros Hok Hs Hd Hcap Hlo Hhi Hvars.
  split; [|by apply on_event_raises].
  destruct (tracks s !! Z.to_nat (current_index s + 1)) as [t|] eqn:Ht.
  2:{ apply lookup_ge_None in Ht. lia. }
  assert (Hidx : py_index (tracks s) (current_index s + 1) = Some t)
    by (rewrite py_index_nat by lia; exact Ht).
  eexists. split.
  { unfold _preload_next_send. munfold. mrun; first [done | lia]. }
  cbv beta.
  match goal with
  | |- context [next self ?w1] =>
      assert (Hs1 : heap w1 !! self = Some s) by exact Hs;
      generalize dependent w1
  end.
  intros w1 Hs1. clear Hs.
  assert (Hnext : exists s2,
             heap (next self w1).2 !! self = Some s2
             /\ current_index s2 = current_index s + 1).
  { unfold next, _preload_next, _preload_next_send, _preload_next_resume.
    munfold. mrun; try lia.
    all: eexists; split; [reflexivity|done]. }
  destruct Hnext as (s2 & Hs2 & Hci2).
  destruct (next self w1) as [o w2]. cbn [snd] in Hs2 |- *.
  unfold _preload_next_resume. munfold. rewrite Hs2.
  cbn [snd heap with_heap].
  rewrite (list_lookup_insert_eq (heap w2) self)
    by (by eapply lookup_lt_Some).
  eexists. split; [reflexivity|]. cbn. unfold preload_ok. cbn.
  rewrite Hci2. split; [done|]. split; [done|]. lia.
Qed.

End preload_invariant.

(** ** queue_manager.py: sessions at work *)

(** Equality of two worlds written as chains of field updates. *)
Ltac world_eq :=
  lazymatch goal with
  | |- (?r, _) = (?r, _) => apply (f_equal (pair r))
  | |- _ => idtac
  end;
  apply world_ext;
  cbn -[Z.add Z.of_nat Z.sub length bool_decide lookup insert delete];
  rewrite <- ?app_assoc;
  first [done | congruence | idtac].

Section session_facts.
Context {env : Environment}.
Import queue_manager.

Lemma capabilities_ok_lookup (w : World) (self : nat) (s : QueueSession) :
  capabilities_ok w -> heap w !! self = Some s -> capability_ok s.
Proof. intros Hw Hs. eapply Forall_lookup_1; eassumption. Qed.

Ltac cap_leaf :=
  first
    [ done
    | match goal with
      | Hw : capabilities_ok ?w |- capabilities_ok ?w' =>
          unfold capabilities_ok in *; exact Hw
      end
    | match goal with
      | Hw : capabilities_ok ?w, H : heap ?w !! _ = Some _
        |- capabilities_ok _ =>
          pose proof (capabilities_ok_lookup _ _ _ Hw H);
          unfold capabilities_ok in *; cbn;
          apply Forall_insert; [exact Hw|];
          unfold capability_ok in *; cbn in *;
          first [done | congruence | tauto]
      end ].

(** On a renderer without gapless support no operation records a
    preload. *)
Lemma capability_invariant_step (self : nat) (op : Op) (w : World) :
  capabilities_ok w -> capabilities_ok (run_op self op w).2.
Proof.
  intros Hw. destruct op; cbn [run_op].
  - unfold start, _ensure_infrastructure, _preload_next, _preload_next_send,
    _preload_next_resume. munfold.
    mrun; cap_leaf.
  - destruct state_variables as [sv|[|v vars]].
    + unfold _on_event. munfold.
      generalize (sv !! "TransportState") (sv !! "CurrentTrackURI").
      intros state [uri|]; mrun; cap_leaf.
    + unfold _on_event. munfold. mrun; cap_leaf.
    + unfold _on_event. munfold. mrun; cap_leaf.
  - unfold next, _preload_next, _preload_next_send,
    _preload_next_resume. munfold. mrun; cap_leaf.
  - unfold previous, _preload_next, _preload_next_send,
    _preload_next_resume. munfold. mrun; cap_leaf.
  - unfold _auto_advance. munfold. mrun; cap_leaf.
  - unfold _preload_next, _preload_next_send,
    _preload_next_resume. munfold. mrun; cap_leaf.
Qed.

(** C10: [next] on the last track and [previous] on the first return
    [None] and leave the whole world, the session included, as it was. *)
Theorem skip_at_either_end (self : nat) (w : World) (s : QueueSession) :
  heap w !! self = Some s ->
  (current_index s = Z.of_nat (length (tracks s)) - 1 ->
   next self w = (Return None, w))
  /\ (current_index s = 0 -> previous self w = (Return None, w)).
Proof.
  intros Hs. split; intros Hci.
  - unfold next. munfold. rewrite Hs. cbn -[Z.of_nat].
    rewrite bool_decide_eq_true_2 by lia. done.
  - unfold previous. munfold. rewrite Hs. cbn.
    rewrite bool_decide_eq_true_2 by lia. done.
Qed.

(** [_preload_next] when there is a next track, the renderer has the
    capability, the handle is live and the device acknowledges. *)
Lemma _preload_next_run (self : nat) (w : World) (s : QueueSession)
  (d : DmrDevice) (t : Track) :
  heap w !! self = Some s ->
  supports_next (renderer s) = true ->
  _dmr s = Some d ->
  current_index s + 1 < Z.of_nat (length (tracks s)) ->
  py_index (tracks s) (current_index s + 1) = Some t ->
  fault (wire w) (SetNextTransportURI d (url t) (title t) (metadata_of t))
  = None ->
  _preload_next self w
  = (Return tt,
     with_heap
       (<[self := set_preloaded_index (Some (current_index s + 1)) s]>
          (heap w))
       (with_wire
          (wire w ++ [SetNextTransportURI d (url t) (title t) (metadata_of t)])
          w)).
Proof.
  intros Hs Hcap Hd Hlt Ht Hok. unfold _preload_next, _preload_next_send,
    _preload_next_resume. munfold.
  mrun; first [done | lia].
Qed.

(** [start] on a new session of a gapless renderer with at least two
    tracks, every call acknowledged. *)
Lemma start_gapless_run (self : nat) (w : World) (s : QueueSession)
  (t0 t1 : Track) (rest : list Track) :
  (forall h c, fault h c = None) ->
  infra w = infra_none \/ infra w = infra_set ->
  heap w !! self = Some s ->
  supports_next (renderer s) = true ->
  tracks s = t0 :: t1 :: rest ->
  current_index s = 0 ->
  let d := {| device_location := location (renderer s) |} in
  start self w
  = (Return tt,
     with_heap
       (<[self := set_preloaded_index (Some 1) (set_dmr (Some d) s)]> (heap w))
       (with_wire
          (wire w
           ++ (if _notify_server (infra w) then [] else [StartServer])
           ++ [CreateDevice (location (renderer s)); Subscribe d;
               SetTransportURI d (url t0) (title t0) (metadata_of t0);
               Play d;
               SetNextTransportURI d (url t1) (title t1) (metadata_of t1)])
          (with_infra infra_set w))).
Proof.
  intros Hok Hinfra Hs Hcap Htracks Hci d.
  assert (Ht0 : py_index (tracks s) 0 = Some t0) by (by rewrite Htracks).
  assert (Ht1 : py_index (tracks s) (current_index s + 1) = Some t1)
    by (by rewrite Htracks, Hci).
  assert (Hlen : Z.of_nat (length (tracks s)) > 1)
    by (rewrite Htracks; cbn [length]; lia).
  unfold start, _ensure_infrastructure, _preload_next, _preload_next_send,
    _preload_next_resume. munfold.
  destruct Hinfra as [Hi|Hi]; rewrite Hi; mrun; try (exfalso; lia).
  all: rewrite ?Hci; world_eq.
Qed.

Lemma lookup_heap_insert (w : World) (self : nat) (s x : QueueSession) :
  heap w !! self = Some s -> <[self := x]> (heap w) !! self = Some x.
Proof. intros H. apply list_lookup_insert_eq. by eapply lookup_lt_Some. Qed.

(** What the handler is written to do, seen when it is called with a
    mapping: on a gapless renderer with at least three tracks and a device
    that acknowledges every call, [start] leaves track 1 preloaded; an event
    whose current-track URI is track 1's URL makes 1 the current index and
    clears the preload; the task the handler created then preloads track
    2; from the event on, the only call sent is that
    [SetNextTransportURI], so no [SetTransportURI] is issued. *)
Lemma gapless_transition_on_mapping (self : nat) (w : World)
  (s : QueueSession) (t0 t1 t2 : Track) (rest : list Track)
  (sv : gmap string string) :
  (forall h c, fault h c = None) ->
  infra w = infra_none \/ infra w = infra_set ->
  tasks w = [] ->
  heap w !! self = Some s ->
  supports_next (renderer s) = true ->
  tracks s = t0 :: t1 :: t2 :: rest ->
  current_index s = 0 ->
  url t1 <> "" ->
  sv !! "CurrentTrackURI" = Some (url t1) ->
  let d := {| device_location := location (renderer s) |} in
  let w1 := (start self w).2 in
  let w2 := (_on_event self (Mapping sv) w1).2 in
  let w3 := (run_pending w2).2 in
  (start self w).1 = Return tt
  /\ heap w1 !! self
     = Some (set_preloaded_index (Some 1) (set_dmr (Some d) s))
  /\ (_on_event self (Mapping sv) w1).1 = Return tt
  /\ heap w2 !! self
     = Some (set_preloaded_index None
               (set_current_index 1 (set_dmr (Some d) s)))
  /\ wire w2 = wire w1
  /\ tasks w2 = [T_preload_next self]
  /\ (run_pending w2).1 = Return tt
  /\ heap w3 !! self
     = Some (set_preloaded_index (Some 2)
               (set_current_index 1 (set_dmr (Some d) s)))
  /\ tasks w3 = []
  /\ wire w3
     = wire w1 ++ [SetNextTransportURI d (url t2) (title t2) (metadata_of t2)]
  /\ List.filter is_set_transport_uri (wire w3)
     = List.filter is_set_transport_uri (wire w1).
Proof.
  intros Hok Hinfra Htasks Hs Hcap Htracks Hci Hne Huri d w1 w2 w3.
  pose proof (start_gapless_run self w s t0 t1 (t2 :: rest)
                Hok Hinfra Hs Hcap Htracks Hci) as Hstart.
  cbv zeta in Hstart. fold d in Hstart.
  pose (s1 := set_preloaded_index (Some 1) (set_dmr (Some d) s)).
  pose (s2 := set_preloaded_index None (set_current_index 1 s1)).
  pose (s3 := set_preloaded_index (Some 2) s2).
  split; [by rewrite Hstart|].
  assert (Hs1 : heap w1 !! self = Some s1).
  { subst w1. rewrite Hstart. by eapply lookup_heap_insert. }
  assert (Htasks1 : tasks w1 = []) by (subst w1; by rewrite Hstart).
  clearbody w1. split; [exact Hs1|].
  assert (Hidx1 : py_index (tracks s1) 1 = Some t1)
    by (cbn [s1 tracks set_preloaded_index set_dmr]; by rewrite Htracks).
  assert (Hev := _on_event_gapless self sv w1 s1 1 t1 Hs1 eq_refl Hidx1
                   Huri Hne).
  fold s2 in Hev. rewrite Htasks1 in Hev. cbn [app] in Hev.
  split; [by rewrite Hev|].
  assert (Hw2 : w2 = with_tasks [T_preload_next self]
                       (with_heap (<[self:=s2]> (heap w1)) w1))
    by (subst w2; by rewrite Hev).
  clearbody w2.
  assert (Hs2 : heap w2 !! self = Some s2)
    by (rewrite Hw2; by eapply lookup_heap_insert).
  split; [exact Hs2|]. split; [by rewrite Hw2|]. split; [by rewrite Hw2|].
  assert (Hrun : run_pending w2
                 = (Return tt, (_preload_next self (with_tasks [] w2)).2)).
  { unfold run_pending, bind, get_world. rewrite Hw2 at 1. cbn [tasks with_tasks length run_tasks].
    unfold bind, run_next_task. rewrite Hw2 at 1. cbn [tasks with_tasks].
    rewrite Hw2. done. }
  assert (Hlen2 : current_index s2 + 1 < Z.of_nat (length (tracks s2)))
    by (cbn [s2 s1 tracks current_index set_preloaded_index
             set_current_index set_dmr];
        rewrite Htracks; cbn [length]; lia).
  assert (Hidx2 : py_index (tracks s2) (current_index s2 + 1) = Some t2)
    by (cbn [s2 s1 tracks current_index set_preloaded_index
             set_current_index set_dmr];
        by rewrite Htracks).
  assert (Hs2' : heap (with_tasks [] w2) !! self = Some s2) by exact Hs2.
  assert (Hpre := _preload_next_run self (with_tasks [] w2) s2 d t2 Hs2' Hcap
                    eq_refl Hlen2 Hidx2 (Hok _ _)).
  split; [by rewrite Hrun|].
  assert (Hw3 : w3 = with_heap (<[self:=s3]> (heap w2))
                       (with_wire
                          (wire w2 ++
                           [SetNextTransportURI d (url t2) (title t2)
                              (metadata_of t2)])
                          (with_tasks [] w2)))
    by (subst w3; by rewrite Hrun, Hpre).
  clearbody w3. rewrite Hw3. cbn [heap tasks wire with_heap with_wire with_tasks].
  split; [by eapply lookup_heap_insert|]. split; [done|].
  assert (Hwire2 : wire w2 = wire w1) by (by rewrite Hw2).
  rewrite Hwire2. split; [done|].
  rewrite List.filter_app. cbn. by rewrite app_nil_r.
Qed.

(** C1: on a gapless renderer with at least three tracks and a device that
    acknowledges every call, [start] leaves track 1 preloaded, as claimed.
    The transition is not detected.  The event that reports track 1's URL
    reaches the handler as the sequence [DmrDevice] delivers; the handler
    raises [AttributeError] at its first read and changes nothing: the
    session stays at index 0 with track 1 recorded as preloaded, no task is
    created, and the event loop has nothing to run, so track 2 is never
    preloaded. *)
Theorem gapless_transition_not_detected (self : nat) (w : World)
  (s : QueueSession) (t0 t1 t2 : Track) (rest : list Track)
  (vars : list (string * string)) :
  (forall h c, fault h c = None) ->
  infra w = infra_none \/ infra w = infra_set ->
  tasks w = [] ->
  heap w !! self = Some s ->
  supports_next (renderer s) = true ->
  tracks s = t0 :: t1 :: t2 :: rest ->
  current_index s = 0 ->
  In ("CurrentTrackURI", url t1) vars ->
  let d := {| device_location := location (renderer s) |} in
  let w1 := (start self w).2 in
  (start self w).1 = Return tt
  /\ heap w1 !! self
     = Some (set_preloaded_index (Some 1) (set_dmr (Some d) s))
  /\ on_event self vars w1
     = (Raise (AttributeError "'list' object has no attribute 'get'"), w1)
  /\ run_pending w1 = (Return tt, w1).
Proof.
  intros Hok Hinfra Htasks Hs Hcap Htracks Hci Hin d w1.
  pose proof (start_gapless_run self w s t0 t1 (t2 :: rest)
                Hok Hinfra Hs Hcap Htracks Hci) as Hstart.
  cbv zeta in Hstart. fold d in Hstart.
  split; [by rewrite Hstart|].
  split; [subst w1; rewrite Hstart; by eapply lookup_heap_insert|].
  split; [apply on_event_raises; by intros ->|].
  assert (Htasks1 : tasks w1 = []) by (subst w1; by rewrite Hstart).
  unfold run_pending, bind, get_world. by rewrite Htasks1.
Qed.

End session_facts.

Section fallback_facts.
Context {env : Environment}.
Import queue_manager.

(** What the handler is written to do, seen when it is called with a
    mapping: on a renderer without gapless support, with no preload
    recorded, a live handle and the current track strictly before the last
    one, an event that reports [STOPPED] makes the handler create the
    auto-advance task; run, that task sends [SetTransportURI] for the next
    track and then [Play], and the current index has grown by one.  The
    device is taken to acknowledge [SetTransportURI]. *)
Lemma auto_advance_on_mapping (self : nat) (w : World)
  (s : QueueSession) (d : DmrDevice) (sv : gmap string string) :
  (forall h c, is_set_transport_uri c = true -> fault h c = None) ->
  tasks w = [] ->
  heap w !! self = Some s ->
  supports_next (renderer s) = false ->
  _preloaded_index s = None ->
  _dmr s = Some d ->
  0 <= current_index s < Z.of_nat (length (tracks s)) - 1 ->
  sv !! "TransportState" = Some "STOPPED" ->
  let w1 := (_on_event self (Mapping sv) w).2 in
  let w2 := (run_pending w1).2 in
  exists t,
    py_index (tracks s) (current_index s + 1) = Some t
    /\ (_on_event self (Mapping sv) w).1 = Return tt
    /\ w1 = with_tasks [T_auto_advance self] w
    /\ (run_pending w1).1 = Return tt
    /\ wire w2
       = wire w ++ [SetTransportURI d (url t) (title t) (metadata_of t);
                    Play d]
    /\ heap w2 !! self
       = Some (set_preloaded_index None
                 (set_current_index (current_index s + 1) s))
    /\ tasks w2 = [].
Proof.
  intros Hok Htasks Hs Hcap Hpre Hd Hci Hstate w1 w2.
  destruct (tracks s !! Z.to_nat (current_index s + 1)) as [t|] eqn:Ht.
  2: { apply lookup_ge_None in Ht. lia. }
  assert (Hidx : py_index (tracks s) (current_index s + 1) = Some t)
    by (rewrite py_index_nat by lia; exact Ht).
  exists t. split; [exact Hidx|].
  assert (Hsv : sv <> ∅) by (intros ->; by rewrite lookup_empty in Hstate).
  assert (Hev : _on_event self (Mapping sv) w
                = (Return tt, with_tasks [T_auto_advance self] w)).
  { unfold _on_event. rewrite (bool_decide_eq_false_2 _ Hsv), Hstate.
    generalize (sv !! "CurrentTrackURI"). intros uri. munfold.
    rewrite Hs. cbn -[Z.of_nat Z.sub bool_decide]. rewrite Hpre, Hcap.
    rewrite (bool_decide_eq_true_2 (Some "STOPPED" = Some "STOPPED")) by done.
    rewrite (bool_decide_eq_true_2 (current_index s < _)) by lia.
    destruct uri; cbv beta iota delta [andb negb modify_world];
      by rewrite Htasks. }
  split; [by rewrite Hev|].
  assert (Hw1 : w1 = with_tasks [T_auto_advance self] w)
    by (subst w1; by rewrite Hev).
  clearbody w1. split; [exact Hw1|].
  assert (Hrun : run_pending w1
                 = (Return tt, (_auto_advance self (with_tasks [] w1)).2)).
  { unfold run_pending, bind, get_world. rewrite Hw1 at 1.
    cbn [tasks with_tasks length run_tasks].
    unfold bind, run_next_task. rewrite Hw1 at 1. cbn [tasks with_tasks].
    rewrite Hw1. done. }
  split; [by rewrite Hrun|].
  assert (Hadv : _auto_advance self (with_tasks [] w1)
                 = (match fault
                            (wire w ++ [SetTransportURI d (url t) (title t)
                                          (metadata_of t)]) (Play d) with
                    | None => Return tt
                    | Some _ => Return tt
                    end,
                    with_wire
                      (wire w ++ [SetTransportURI d (url t) (title t)
                                    (metadata_of t); Play d])
                      (with_heap
                         (<[self := set_preloaded_index None
                                      (set_current_index
                                         (current_index s + 1) s)]> (heap w))
                         w))).
  { rewrite Hw1. unfold _auto_advance. munfold.
    assert (Hs' : heap (with_tasks [] (with_tasks [T_auto_advance self] w))
                  !! self = Some s) by exact Hs.
    pose proof (Hok (wire w)
                  (SetTransportURI d (url t) (title t) (metadata_of t))
                  eq_refl) as Hset.
    mrun; try (exfalso; lia); world_eq. }
  subst w2. rewrite Hrun, Hadv.
  cbn [snd heap tasks wire with_heap with_wire with_tasks].
  split; [done|]. split; [by eapply lookup_heap_insert|]. exact Htasks.
Qed.

(** C7: the auto-advance never starts.  An event that reports [STOPPED]
    reaches the handler as the sequence [DmrDevice] delivers; the handler
    raises [AttributeError] at its first read, whatever the session, and
    changes nothing: no auto-advance task is created, the event loop has
    nothing to run, no [SetTransportURI] or [Play] is sent and the current
    index stays where it was. *)
Theorem stopped_event_not_handled (self : nat) (w : World)
  (vars : list (string * string)) :
  tasks w = [] ->
  In ("TransportState", "STOPPED") vars ->
  let w1 := (on_event self vars w).2 in
  on_event self vars w
  = (Raise (AttributeError "'list' object has no attribute 'get'"), w)
  /\ run_pending w1 = (Return tt, w).
Proof.
  intros Htasks Hin w1.
  assert (Hev : on_event self vars w
                = (Raise (AttributeError
                            "'list' object has no attribute 'get'"), w))
    by (apply on_event_raises; by intros ->).
  split; [exact Hev|]. subst w1. rewrite Hev. cbn [snd].
  unfold run_pending, bind, get_world. by rewrite Htasks.
Qed.

End fallback_facts.

(** ** queue_manager.py: the registry *)

Lemma with_sessions_same (w : World) : with_sessions (_sessions w) w = w.
Proof. by destruct w. Qed.

Section registry_facts.
Context {env : Environment}.
Import queue_manager.

(** [_cleanup] in full: the entry of the session's renderer is removed, and
    the notify server is stopped when the registry has become empty. *)
Lemma _cleanup_run (self : nat) (w : World) (s : QueueSession) :
  heap w !! self = Some s ->
  let w1 := with_sessions (delete (udn (renderer s)) (_sessions w)) w in
  _cleanup self w
  = if bool_decide (delete (udn (renderer s)) (_sessions w) = ∅)
    then
      if _notify_server (infra w)
      then
        match fault (wire w) StopServer with
        | None =>
            (Return tt,
             with_infra infra_none (with_wire (wire w ++ [StopServer]) w1))
        | Some msg =>
            (Raise (UpnpError msg), with_wire (wire w ++ [StopServer]) w1)
        end
      else (Return tt, with_infra infra_none w1)
    else (Return tt, w1).
Proof.
  intros Hs w1. unfold _cleanup, _shutdown_infrastructure. munfold.
  rewrite Hs. cbn -[bool_decide lookup delete].
  destruct (bool_decide_reflect (is_Some (_sessions w !! udn (renderer s))))
    as [Hin|Hout]; cbn -[bool_decide lookup delete].
  - case_bool_decide; cbn -[bool_decide lookup delete]; [|done].
    destruct (_notify_server (infra w)); cbn -[bool_decide lookup delete];
      [|done].
    by destruct (fault (wire w) StopServer).
  - assert (Hid : delete (udn (renderer s)) (_sessions w) = _sessions w).
    { apply delete_id. by apply eq_None_not_Some. }
    subst w1. rewrite Hid, with_sessions_same.
    case_bool_decide; cbn -[bool_decide lookup delete]; [|done].
    destruct (_notify_server (infra w)); cbn -[bool_decide lookup delete];
      [|done].
    by destruct (fault (wire w) StopServer).
Qed.

(** [stop]: the two best-effort calls when there is a handle, whatever
    the device answers, then [_cleanup]. *)
Lemma stop_run (self : nat) (w : World) (s : QueueSession) :
  heap w !! self = Some s ->
  stop self w = _cleanup self (with_wire (wire w ++ stop_calls s) w).
Proof.
  intros Hs. unfold stop, stop_calls. munfold. rewrite Hs.
  destruct (_dmr s) as [d|]; cbn -[_cleanup].
  - destruct (fault (wire w) (Stop d)); cbn -[_cleanup];
      destruct (fault (wire w ++ [Stop d]) (Unsubscribe d));
      cbn -[_cleanup]; f_equal; by world_eq.
  - by rewrite app_nil_r, with_wire_same.
Qed.

(** What a [stop] that returned has done. *)
Lemma stop_returned (self : nat) (w w1 : World) (s : QueueSession) :
  heap w !! self = Some s ->
  stop self w = (Return tt, w1) ->
  heap w1 = heap w
  /\ tasks w1 = tasks w
  /\ _sessions w1 = delete (udn (renderer s)) (_sessions w)
  /\ (_sessions w1 = ∅ -> infra w1 = infra_none)
  /\ (_sessions w1 <> ∅ -> infra w1 = infra w)
  /\ exists shutdown,
       wire w1 = wire w ++ stop_calls s ++ shutdown
       /\ (shutdown = [] \/ shutdown = [StopServer]).
Proof.
  intros Hs Hstop. rewrite (stop_run self w s Hs) in Hstop.
  rewrite (_cleanup_run self _ s) in Hstop by exact Hs.
  cbn -[bool_decide delete] in Hstop.
  case_bool_decide as He.
  - destruct (_notify_server (infra w)).
    + destruct (fault _ StopServer); [done|].
      injection Hstop as <-. cbn. repeat split; try done.
      exists [StopServer]. split; [by rewrite <- app_assoc | by right].
    + injection Hstop as <-. cbn. repeat split; try done.
      exists []. split; [by rewrite app_nil_r | by left].
  - injection Hstop as <-. cbn. repeat split; try done.
    exists []. split; [by rewrite app_nil_r | by left].
Qed.

(** [status] reads the session object and nothing else. *)
Lemma status_reads_heap (self : nat) (w w' : World) :
  heap w = heap w' -> (status self w).1 = (status self w').1.
Proof.
  intros H. unfold status. munfold. rewrite H.
  destruct (heap w' !! self) as [s|]; [|done]. cbn.
  destruct (tracks s) as [|t ts]; [done|].
  by destruct (py_index (t :: ts) (current_index s)).
Qed.

(** C6 as amended: [stop] never clears the device handle, so a second
    [stop] on a session whose first [stop] returned sends the two
    best-effort calls again (none when the session never had a handle),
    swallows their failures and returns; apart from these calls on the
    wire it leaves the world exactly as the first [stop] left it, and
    [status] reports the same as before it. *)
Theorem stop_again (self : nat) (w w1 : World) (s : QueueSession) :
  heap w !! self = Some s ->
  stop self w = (Return tt, w1) ->
  stop self w1 = (Return tt, with_wire (wire w1 ++ stop_calls s) w1)
  /\ heap w1 !! self = Some s
  /\ _sessions w1 !! udn (renderer s) = None
  /\ (status self (stop self w1).2).1 = (status self w1).1.
Proof.
  intros Hs Hstop.
  destruct (stop_returned self w w1 s Hs Hstop)
    as (Hheap & _ & Hreg & Hempty & _ & _).
  assert (Hs1 : heap w1 !! self = Some s) by (by rewrite Hheap).
  assert (Hgone : _sessions w1 !! udn (renderer s) = None)
    by (rewrite Hreg; apply lookup_delete_eq).
  assert (Hrun : stop self w1
                 = (Return tt, with_wire (wire w1 ++ stop_calls s) w1)).
  { rewrite (stop_run self w1 s Hs1).
    rewrite (_cleanup_run self _ s) by exact Hs1.
    cbn -[bool_decide delete].
    rewrite (delete_id _ _ Hgone).
    case_bool_decide as He.
    - pose proof (Hempty He) as Hi. rewrite Hi. cbn. by world_eq.
    - by world_eq. }
  rewrite Hrun. repeat split; try done.
  by apply status_reads_heap.
Qed.

(** [start] leaves the registry alone and only adds to the wire. *)
Lemma start_frame (self : nat) (w : World) :
  _sessions (start self w).2 = _sessions w
  /\ exists l, wire (start self w).2 = wire w ++ l.
Proof.
  unfold start, _ensure_infrastructure, _preload_next, _preload_next_send,
    _preload_next_resume. munfold.
  mrun; (split; [done|]);
    first [ by exists []; rewrite app_nil_r
          | eexists; rewrite <- ?app_assoc; reflexivity ].
Qed.

(** C3: [play_tracks] for an identity that has a registered session first
    runs that session's [stop] to its end, which removes it from the
    registry; only then is the new session object created, registered under
    the identity and started.  Whatever [start] does, the registry then
    holds the new session, and no other, for this identity; the entries of
    other identities are those left by the [stop]-[start] sequence, and the
    calls of [start] come after all the calls of [stop] on the wire.  The
    notify server is taken to stop without raising. *)
Theorem play_tracks_replaces_session (r : DlnaRenderer) (ts : list Track)
  (w : World) (old : nat) (s_old : QueueSession) :
  (forall h, fault h StopServer = None) ->
  _sessions w !! udn r = Some old ->
  heap w !! old = Some s_old ->
  udn (renderer s_old) = udn r ->
  let new := length (heap w) in
  let obj := {| renderer := r; tracks := ts; current_index := 0;
                _dmr := None; _preloaded_index := None |} in
  exists w1,
    stop old w = (Return tt, w1)
    /\ _sessions w1 !! udn r = None
    /\ heap w1 = heap w
    /\ (let w2 := with_sessions (<[udn r := new]> (_sessions w1))
                    (with_heap (heap w1 ++ [obj]) w1) in
        (play_tracks r ts w).2 = (start new w2).2
        /\ (play_tracks r ts w).1
           = match (start new w2).1 with
             | Return _ => Return new
             | Raise e => Raise e
             end)
    /\ (let w' := (play_tracks r ts w).2 in
        _sessions w' !! udn r = Some new
        /\ new <> old
        /\ (forall u, u <> udn r -> _sessions w' !! u = _sessions w !! u)
        /\ exists l, wire w' = wire w1 ++ l).
Proof.
  intros Hserver Hreg Hold Hudn new obj.
  assert (Hstop : exists w1, stop old w = (Return tt, w1)).
  { rewrite (stop_run old w s_old Hold).
    rewrite (_cleanup_run old _ s_old) by exact Hold.
    cbn -[bool_decide delete]. rewrite Hserver.
    case_bool_decide; [destruct (_notify_server (infra w))|]; eauto. }
  destruct Hstop as [w1 Hstop]. exists w1.
  destruct (stop_returned old w w1 s_old Hold Hstop)
    as (Hheap & _ & Hsess & _ & _ & _).
  rewrite Hudn in Hsess.
  assert (Hgone : _sessions w1 !! udn r = None)
    by (rewrite Hsess; apply lookup_delete_eq).
  split; [exact Hstop|]. split; [exact Hgone|]. split; [exact Hheap|].
  set (w2 := with_sessions (<[udn r := new]> (_sessions w1))
               (with_heap (heap w1 ++ [obj]) w1)).
  assert (Hplay : play_tracks r ts w
                  = (match (start new w2).1 with
                     | Return _ => Return new
                     | Raise e => Raise e
                     end, (start new w2).2)).
  { unfold play_tracks, bind, get_world. rewrite Hreg, Hstop.
    unfold __init__, modify_world, ret. rewrite Hheap. fold new. fold obj.
    rewrite <- Hheap.
    change (with_sessions _ (with_heap (heap w1 ++ [obj]) w1)) with w2.
    by destruct (start new w2) as [[[]|e] w']. }
  rewrite Hplay. cbn [fst snd]. split; [done|].
  destruct (start_frame new w2) as [Hframe [l Hl]].
  rewrite Hframe. subst w2. cbn [_sessions with_sessions] in *.
  split; [apply lookup_insert_eq|].
  split; [apply lookup_lt_Some in Hold; subst new; lia|].
  split.
  - intros u Hu. rewrite lookup_insert_ne by done.
    rewrite Hsess. by apply lookup_delete_ne.
  - exists l. exact Hl.
Qed.

End registry_facts.

(** ** server.py: the [play_tracks] tool *)
Section tool_facts.
Context {env : Environment}.

(** What a renderer lookup can do to the world, whether it returns or
    raises: discovery traffic on the wire and a new cache, nothing else;
    nothing at all with a fresh cache. *)
Lemma find_renderer_frame (name_ : string) (w : World) :
  exists outcome w' l,
    discovery.find_renderer name_ w = (outcome, w')
    /\ wire w' = wire w ++ l
    /\ Forall (fun c => is_discovery c = true) l
    /\ heap w' = heap w
    /\ _sessions w' = _sessions w
    /\ tasks w' = tasks w
    /\ infra w' = infra w
    /\ (discovery.cache_is_fresh false w = true -> w' = w).
Proof.
  destruct (discovery.cache_is_fresh false w) eqn:E.
  - pose proof (discover_hit false w E) as Hd.
    rewrite (find_renderer_unfold name_ w w _ Hd).
    eexists _, w, []. rewrite app_nil_r. by repeat split.
  - destruct (ssdp_search (wire w)) as [locations|e] eqn:Hs.
    + destruct (discover_miss false w locations E Hs) as [results Hd].
      cbv zeta in Hd.
      rewrite (find_renderer_unfold name_ w _ _ Hd).
      eexists _, _, _. split; [reflexivity|]. cbn.
      split; [reflexivity|]. split; [|done].
      constructor; [done|]. apply Forall_fmap. by apply Forall_forall.
    + rewrite (find_renderer_raises name_ w _ e (discover_fails false w e E Hs)).
      eexists _, _, [MSearch]. split; [reflexivity|]. cbn.
      split; [reflexivity|]. split; [|done]. by constructor.
Qed.

(** The loop on a first item that carries a url: the [Track] call is
    given the keyword [media_type], which is not a field. *)
Lemma build_track_objects_raises (i : nat) (d : list (string * JSON))
  (rest : list JSON) (acc : list Track) (w : World) :
  truthy (dict_get_default d "url" JNull) = true ->
  server.build_track_objects i (JObject d :: rest) acc w
  = (Raise (TypeError
              "Track.__init__() got an unexpected keyword argument 'media_type'"),
     w).
Proof. intros H. cbn. by rewrite H. Qed.

(** C5, on the code: whenever the renderer resolves and the text decodes
    to a non-empty array whose first item carries a url, the tool does not
    return a result: building the first [Track] raises [TypeError], outside
    any [try]. *)
Theorem play_tracks_well_formed_raises (renderer_name tracks_ : string)
  (w w' : World) (r : DlnaRenderer) (d : list (string * JSON))
  (rest : list JSON) :
  discovery.find_renderer renderer_name w = (Return (Some r), w') ->
  json_loads tracks_ = Return (inr (JArray (JObject d :: rest))) ->
  truthy (dict_get_default d "url" JNull) = true ->
  server.play_tracks renderer_name tracks_ w
  = (Raise (TypeError
              "Track.__init__() got an unexpected keyword argument 'media_type'"),
     w').
Proof.
  intros Hfind Hjson Hurl. unfold server.play_tracks, bind, lift.
  rewrite Hfind, Hjson. by rewrite build_track_objects_raises.
Qed.

(** C4 as amended: when the renderer lookup returns, input that does not
    decode, that is not a non-empty array, or whose first item has no url
    is answered after the lookup and by nothing but the lookup: the result
    is the not-found error when the lookup finds nothing and the rejection
    otherwise (naming track 0 for an offending first item); the lookup adds
    only discovery traffic to the wire, and nothing with a fresh cache; no
    session is created or registered, no task is created, no call goes to a
    renderer.  [decoded] is what [json.loads] gives: a value, or the text of
    the decode error that the tool catches. *)
Theorem malformed_input_rejected (renderer_name tracks_ : string)
  (w w' : World) (found : option DlnaRenderer) (decoded : string + JSON) :
  discovery.find_renderer renderer_name w = (Return found, w') ->
  json_loads tracks_ = Return decoded ->
  server.malformed decoded = true ->
  server.play_tracks renderer_name tracks_ w
  = (Return
       (match found with
        | None =>
            server.Error ("Renderer '" +:+ renderer_name +:+ "' not found")
        | Some _ => server.rejection decoded
        end), w')
  /\ exists l,
       wire w' = wire w ++ l
       /\ Forall (fun c => is_discovery c = true) l
       /\ heap w' = heap w
       /\ _sessions w' = _sessions w
       /\ tasks w' = tasks w
       /\ (discovery.cache_is_fresh false w = true -> w' = w).
Proof.
  intros Hfind Hjson Hbad.
  destruct (find_renderer_frame renderer_name w)
    as (o & w0 & l & Hfind0 & Hwire & Hl & Hheap & Hreg & Htasks & _ & Hhit).
  rewrite Hfind in Hfind0. injection Hfind0 as <- <-.
  split; [|exists l; by repeat split].
  unfold server.play_tracks, bind, lift. rewrite Hfind.
  destruct found as [r|]; [|done]. rewrite Hjson.
  destruct decoded as [e|v]; [done|].
  destruct v as [| | | |items|]; try done.
  destruct items as [|t rest]; [done|].
  cbn in Hbad. cbn.
  destruct t as [| | | | |d]; try done.
  cbn in Hbad. apply negb_true_iff in Hbad. by rewrite Hbad.
Qed.

(** Text on which [json.loads] raises anything but a decode error (the
    [RecursionError] of deeply nested text) is not answered: the exception
    leaves the tool. *)
Lemma play_tracks_undecodable (renderer_name tracks_ : string)
  (w w' : World) (r : DlnaRenderer) (e : Exn) :
  discovery.find_renderer renderer_name w = (Return (Some r), w') ->
  json_loads tracks_ = Raise e ->
  server.play_tracks renderer_name tracks_ w = (Raise e, w').
Proof.
  intros Hfind Hjson. unfold server.play_tracks, bind, lift.
  by rewrite Hfind, Hjson.
Qed.

End tool_facts.

(** ** The properties on concrete runs *)
Section runs.
Import sample.

(** Sanity checks of the sample worlds. *)
Example playing_heap : heap playing = [playing_session].
Proof. vm_compute. reflexivity. Qed.

Example playing_linn_heap : heap playing_linn = [playing_linn_session].
Proof. vm_compute. reflexivity. Qed.

(** Called with a mapping, the handler detects the transition to the
    preloaded track. *)
Example mapping_event_advances :
  heap (queue_manager._on_event 0 (Mapping track1_playing) playing).2
  = [set_preloaded_index None (set_current_index 1 playing_session)].
Proof. vm_compute. reflexivity. Qed.

(** The example of the specification: the exact name wins over an earlier
    name that contains it, and case does not matter. *)
Example resolve_samsung_tv :
  (discovery.find_renderer
     (env := network [samsung_tv_living_room; samsung_tv]) "SAMSUNG tv"
     boot).1
  = Return (Some samsung_tv).
Proof. vm_compute. reflexivity. Qed.

Lemma find_renderer_resolves_witness :
  let e := network [samsung_tv_living_room; samsung_tv] in
  let w' := (discovery.discover_renderers (env := e) false boot).2 in
  discovery.discover_renderers (env := e) false boot
  = (Return [samsung_tv_living_room; samsung_tv], w')
  /\ discovery.find_renderer (env := e) "SAMSUNG tv" boot
     = (Return (Some samsung_tv), w').
Proof.
  intros e w'.
  assert (Hd : discovery.discover_renderers (env := e) false boot
               = (Return [samsung_tv_living_room; samsung_tv], w'))
    by (vm_compute; reflexivity).
  destruct (find_renderer_resolves (env := e) "SAMSUNG tv" boot w' _ Hd)
    as (answer & Hfind & Hexact & _).
  rewrite (Hexact [samsung_tv_living_room] samsung_tv [] eq_refl
             ltac:(vm_compute; reflexivity)
             ltac:(intros x [<-|[]]; vm_compute; discriminate)) in Hfind.
  exact (conj Hd Hfind).
Defined.

Lemma gapless_transition_not_detected_witness :
  let e := network [hifiberry] in
  let w1 := (queue_manager.start (env := e) 0 created).2 in
  heap created !! 0%nat = Some created_session
  /\ heap w1 !! 0%nat
     = Some (set_preloaded_index (Some 1)
               (set_dmr (Some hifiberry_dmr) created_session))
  /\ queue_manager.on_event 0 track1_delivered w1
     = (Raise (AttributeError "'list' object has no attribute 'get'"), w1)
  /\ queue_manager.run_pending (env := e) w1 = (Return tt, w1).
Proof.
  intros e w1.
  assert (Hs : heap created !! 0%nat = Some created_session)
    by (vm_compute; reflexivity).
  destruct (gapless_transition_not_detected (env := e) 0 created
              created_session (mk_track "0") (mk_track "1") (mk_track "2") []
              track1_delivered
              (fun _ _ => eq_refl) (or_introl eq_refl) eq_refl Hs eq_refl
              eq_refl eq_refl ltac:(right; left; reflexivity))
    as (_ & H1 & H2 & H3).
  exact (conj Hs (conj H1 (conj H2 H3))).
Defined.

(** C2 as stated fails when a pass finds no renderer: the empty list is
    cached, the cache test treats an empty cache as no cache, and the second
    call, made at once, searches again. *)
Lemma discover_twice_without_renderers :
  let w1 := (discovery.discover_renderers (env := silent) false boot).2 in
  let w2 := (discovery.discover_renderers (env := silent) false w1).2 in
  (clock w1 - _cache_time w1 < discovery.CACHE_TTL)%Q
  /\ searches (wire w2) = 2%nat
  /\ wire w2 <> wire w1.
Proof.
  vm_compute. split; [reflexivity|]. split; [reflexivity|]. discriminate.
Qed.

Lemma discover_twice_within_ttl_witness :
  let e := network [hifiberry] in
  let w1 := (discovery.discover_renderers (env := e) false boot).2 in
  let t2 := 1100 # 1 in
  [hifiberry] <> []
  /\ (t2 - _cache_time w1 < discovery.CACHE_TTL)%Q
  /\ discovery.discover_renderers (env := e) false (with_clock t2 w1)
     = (Return [hifiberry], with_clock t2 w1)
  /\ (searches
        (wire (discovery.discover_renderers (env := e) false
                 (with_clock t2 w1)).2) <= searches (wire boot) + 1)%nat.
Proof.
  intros e w1 t2.
  assert (H1 : discovery.discover_renderers (env := e) false boot
               = (Return [hifiberry], w1)) by (vm_compute; reflexivity).
  assert (H2 : [hifiberry] <> []) by discriminate.
  assert (H3 : (t2 - _cache_time w1 < discovery.CACHE_TTL)%Q)
    by (vm_compute; reflexivity).
  exact (conj H2 (conj H3
           (discover_twice_within_ttl (env := e) boot w1 [hifiberry] t2
              H1 H2 H3))).
Defined.

Lemma play_tracks_replaces_session_witness :
  let e := network [hifiberry] in
  _sessions playing !! udn hifiberry = Some 0%nat
  /\ heap playing !! 0%nat = Some playing_session
  /\ _sessions
       (queue_manager.play_tracks (env := e) hifiberry two_tracks playing).2
     !! udn hifiberry = Some 1%nat.
Proof.
  intros e.
  assert (Hreg : _sessions playing !! udn hifiberry = Some 0%nat)
    by (vm_compute; reflexivity).
  assert (Hs : heap playing !! 0%nat = Some playing_session)
    by (vm_compute; reflexivity).
  destruct (play_tracks_replaces_session (env := e) hifiberry two_tracks
              playing 0 playing_session (fun _ => eq_refl) Hreg Hs eq_refl)
    as (w1 & _ & _ & _ & _ & H & _).
  rewrite playing_heap in H.
  exact (conj Hreg (conj Hs H)).
Defined.

(** C4 as stated fails with a cold cache: the renderer lookup comes first
    and searches the network before the text is looked at. *)
Lemma malformed_input_searches_first :
  let res := server.play_tracks (env := network [hifiberry])
               "hifiberry" "not json" boot in
  res.1 = Return (server.Error
                    "Invalid tracks JSON: Expecting value: line 1 column 1 (char 0)")
  /\ wire boot = []
  /\ wire res.2 = [MSearch; FetchDescription (location hifiberry)].
Proof. vm_compute. repeat split. Qed.

(** An item without url behind an item with url is never reached: the
    first [Track] call raises. *)
Example second_item_not_reached :
  (server.play_tracks (env := network [hifiberry]) "hifiberry" mixed_json
     boot).1
  = Raise (TypeError
             "Track.__init__() got an unexpected keyword argument 'media_type'").
Proof. vm_compute. reflexivity. Qed.

Lemma malformed_input_rejected_witness :
  let e := network [hifiberry] in
  let w' := (discovery.find_renderer (env := e) "hifiberry" boot).2 in
  discovery.find_renderer (env := e) "hifiberry" boot
  = (Return (Some hifiberry), w')
  /\ json_loads (Environment := e) "[]" = Return (inr (JArray []))
  /\ server.play_tracks (env := e) "hifiberry" "[]" boot
     = (Return (server.Error "tracks must be a non-empty JSON array"), w')
  /\ heap w' = []
  /\ _sessions w' = ∅.
Proof.
  intros e w'.
  assert (Hfind : discovery.find_renderer (env := e) "hifiberry" boot
                  = (Return (Some hifiberry), w'))
    by (vm_compute; reflexivity).
  destruct (malformed_input_rejected (env := e) "hifiberry" "[]" boot w'
              (Some hifiberry) (inr (JArray [])) Hfind eq_refl eq_refl)
    as (Hplay & l & _ & _ & Hheap & Hreg & _).
  exact (conj Hfind (conj eq_refl (conj Hplay (conj Hheap Hreg)))).
Defined.

Lemma play_tracks_well_formed_raises_witness :
  let e := network [hifiberry] in
  let w' := (discovery.find_renderer (env := e) "hifiberry" boot).2 in
  discovery.find_renderer (env := e) "hifiberry" boot
  = (Return (Some hifiberry), w')
  /\ server.play_tracks (env := e) "hifiberry" one_track_json boot
     = (Raise (TypeError
                 "Track.__init__() got an unexpected keyword argument 'media_type'"),
        w').
Proof.
  intros e w'.
  assert (Hfind : discovery.find_renderer (env := e) "hifiberry" boot
                  = (Return (Some hifiberry), w'))
    by (vm_compute; reflexivity).
  exact (conj Hfind
           (play_tracks_well_formed_raises (env := e) "hifiberry"
              one_track_json boot w' hifiberry
              [("url", JString "http://nas/a.flac")] []
              Hfind ltac:(vm_compute; reflexivity) eq_refl)).
Defined.

(** C6 as stated fails: after [stop] the session still holds its handle,
    [status] still says playing, and a second [stop] sends [Stop] and
    [Unsubscribe] to the device again. *)
Lemma second_stop_calls_the_device :
  let e := network [hifiberry] in
  let w1 := (queue_manager.stop (env := e) 0 playing).2 in
  let w2 := (queue_manager.stop (env := e) 0 w1).2 in
  _dmr <$> heap w1 !! 0%nat = Some (Some hifiberry_dmr)
  /\ status_state <$> match (queue_manager.status 0 w1).1 with
                      | Return st => Some st
                      | Raise _ => None
                      end = Some "playing"
  /\ wire w2 = wire w1 ++ [Stop hifiberry_dmr; Unsubscribe hifiberry_dmr].
Proof. vm_compute. repeat split. Qed.

Lemma stop_again_witness :
  let e := network [hifiberry] in
  let w1 := (queue_manager.stop (env := e) 0 playing).2 in
  heap playing !! 0%nat = Some playing_session
  /\ queue_manager.stop (env := e) 0 playing = (Return tt, w1)
  /\ queue_manager.stop (env := e) 0 w1
     = (Return tt,
        with_wire (wire w1 ++ [Stop hifiberry_dmr; Unsubscribe hifiberry_dmr])
          w1).
Proof.
  intros e w1.
  assert (Hs : heap playing !! 0%nat = Some playing_session)
    by (vm_compute; reflexivity).
  assert (Hstop : queue_manager.stop (env := e) 0 playing = (Return tt, w1))
    by (vm_compute; reflexivity).
  exact (conj Hs (conj Hstop
           (proj1 (stop_again (env := e) 0 playing w1 playing_session
                     Hs Hstop)))).
Defined.

Lemma stopped_event_not_handled_witness :
  let w1 := (queue_manager.on_event 0 stopped_delivered playing_linn).2 in
  tasks playing_linn = []
  /\ queue_manager.on_event 0 stopped_delivered playing_linn
     = (Raise (AttributeError "'list' object has no attribute 'get'"),
        playing_linn)
  /\ queue_manager.run_pending (env := network [linn]) w1
     = (Return tt, playing_linn).
Proof.
  intros w1.
  assert (Htasks : tasks playing_linn = []) by (vm_compute; reflexivity).
  exact (conj Htasks
           (stopped_event_not_handled (env := network [linn]) 0 playing_linn
              stopped_delivered Htasks ltac:(left; reflexivity))).
Defined.

Lemma stale_preload_after_skip_witness :
  let e := network [hifiberry] in
  let w1 := (queue_manager._preload_next_send (env := e) 0 playing).2 in
  let w2 := (queue_manager.next (env := e) 0 w1).2 in
  let w3 := (queue_manager._preload_next_resume 0
               (Awaiting 1 (Return tt)) w2).2 in
  heap playing !! 0%nat = Some playing_session
  /\ (queue_manager._preload_next_send (env := e) 0 playing).1
     = Return (Awaiting 1 (Return tt))
  /\ exists s',
       heap w3 !! 0%nat = Some s'
       /\ current_index s' = 1
       /\ _preloaded_index s' = Some 1
       /\ ~ preload_ok s'.
Proof.
  intros e w1 w2 w3.
  assert (Hs : heap playing !! 0%nat = Some playing_session)
    by (vm_compute; reflexivity).
  destruct (stale_preload_after_skip (env := e) 0 playing playing_session
              hifiberry_dmr track1_delivered (fun _ _ => eq_refl) Hs eq_refl
              eq_refl ltac:(discriminate) eq_refl ltac:(discriminate))
    as [(w1' & Hsend & Hres) _].
  subst w3 w2 w1. rewrite Hsend. cbn [fst snd].
  exact (conj Hs (conj eq_refl Hres)).
Defined.

Lemma skip_at_either_end_witness :
  let e := network [linn] in
  heap single_idle !! 0%nat = Some single_idle_session
  /\ queue_manager.next (env := e) 0 single_idle = (Return None, single_idle)
  /\ queue_manager.previous (env := e) 0 single_idle
     = (Return None, single_idle).
Proof.
  intros e.
  assert (Hs : heap single_idle !! 0%nat = Some single_idle_session)
    by (vm_compute; reflexivity).
  destruct (skip_at_either_end (env := e) 0 single_idle single_idle_session
              Hs) as [Hnext Hprev].
  exact (conj Hs (conj (Hnext eq_refl) (Hprev eq_refl))).
Defined.

End runs.

(** * Further properties of the code *)

(** ** Sessions are independent and their queue is fixed *)
Section isolation_facts.
Context {env : Environment}.
Import queue_manager.

Ltac iso_leaf :=
  lazymatch goal with
  | Hi : heap ?w !! ?i = Some ?s
    |- exists s', <[?self := ?x]> (heap ?w) !! ?i = Some s' /\ _ =>
      destruct (decide (self = i)) as [->|Hne];
      [ exists x; split; [eapply lookup_heap_insert; eassumption|];
        match goal with
        | Hq : heap w !! i = Some ?q |- _ =>
            assert (s = q) by congruence; subst s
        end;
        unfold same_queue; cbn; by repeat split
      | exists s; split; [by rewrite list_lookup_insert_ne|];
        unfold same_queue; by repeat split ]
  | Hi : heap ?w !! ?i = Some ?s
    |- exists s', heap ?w !! ?i = Some s' /\ _ =>
      exists s; unfold same_queue; by repeat split
  end.

Lemma run_op_frame (self : nat) (op : Op) (w : World) (i : nat)
  (s : QueueSession) :
  heap w !! i = Some s ->
  exists s',
    heap (run_op self op w).2 !! i = Some s'
    /\ same_queue s s'
    /\ (i <> self -> s' = s).
Proof.
  intros Hi. revert Hi. destruct op; cbn [run_op].
  - unfold start, _ensure_infrastructure, _preload_next, _preload_next_send,
    _preload_next_resume. munfold.
    mrun; intros Hi; iso_leaf.
  - destruct state_variables as [sv|[|v vars]].
    + unfold _on_event. munfold.
      generalize (sv !! "TransportState") (sv !! "CurrentTrackURI").
      intros state [uri|]; mrun; intros Hi; iso_leaf.
    + unfold _on_event. munfold. mrun; intros Hi; iso_leaf.
    + unfold _on_event. munfold. mrun; intros Hi; iso_leaf.
  - unfold next, _preload_next, _preload_next_send,
    _preload_next_resume. munfold. mrun; intros Hi; iso_leaf.
  - unfold previous, _preload_next, _preload_next_send,
    _preload_next_resume. munfold. mrun; intros Hi; iso_leaf.
  - unfold _auto_advance. munfold. mrun; intros Hi; iso_leaf.
  - unfold _preload_next, _preload_next_send,
    _preload_next_resume. munfold. mrun; intros Hi; iso_leaf.
Qed.

End isolation_facts.

(** ** The current index stays inside the queue *)
Section bounds_facts.
Context {env : Environment}.
Import queue_manager.

Lemma indexes_ok_lookup (w : World) (self : nat) (s : QueueSession) :
  indexes_ok w -> heap w !! self = Some s -> index_ok s.
Proof. intros Hw Hs. eapply Forall_lookup_1; eassumption. Qed.

Ltac idx_leaf :=
  first
    [ done
    | match goal with
      | Hw : indexes_ok ?w |- indexes_ok _ => exact Hw
      end
    | match goal with
      | Hw : indexes_ok ?w, H : heap ?w !! _ = Some _ |- indexes_ok _ =>
          pose proof (indexes_ok_lookup _ _ _ Hw H);
          unfold indexes_ok in *; cbn;
          apply Forall_insert; [exact Hw|];
          unfold index_ok in *; cbn in *;
          repeat match goal with
                 | H : _preloaded_index ?s = _ |- _ => rewrite H in *
                 end;
          first [done | lia]
      end ].

Lemma run_op_indexes (self : nat) (op : Op) (w : World) :
  indexes_ok w -> indexes_ok (run_op self op w).2.
Proof.
  intros Hw. destruct op; cbn [run_op].
  - unfold start, _ensure_infrastructure, _preload_next, _preload_next_send,
    _preload_next_resume. munfold.
    mrun; idx_leaf.
  - destruct state_variables as [sv|[|v vars]].
    + unfold _on_event. munfold.
      generalize (sv !! "TransportState") (sv !! "CurrentTrackURI").
      intros state [uri|]; mrun; idx_leaf.
    + unfold _on_event. munfold. mrun; idx_leaf.
    + unfold _on_event. munfold. mrun; idx_leaf.
  - unfold next, _preload_next, _preload_next_send,
    _preload_next_resume. munfold. mrun; idx_leaf.
  - unfold previous, _preload_next, _preload_next_send,
    _preload_next_resume. munfold. mrun; idx_leaf.
  - unfold _auto_advance. munfold. mrun; idx_leaf.
  - unfold _preload_next, _preload_next_send,
    _preload_next_resume. munfold. mrun; idx_leaf.
Qed.

End bounds_facts.

(** ** The registry and the shared infrastructure stay consistent *)
Section lifecycle_facts.
Context {env : Environment}.
Import queue_manager.

(** [stop] on a reference without object is the embedding's own failure. *)
Lemma stop_dangling (self : nat) (w : World) :
  heap w !! self = None -> stop self w = (Raise NoSuchObject, w).
Proof. intros H. unfold stop. munfold. by rewrite H. Qed.

(** What [stop] can change, whatever its outcome: it removes at most the
    entry of its renderer, and touches neither objects nor tasks. *)
Lemma stop_frame (self : nat) (w : World) :
  heap (stop self w).2 = heap w
  /\ tasks (stop self w).2 = tasks w
  /\ (infra_ok w -> infra_ok (stop self w).2)
  /\ (forall u sid, _sessions (stop self w).2 !! u = Some sid ->
                    _sessions w !! u = Some sid)
  /\ (forall s, heap w !! self = Some s ->
                _sessions (stop self w).2
                = delete (udn (renderer s)) (_sessions w)).
Proof.
  destruct (heap w !! self) as [s|] eqn:Hs.
  2: { rewrite (stop_dangling self w Hs). by repeat split. }
  rewrite (stop_run self w s Hs).
  rewrite (_cleanup_run self _ s) by exact Hs.
  cbn -[bool_decide delete].
  assert (Hsub : forall u sid,
             delete (udn (renderer s)) (_sessions w) !! u = Some sid ->
             _sessions w !! u = Some sid).
  { intros u sid H. apply lookup_delete_Some in H. tauto. }
  case_bool_decide as He;
    [destruct (_notify_server (infra w));
       [destruct (fault _ StopServer)|]|];
    cbn -[delete]; (repeat split; try done);
    try (intros; by left); try (intros ? [= <-]; done).
Qed.

(** [start] leaves registry and tasks alone and keeps the infrastructure
    consistent; with consistent infrastructure its assertions hold. *)
Lemma start_effects (self : nat) (w : World) :
  tasks (start self w).2 = tasks w
  /\ length (heap (start self w).2) = length (heap w)
  /\ (infra_ok w -> infra_ok (start self w).2)
  /\ (infra_ok w -> (start self w).1 <> Raise AssertionError).
Proof.
  unfold infra_ok, start, _ensure_infrastructure, _preload_next, _preload_next_send,
    _preload_next_resume. munfold.
  mrun; (repeat split; try done);
    rewrite ?length_insert; try done;
    try (intros; by right);
    try (intros [Hi|Hi]; rewrite Hi in *; done).
Qed.

(** [play_tracks] step by step: the [stop] of a registered session, the new
    object, its registration, its [start]. *)
Lemma play_tracks_run (r : DlnaRenderer) (ts : list Track) (w : World) :
  play_tracks r ts w
  = match (match _sessions w !! udn r with
           | Some existing => stop existing w
           | None => (Return tt, w)
           end) with
    | (Return _, w1) =>
        let new := length (heap w1) in
        let obj := {| renderer := r; tracks := ts; current_index := 0;
                      _dmr := None; _preloaded_index := None |} in
        let w2 := with_sessions (<[udn r := new]> (_sessions w1))
                    (with_heap (heap w1 ++ [obj]) w1) in
        match start new w2 with
        | (Return _, w') => (Return new, w')
        | (Raise e, w') => (Raise e, w')
        end
    | (Raise e, w1) => (Raise e, w1)
    end.
Proof.
  unfold play_tracks, bind, get_world.
  destruct (_sessions w !! udn r) as [existing|].
  - destruct (stop existing w) as [[[]|e] w1]; [|done].
    unfold __init__, modify_world, ret. cbn.
    by destruct (start _ _) as [[[]|e] w'].
  - unfold ret, __init__, modify_world. cbn.
    by destruct (start _ _) as [[[]|e] w'].
Qed.

(** What [_cleanup] can change, whatever its outcome. *)
Lemma _cleanup_frame (self : nat) (w : World) :
  heap (_cleanup self w).2 = heap w
  /\ tasks (_cleanup self w).2 = tasks w
  /\ (infra_ok w -> infra_ok (_cleanup self w).2)
  /\ (forall u sid, _sessions (_cleanup self w).2 !! u = Some sid ->
                    _sessions w !! u = Some sid).
Proof.
  destruct (heap w !! self) as [s|] eqn:Hs.
  2: { unfold _cleanup. munfold. rewrite Hs. by repeat split. }
  rewrite (_cleanup_run self _ s) by exact Hs.
  cbn -[bool_decide delete].
  assert (Hsub : forall u sid,
             delete (udn (renderer s)) (_sessions w) !! u = Some sid ->
             _sessions w !! u = Some sid).
  { intros u sid H. apply lookup_delete_Some in H. tauto. }
  case_bool_decide as He;
    [destruct (_notify_server (infra w));
       [destruct (fault _ StopServer)|]|];
    cbn -[delete]; (repeat split; try done);
    try (intros; by left).
Qed.

(** A property of worlds that every operation and [_cleanup] keep, and that
    does not depend on the pending tasks, is kept by the event loop. *)
Lemma run_pending_keeps (P : World -> Prop) :
  (forall l w, P w -> P (with_tasks l w)) ->
  (forall self op w, P w -> P (run_op self op w).2) ->
  (forall self w, P w -> P (_cleanup self w).2) ->
  forall w, P w -> P (run_pending w).2.
Proof.
  intros Htasks Hop Hclean w Hw. unfold run_pending, bind, get_world.
  generalize (length (tasks w)). intros n. revert w Hw.
  induction n as [|n IH]; intros w Hw; [done|].
  cbn [run_tasks]. unfold bind at 1, run_next_task.
  destruct (tasks w) as [|t rest] eqn:Ht.
  - by apply IH.
  - apply IH.
    destruct t as [self|self|self]; cbn [run_task snd].
    + apply (Hop self OpPreloadNext). by apply Htasks.
    + apply (Hop self OpAutoAdvance). by apply Htasks.
    + apply Hclean. by apply Htasks.
Qed.

Lemma run_op_infra (self : nat) (op : Op) (w : World) :
  infra_ok w -> infra_ok (run_op self op w).2.
Proof.
  intros Hw. destruct op; cbn [run_op].
  - by apply start_effects.
  - destruct state_variables as [sv|[|v vars]].
    + unfold infra_ok, _on_event in *. munfold.
      generalize (sv !! "TransportState") (sv !! "CurrentTrackURI").
      intros state [uri|]; mrun; done.
    + unfold infra_ok, _on_event in *. munfold. mrun; done.
    + unfold infra_ok, _on_event in *. munfold. mrun; done.
  - unfold infra_ok, next, _preload_next, _preload_next_send,
    _preload_next_resume in *. munfold. mrun; done.
  - unfold infra_ok, previous, _preload_next, _preload_next_send,
    _preload_next_resume in *. munfold. mrun; done.
  - unfold infra_ok, _auto_advance in *. munfold. mrun; done.
  - unfold infra_ok, _preload_next, _preload_next_send,
    _preload_next_resume in *. munfold. mrun; done.
Qed.

Lemma same_queue_trans (s1 s2 s3 : QueueSession) :
  same_queue s1 s2 -> same_queue s2 s3 -> same_queue s1 s3.
Proof. intros [H1 H2] [H3 H4]. split; congruence. Qed.

(** X1: a session object keeps the renderer and the track list it was
    created with.  Through every session operation, [stop], the tasks of the
    event loop and [play_tracks], whatever the device answers, each session
    object stays in place with the same renderer and tracks; an operation of
    one session and [stop] leave every other session object exactly as it
    was. *)
Theorem sessions_keep_their_queue (self : nat) (op : Op) (r : DlnaRenderer)
  (ts : list Track) (w : World) (i : nat) (s : QueueSession) :
  heap w !! i = Some s ->
  let kept (w' : World) :=
    exists s', heap w' !! i = Some s' /\ same_queue s s' in
  kept (run_op self op w).2
  /\ (i <> self -> heap (run_op self op w).2 !! i = Some s)
  /\ heap (stop self w).2 !! i = Some s
  /\ kept (run_pending w).2
  /\ kept (play_tracks r ts w).2.
Proof.
  intros Hs kept.
  assert (Hop : forall e o w0, kept w0 -> kept (run_op e o w0).2).
  { intros e o w0 (s0 & Hs0 & Hq0).
    destruct (run_op_frame e o w0 i s0 Hs0) as (s' & Hs' & Hq & _).
    exists s'. split; [done|]. by eapply same_queue_trans. }
  assert (Hstop : forall e w0, heap (stop e w0).2 = heap w0)
    by (intros e w0; apply stop_frame).
  assert (Hw : kept w) by (exists s; by split).
  split; [by apply Hop|]. split.
  { intros Hne. destruct (run_op_frame self op w i s Hs) as (s' & Hs' & _ & H).
    by rewrite Hs', (H Hne). }
  split; [by rewrite Hstop|]. split.
  - apply (run_pending_keeps kept); try done.
    intros e w0 Hw0. unfold kept. by rewrite (proj1 (_cleanup_frame e w0)).
  - rewrite play_tracks_run.
    assert (H1 : heap
                   (match _sessions w !! udn r with
                    | Some existing => stop existing w
                    | None => (Return (), w)
                    end).2 = heap w).
    { destruct (_sessions w !! udn r); [apply Hstop|done]. }
    destruct (match _sessions w !! udn r with
              | Some existing => stop existing w
              | None => (Return (), w)
              end) as [[[]|e] w1]; cbn [snd] in H1.
    2:{ exists s. cbn [snd]. by rewrite H1. }
    cbv zeta.
    match goal with
    | |- context [start ?n ?w2] =>
        assert (H2 : kept w2);
        [|pose proof (Hop n OpStart w2 H2) as H3;
          cbn [run_op] in H3; by destruct (start n w2) as [[[]|?] ?]]
    end.
    exists s. split; [|done]. cbn [heap with_sessions with_heap].
    rewrite H1, lookup_app_l; [done|]. by eapply lookup_lt_Some.
Qed.

(** X3: the four infrastructure globals stay all set or all cleared through
    every session operation, [stop], [play_tracks] and the tasks of the
    event loop, whatever the device and the notify server answer; and while
    they are, the two assertions of [start] never fail. *)
Theorem infrastructure_stays_consistent (self : nat) (op : Op)
  (r : DlnaRenderer) (ts : list Track) (w : World) :
  infra_ok w ->
  infra_ok (run_op self op w).2
  /\ infra_ok (stop self w).2
  /\ infra_ok (play_tracks r ts w).2
  /\ infra_ok (run_pending w).2
  /\ (start self w).1 <> Raise AssertionError.
Proof.
  intros Hw. split; [by apply run_op_infra|].
  split; [by apply stop_frame|]. split; [|split].
  - rewrite play_tracks_run.
    assert (H1 : infra_ok
                   (match _sessions w !! udn r with
                    | Some existing => stop existing w
                    | None => (Return (), w)
                    end).2).
    { destruct (_sessions w !! udn r); [by apply stop_frame|done]. }
    destruct (match _sessions w !! udn r with
              | Some existing => stop existing w
              | None => (Return (), w)
              end) as [[[]|e] w1]; [|done].
    cbv zeta.
    match goal with
    | |- context [start ?n ?w2] =>
        pose proof (proj1 (proj2 (proj2 (start_effects n w2))) H1) as H2;
        by destruct (start n w2) as [[[]|?] ?]
    end.
  - apply (run_pending_keeps infra_ok); try done.
    + intros. by apply run_op_infra.
    + intros. by apply _cleanup_frame.
  - by apply start_effects.
Qed.

Lemma run_op_registry (self : nat) (op : Op) (w : World) :
  _sessions (run_op self op w).2 = _sessions w.
Proof.
  destruct op; cbn [run_op].
  - by apply start_frame.
  - destruct state_variables as [sv|[|v vars]].
    + unfold _on_event. munfold.
      generalize (sv !! "TransportState") (sv !! "CurrentTrackURI").
      intros state [uri|]; mrun; done.
    + unfold _on_event. munfold. mrun; done.
    + unfold _on_event. munfold. mrun; done.
  - unfold next, _preload_next, _preload_next_send,
    _preload_next_resume. munfold. mrun; done.
  - unfold previous, _preload_next, _preload_next_send,
    _preload_next_resume. munfold. mrun; done.
  - unfold _auto_advance. munfold. mrun; done.
  - unfold _preload_next, _preload_next_send,
    _preload_next_resume. munfold. mrun; done.
Qed.

Lemma run_op_registry_ok (self : nat) (op : Op) (w : World) :
  registry_ok w -> registry_ok (run_op self op w).2.
Proof.
  intros Hw u sid Hu. rewrite run_op_registry in Hu.
  destruct (Hw u sid Hu) as (s & Hs & Hudn).
  destruct (run_op_frame self op w sid s Hs) as (s' & Hs' & [Hr _] & _).
  exists s'. split; [exact Hs'|]. by rewrite Hr.
Qed.

Lemma registry_ok_shrink (w w' : World) :
  registry_ok w -> heap w' = heap w ->
  (forall u sid, _sessions w' !! u = Some sid -> _sessions w !! u = Some sid) ->
  registry_ok w'.
Proof.
  intros Hw Hheap Hsub u sid Hu. rewrite Hheap. apply Hw. by apply Hsub.
Qed.

(** X4: every entry of the registry refers to an existing session object
    and is filed under the identity of that session's renderer; session
    operations, [stop], [play_tracks] and the tasks of the event loop keep
    it so, whatever their outcome. *)
Theorem registry_stays_consistent (self : nat) (op : Op) (r : DlnaRenderer)
  (ts : list Track) (w : World) :
  registry_ok w ->
  registry_ok (run_op self op w).2
  /\ registry_ok (stop self w).2
  /\ registry_ok (play_tracks r ts w).2
  /\ registry_ok (run_pending w).2.
Proof.
  intros Hw. split; [by apply run_op_registry_ok|].
  assert (Hstop : forall e, registry_ok (stop e w).2).
  { intros e. destruct (stop_frame e w) as (Hh & _ & _ & Hsub & _).
    by eapply registry_ok_shrink. }
  split; [by apply Hstop|]. split.
  - rewrite play_tracks_run.
    assert (H1 : registry_ok
                   (match _sessions w !! udn r with
                    | Some existing => stop existing w
                    | None => (Return (), w)
                    end).2).
    { destruct (_sessions w !! udn r); [by apply Hstop|done]. }
    destruct (match _sessions w !! udn r with
              | Some existing => stop existing w
              | None => (Return (), w)
              end) as [[[]|e] w1]; [|done].
    cbv zeta. cbn [snd] in H1.
    match goal with
    | |- context [start ?n ?w2] =>
        assert (H2 : registry_ok w2);
        [|pose proof (run_op_registry_ok n OpStart w2 H2) as H3;
          cbn [run_op] in H3; by destruct (start n w2) as [[[]|?] ?]]
    end.
    intros u sid Hu. cbn in Hu. cbn [heap with_sessions with_heap].
    destruct (decide (udn r = u)) as [<-|Hne].
    + rewrite lookup_insert_eq in Hu. injection Hu as <-.
      eexists. split; [apply list_lookup_middle; reflexivity|done].
    + rewrite lookup_insert_ne in Hu by done.
      destruct (H1 u sid Hu) as (s & Hs & Hudn).
      exists s. split; [|done].
      rewrite lookup_app_l; [done|]. by eapply lookup_lt_Some.
  - apply (run_pending_keeps registry_ok); try done.
    + intros. by apply run_op_registry_ok.
    + intros e w0 Hw0. destruct (_cleanup_frame e w0) as (Hh & _ & _ & Hsub).
      by eapply registry_ok_shrink.
Qed.

(** X5: [play_tracks] for an identity without registered session registers
    the new session object under that identity before it starts it, and
    changes no other entry: whatever [start] does afterwards, raising
    included, [get_session] finds the new session, whose renderer and
    tracks are the ones given. *)
Theorem play_tracks_registers_first (r : DlnaRenderer) (ts : list Track)
  (w : World) :
  _sessions w !! udn r = None ->
  let new := length (heap w) in
  let w' := (play_tracks r ts w).2 in
  _sessions w' = <[udn r := new]> (_sessions w)
  /\ get_session (udn r) w' = (Return (Some new), w')
  /\ exists s, heap w' !! new = Some s /\ renderer s = r /\ tracks s = ts.
Proof.
  intros Hnone new w'. subst w'. rewrite play_tracks_run, Hnone. cbv zeta.
  fold new.
  set (obj := {| renderer := r; tracks := ts; current_index := 0;
                 _dmr := None; _preloaded_index := None |}).
  set (w2 := with_sessions (<[udn r := new]> (_sessions w))
               (with_heap (heap w ++ [obj]) w)).
  assert (Hobj : heap w2 !! new = Some obj)
    by (apply list_lookup_middle; reflexivity).
  pose proof (run_op_registry new OpStart w2) as Hreg.
  change (_sessions w2) with (<[udn r := new]> (_sessions w)) in Hreg.
  destruct (run_op_frame new OpStart w2 new obj Hobj)
    as (s' & Hs' & [Hr Ht] & _).
  cbn [run_op] in *.
  destruct (start new w2) as [[[]|e] w3]; cbn [snd] in *;
    (split; [exact Hreg|]);
    (split; [unfold get_session, bind, get_world, ret;
             by rewrite Hreg, lookup_insert_eq|]);
    by exists s'.
Qed.

(** X6: when the device cannot be reached ([CreateDevice] raises),
    [play_tracks] raises that error, and the session it has registered stays
    registered: a new object without handle, at index 0.  Nothing was sent
    to the renderer after the failed call. *)
Theorem play_tracks_unreachable_device (r : DlnaRenderer) (ts : list Track)
  (w : World) (msg : string) :
  _sessions w !! udn r = None ->
  infra_ok w ->
  (forall h, fault h StartServer = None) ->
  (forall h, fault h (CreateDevice (location r)) = Some msg) ->
  let new := length (heap w) in
  let obj := {| renderer := r; tracks := ts; current_index := 0;
                _dmr := None; _preloaded_index := None |} in
  let w' := (play_tracks r ts w).2 in
  (play_tracks r ts w).1 = Raise (UpnpError msg)
  /\ _sessions w' !! udn r = Some new
  /\ heap w' = heap w ++ [obj]
  /\ wire w'
     = wire w ++ (if _notify_server (infra w) then [] else [StartServer])
       ++ [CreateDevice (location r)].
Proof.
  intros Hnone Hinfra Hserver Hdev new obj w'. subst w'.
  rewrite play_tracks_run, Hnone. cbv zeta. fold new. fold obj.
  set (w2 := with_sessions (<[udn r := new]> (_sessions w))
               (with_heap (heap w ++ [obj]) w)).
  assert (Hobj : heap w2 !! new = Some obj)
    by (apply list_lookup_middle; reflexivity).
  assert (Hheap2 : heap w2 = heap w ++ [obj]) by done.
  assert (Hwire2 : wire w2 = wire w) by done.
  assert (Hi2 : infra w2 = infra w) by done.
  assert (Hreg2 : _sessions w2 !! udn r = Some new)
    by apply lookup_insert_eq.
  clearbody w2.
  assert (Hstart : start new w2
                   = (Raise (UpnpError msg),
                      with_wire
                        (wire w2
                         ++ (if _notify_server (infra w2) then []
                             else [StartServer])
                         ++ [CreateDevice (location r)])
                        (with_infra infra_set w2))).
  { unfold start, _ensure_infrastructure. munfold.
    pose proof (Hserver (wire w2)) as Hf1.
    pose proof (Hdev (wire w2)) as Hf2.
    pose proof (Hdev (wire w2 ++ [StartServer])) as Hf3.
    rewrite Hi2.
    destruct Hinfra as [Hi|Hi]; rewrite Hi in *;
      mrun; world_eq. }
  rewrite Hstart. cbn [fst snd heap wire _sessions with_wire with_infra].
  rewrite Hwire2, Hi2. by repeat split.
Qed.

(** X7: [stop] removes the registry entry of its renderer's identity
    whichever session is filed there: stopping a session object that was
    replaced unregisters the replacement, whose object is left untouched (it
    keeps its handle and was sent nothing of its own). *)
Theorem stale_stop_unregisters_replacement (self other : nat) (w : World)
  (s : QueueSession) :
  heap w !! self = Some s ->
  _sessions w !! udn (renderer s) = Some other ->
  other <> self ->
  let w' := (stop self w).2 in
  get_session (udn (renderer s)) w' = (Return None, w')
  /\ heap w' !! other = heap w !! other
  /\ exists l, wire w' = wire w ++ stop_calls s ++ l
               /\ (l = [] \/ l = [StopServer]).
Proof.
  intros Hs Hreg Hne w'. subst w'.
  destruct (stop_frame self w) as (Hheap & _ & _ & _ & Hdel).
  split.
  - unfold get_session, bind, get_world, ret.
    by rewrite (Hdel s Hs), lookup_delete_eq.
  - split; [by rewrite Hheap|].
    rewrite (stop_run self w s Hs).
    rewrite (_cleanup_run self _ s) by exact Hs.
    cbn -[bool_decide delete].
    case_bool_decide as He;
      [destruct (_notify_server (infra w));
         [destruct (fault _ StopServer)|]|]; cbn -[delete];
      first [ exists [StopServer]; split; [by rewrite <- app_assoc|by right]
            | exists []; split; [by rewrite app_nil_r|by left] ].
Qed.

End lifecycle_facts.

(** ** Skipping *)
Section navigation_facts.
Context {env : Environment}.
Import queue_manager.

(** Inside the list an index finds an element. *)
Ltac index_in_range :=
  exfalso;
  match goal with
  | H : py_index ?l ?i = None |- _ =>
      rewrite py_index_nat in H by lia; apply lookup_ge_None in H; lia
  end.

(** The world after a skip to index [i] that the device acknowledged. *)
Lemma skip_to_run (self : nat) (w : World) (s : QueueSession) (d : DmrDevice)
  (i : Z) (t : Track) (skip : nat -> M (option Track)) :
  (skip = next /\ i = current_index s + 1 /\ i < Z.of_nat (length (tracks s))
   \/ skip = previous /\ i = current_index s - 1 /\ 0 < current_index s) ->
  (forall h c, fault h c = None) ->
  heap w !! self = Some s ->
  _dmr s = Some d ->
  0 <= i ->
  py_index (tracks s) i = Some t ->
  skip self w
  = (Return (Some t),
     with_heap
       (<[self := set_preloaded_index (preload_after s i)
                    (set_current_index i s)]> (heap w))
       (with_wire
          (wire w ++ [SetTransportURI d (url t) (title t) (metadata_of t);
                      Play d] ++ preload_calls s d i) w)).
Proof.
  intros Hskip Hok Hs Hd Hi Ht.
  unfold preload_after, preload_calls.
  destruct Hskip as [(-> & -> & Hlt)|(-> & -> & Hgt)].
  - unfold next, _preload_next, _preload_next_send,
    _preload_next_resume. munfold.
    mrun; try (exfalso; lia); try index_in_range; try done; world_eq.
  - unfold previous, _preload_next, _preload_next_send,
    _preload_next_resume. munfold.
    mrun; try (exfalso; lia); try index_in_range; try done; world_eq.
Qed.

Lemma index_found {A} (l : list A) (i : Z) :
  0 <= i < Z.of_nat (length l) -> exists x, py_index l i = Some x.
Proof.
  intros Hi. rewrite py_index_nat by lia.
  destruct (l !! Z.to_nat i) as [x|] eqn:E; [by exists x|].
  apply lookup_ge_None in E. lia.
Qed.

(** X8: on a started session whose device acknowledges every call, [next]
    (when a next track exists) and [previous] (when the index is above 0)
    return the track at the new index, send [SetTransportURI] and [Play] for
    it, then exactly the preload call for the track after it when the
    renderer is gapless and that track exists, and record that preload; the
    earlier preload record is gone. *)
Theorem skip_moves_and_preloads (self : nat) (w : World) (s : QueueSession)
  (d : DmrDevice) :
  (forall h c, fault h c = None) ->
  heap w !! self = Some s ->
  _dmr s = Some d ->
  0 <= current_index s < Z.of_nat (length (tracks s)) ->
  let moved (i : Z) (t : Track) :=
    (Return (Some t),
     with_heap
       (<[self := set_preloaded_index (preload_after s i)
                    (set_current_index i s)]> (heap w))
       (with_wire
          (wire w ++ [SetTransportURI d (url t) (title t) (metadata_of t);
                      Play d] ++ preload_calls s d i) w)) in
  (current_index s + 1 < Z.of_nat (length (tracks s)) ->
   exists t, py_index (tracks s) (current_index s + 1) = Some t
             /\ next self w = moved (current_index s + 1) t)
  /\ (0 < current_index s ->
      exists t, py_index (tracks s) (current_index s - 1) = Some t
                /\ previous self w = moved (current_index s - 1) t).
Proof.
  intros Hok Hs Hd Hci moved. split; intros Hmove.
  - destruct (index_found (tracks s) (current_index s + 1)) as [t Ht]; [lia|].
    exists t. split; [exact Ht|].
    apply (skip_to_run self w s d _ t next); try done; [|lia].
    left. by repeat split.
  - destruct (index_found (tracks s) (current_index s - 1)) as [t Ht]; [lia|].
    exists t. split; [exact Ht|].
    apply (skip_to_run self w s d _ t previous); try done; [|lia].
    right. by repeat split.
Qed.

(** X9: [next] followed by [previous], both acknowledged, brings the session
    back to the index it had: [previous] returns the track that was current,
    and the session again records the preload of the following track on a
    gapless renderer (none otherwise), with the same handle. *)
Theorem next_then_previous (self : nat) (w : World) (s : QueueSession)
  (d : DmrDevice) (t0 : Track) :
  (forall h c, fault h c = None) ->
  heap w !! self = Some s ->
  _dmr s = Some d ->
  0 <= current_index s ->
  current_index s + 1 < Z.of_nat (length (tracks s)) ->
  py_index (tracks s) (current_index s) = Some t0 ->
  let w1 := (next self w).2 in
  let w2 := (previous self w1).2 in
  (previous self w1).1 = Return (Some t0)
  /\ exists s',
       heap w2 !! self = Some s'
       /\ current_index s' = current_index s
       /\ _preloaded_index s' = preload_after s (current_index s)
       /\ _dmr s' = Some d
       /\ same_queue s s'.
Proof.
  intros Hok Hs Hd Hci Hlt Ht0 w1 w2.
  destruct (index_found (tracks s) (current_index s + 1)) as [t1 Ht1]; [lia|].
  assert (Hnext := skip_to_run self w s d (current_index s + 1) t1 next
                     (or_introl (conj eq_refl (conj eq_refl Hlt)))
                     Hok Hs Hd ltac:(lia) Ht1).
  set (s1 := set_preloaded_index (preload_after s (current_index s + 1))
               (set_current_index (current_index s + 1) s)) in *.
  assert (Hs1 : heap w1 !! self = Some s1).
  { subst w1. rewrite Hnext. by eapply lookup_heap_insert. }
  clearbody w1.
  assert (Hprev := skip_to_run self w1 s1 d (current_index s) t0 previous).
  cbn [s1 tracks current_index _dmr set_preloaded_index set_current_index]
    in Hprev.
  specialize (Hprev ltac:(right; repeat split; lia) Hok Hs1 Hd Hci Ht0).
  subst w2. rewrite Hprev. split; [done|].
  eexists. split; [by eapply lookup_heap_insert|]. by repeat split.
Qed.

(** X10: a skip moves the index before it talks to the device.  When the
    session has no handle, [next] and [previous] raise [AssertionError];
    when the device refuses [SetTransportURI] they raise its error and send
    no [Play]; in both cases the current index has already changed and the
    preload record is cleared. *)
Theorem skip_fails_after_moving (self : nat) (w : World) (s : QueueSession)
  (msg : string) :
  heap w !! self = Some s ->
  0 <= current_index s < Z.of_nat (length (tracks s)) ->
  (forall c, is_set_transport_uri c = true -> fault (wire w) c = Some msg) ->
  let failed (i : Z) (t : Track) :=
    match _dmr s with
    | None =>
        (Raise AssertionError,
         with_heap
           (<[self := set_preloaded_index None (set_current_index i s)]>
              (heap w)) w)
    | Some d =>
        (Raise (UpnpError msg),
         with_heap
           (<[self := set_preloaded_index None (set_current_index i s)]>
              (heap w))
           (with_wire
              (wire w ++ [SetTransportURI d (url t) (title t) (metadata_of t)])
              w))
    end in
  (current_index s + 1 < Z.of_nat (length (tracks s)) ->
   exists t, py_index (tracks s) (current_index s + 1) = Some t
             /\ next self w = failed (current_index s + 1) t)
  /\ (0 < current_index s ->
      exists t, py_index (tracks s) (current_index s - 1) = Some t
                /\ previous self w = failed (current_index s - 1) t).
Proof.
  intros Hs Hci Hbad failed. subst failed. split; intros Hmove.
  - destruct (index_found (tracks s) (current_index s + 1)) as [t Ht]; [lia|].
    exists t. split; [exact Ht|].
    pose proof (Hbad (SetTransportURI (default {| device_location := "" |}
                                         (_dmr s))
                        (url t) (title t) (metadata_of t)) eq_refl) as Hf.
    unfold next. munfold. destruct (_dmr s) as [d|] eqn:Hd; cbn in Hf;
      mrun; try (exfalso; lia); world_eq.
  - destruct (index_found (tracks s) (current_index s - 1)) as [t Ht]; [lia|].
    exists t. split; [exact Ht|].
    pose proof (Hbad (SetTransportURI (default {| device_location := "" |}
                                         (_dmr s))
                        (url t) (title t) (metadata_of t)) eq_refl) as Hf.
    unfold previous. munfold. destruct (_dmr s) as [d|] eqn:Hd; cbn in Hf;
      mrun; try (exfalso; lia); world_eq.
Qed.

End navigation_facts.

(** ** Events that end the queue, and events that do nothing *)
Section event_facts.
Context {env : Environment}.
Import queue_manager.

(** The event loop with one pending task. *)
Lemma run_pending_one (t : Task) (w : World) :
  tasks w = [t] ->
  run_pending w = (Return tt, (run_task t (with_tasks [] w)).2).
Proof.
  intros Ht. unfold run_pending, bind, get_world. rewrite Ht.
  cbn [length run_tasks]. unfold bind, run_next_task. by rewrite Ht.
Qed.

(** X11: the end of the queue.  Called with a mapping that reports
    [STOPPED] on the last track, with no preload recorded, the handler
    creates the clean-up task.  Run, it removes the session's registry entry
    and sends nothing to the renderer (no stop, no unsubscribe); the session
    object keeps its handle.  It stops the notify server, and clears the
    infrastructure globals, exactly when the registry has become empty.
    Delivered by [DmrDevice] as a sequence, the event makes the handler raise
    [AttributeError]: nothing changes, the event loop has nothing to run, and
    the session of the finished queue stays registered. *)
Theorem stopped_on_last_track_unregisters (self : nat) (w : World)
  (s : QueueSession) (sv : gmap string string) :
  (forall h, fault h StopServer = None) ->
  tasks w = [] ->
  heap w !! self = Some s ->
  _preloaded_index s = None ->
  current_index s >= Z.of_nat (length (tracks s)) - 1 ->
  sv !! "TransportState" = Some "STOPPED" ->
  let w1 := (_on_event self (Mapping sv) w).2 in
  let w2 := (run_pending w1).2 in
  let left := delete (udn (renderer s)) (_sessions w) in
  w1 = with_tasks [T_cleanup self] w
  /\ _sessions w2 = left
  /\ heap w2 = heap w
  /\ tasks w2 = []
  /\ wire w2
     = wire w ++ (if bool_decide (left = ∅) && _notify_server (infra w)
                  then [StopServer] else [])
  /\ infra w2 = (if bool_decide (left = ∅) then infra_none else infra w)
  /\ forall vars,
       vars <> [] ->
       on_event self vars w
       = (Raise (AttributeError "'list' object has no attribute 'get'"), w)
       /\ run_pending w = (Return tt, w).
Proof.
  intros Hserver Htasks Hs Hpre Hci Hstate w1 w2 left.
  assert (Hseq : forall vars,
             vars <> [] ->
             on_event self vars w
             = (Raise (AttributeError "'list' object has no attribute 'get'"),
                w)
             /\ run_pending w = (Return tt, w)).
  { intros vars Hvars. split; [by apply on_event_raises|].
    unfold run_pending, bind, get_world. by rewrite Htasks. }
  assert (Hsv : sv <> ∅) by (intros ->; by rewrite lookup_empty in Hstate).
  assert (Hev : _on_event self (Mapping sv) w
                = (Return tt, with_tasks [T_cleanup self] w)).
  { unfold _on_event. rewrite (bool_decide_eq_false_2 _ Hsv), Hstate.
    generalize (sv !! "CurrentTrackURI"). intros uri. munfold.
    rewrite Hs. cbn -[Z.of_nat Z.sub bool_decide]. rewrite Hpre.
    rewrite (bool_decide_eq_true_2 (Some "STOPPED" = Some "STOPPED")) by done.
    rewrite (bool_decide_eq_false_2 (current_index s < _)) by lia.
    rewrite (bool_decide_eq_true_2 (current_index s >= _)) by lia.
    rewrite andb_false_r.
    destruct uri; cbv beta iota delta [andb negb modify_world];
      by rewrite Htasks. }
  assert (Hw1 : w1 = with_tasks [T_cleanup self] w)
    by (subst w1; by rewrite Hev).
  clearbody w1. split; [exact Hw1|].
  assert (Hmain :
            _sessions w2 = left
            /\ heap w2 = heap w
            /\ tasks w2 = []
            /\ wire w2
               = wire w ++ (if bool_decide (left = ∅)
                               && _notify_server (infra w)
                            then [StopServer] else [])
            /\ infra w2
               = (if bool_decide (left = ∅) then infra_none else infra w)).
  { subst w2.
    rewrite (run_pending_one (T_cleanup self)) by (by rewrite Hw1).
    cbn [run_task snd]. rewrite Hw1.
    assert (Hs' : heap (with_tasks [] (with_tasks [T_cleanup self] w)) !! self
                  = Some s) by exact Hs.
    rewrite (_cleanup_run self _ s Hs').
    cbn -[bool_decide delete]. fold left. rewrite Hserver.
    case_bool_decide; [destruct (_notify_server (infra w))|];
      cbn -[delete]; by rewrite ?app_nil_r. }
  destruct Hmain as (H1 & H2 & H3 & H4 & H5).
  exact (conj H1 (conj H2 (conj H3 (conj H4 (conj H5 Hseq))))).
Qed.

(** X12: events that change nothing.  What [DmrDevice] delivers never
    changes anything: the handler returns on an empty sequence and raises
    [AttributeError] on any other, before it has read the session.  Called
    with a mapping, the handler changes nothing when none of its three rules
    applies: no index moves, no task is created, nothing is sent.  That is
    the case of every mapping whose URI is not the preloaded track's and
    whose state is not [STOPPED], and also of [STOPPED] before the last
    track on a gapless renderer; the handler then returns, or raises
    [IndexError] when the recorded preload is outside the queue. *)
Theorem other_events_change_nothing (self : nat) (w : World)
  (s : QueueSession) (sv : gmap string string) :
  heap w !! self = Some s ->
  (forall uri p t,
      sv !! "CurrentTrackURI" = Some uri ->
      _preloaded_index s = Some p ->
      py_index (tracks s) p = Some t ->
      uri = "" \/ uri <> url t) ->
  (sv !! "TransportState" = Some "STOPPED" ->
   supports_next (renderer s) = true
   /\ current_index s < Z.of_nat (length (tracks s)) - 1) ->
  (_on_event self (Mapping sv) w).2 = w
  /\ ((_on_event self (Mapping sv) w).1 = Return tt
      \/ (_on_event self (Mapping sv) w).1 = Raise IndexError)
  /\ forall vars,
       (on_event self vars w).2 = w
       /\ (on_event self vars w).1
          = match vars with
            | [] => Return tt
            | _ :: _ =>
                Raise (AttributeError "'list' object has no attribute 'get'")
            end.
Proof.
  intros Hs Hnomatch Hstop.
  enough (Hmap : (_on_event self (Mapping sv) w).2 = w
                 /\ ((_on_event self (Mapping sv) w).1 = Return tt
                     \/ (_on_event self (Mapping sv) w).1 = Raise IndexError)).
  { destruct Hmap as [H1 H2]. split; [exact H1|]. split; [exact H2|].
    intros vars. by destruct vars. }
  unfold _on_event.
  case_bool_decide as Hsv; [by split; [|left]|].
  revert Hnomatch Hstop.
  generalize (sv !! "TransportState") (sv !! "CurrentTrackURI").
  intros state uri Hnomatch Hstop. munfold. rewrite Hs.
  cbn -[Z.of_nat Z.sub bool_decide].
  assert (Hrest :
            forall w0,
              (if bool_decide (state = Some "STOPPED")
                  && negb (supports_next (renderer s))
                  && bool_decide
                       (current_index s < Z.of_nat (length (tracks s)) - 1)
               then modify_world
                      (fun w1 => with_tasks (tasks w1 ++ [T_auto_advance self]) w1)
               else if bool_decide (state = Some "STOPPED")
                       && bool_decide
                            (current_index s
                             >= Z.of_nat (length (tracks s)) - 1)
               then modify_world
                      (fun w1 => with_tasks (tasks w1 ++ [T_cleanup self]) w1)
               else fun w1 => (Return tt, w1)) w0 = (Return tt, w0)).
  { intros w0. case_bool_decide as Hst.
    - destruct (Hstop Hst) as [Hcap Hlt]. rewrite Hcap.
      rewrite (bool_decide_eq_false_2 (current_index s >= _)) by lia. done.
    - done. }
  destruct uri as [uri|], (_preloaded_index s) as [p|] eqn:Hp;
    rewrite ?Hrest; try (by split; [|left]).
  destruct (bool_decide_reflect (uri = "")) as [Hempty|Hempty];
    [rewrite Hrest; by split; [|left]|].
  destruct (py_index (tracks s) p) as [t|] eqn:Ht; cbn -[bool_decide];
    [|by split; [|right]].
  destruct (Hnomatch uri p t eq_refl eq_refl Ht) as [?|Hne]; [done|].
  rewrite (bool_decide_eq_false_2 _ Hne), Hrest. by split; [|left].
Qed.

End event_facts.

(** ** Starting and stopping *)
Section start_stop_facts.
Context {env : Environment}.
Import queue_manager.

(** X13: a refused preload is not fatal to [start].  On a gapless renderer
    with at least two tracks whose device acknowledges everything except
    [SetNextTransportURI], [start] returns normally after the refused call,
    the first track plays, the session has its handle and records no
    preload. *)
Theorem start_survives_refused_preload (self : nat) (w : World)
  (s : QueueSession) (t0 t1 : Track) (rest : list Track) (msg : string) :
  (forall h c, is_set_next c = false -> fault h c = None) ->
  (forall h c, is_set_next c = true -> fault h c = Some msg) ->
  infra_ok w ->
  heap w !! self = Some s ->
  supports_next (renderer s) = true ->
  tracks s = t0 :: t1 :: rest ->
  current_index s = 0 ->
  let d := {| device_location := location (renderer s) |} in
  start self w
  = (Return tt,
     with_heap
       (<[self := set_preloaded_index None (set_dmr (Some d) s)]> (heap w))
       (with_wire
          (wire w
           ++ (if _notify_server (infra w) then [] else [StartServer])
           ++ [CreateDevice (location (renderer s)); Subscribe d;
               SetTransportURI d (url t0) (title t0) (metadata_of t0);
               Play d;
               SetNextTransportURI d (url t1) (title t1) (metadata_of t1)])
          (with_infra infra_set w))).
Proof.
  intros Hgood Hbad Hinfra Hs Hcap Htracks Hci d.
  assert (Ht0 : py_index (tracks s) 0 = Some t0) by (by rewrite Htracks).
  assert (Ht1 : py_index (tracks s) (current_index s + 1) = Some t1)
    by (by rewrite Htracks, Hci).
  assert (Hlen : Z.of_nat (length (tracks s)) > 1)
    by (rewrite Htracks; cbn [length]; lia).
  unfold start, _ensure_infrastructure, _preload_next, _preload_next_send,
    _preload_next_resume. munfold.
  destruct Hinfra as [Hi|Hi]; rewrite Hi; mrun; try (exfalso; lia);
    repeat match goal with
           | H : fault ?h ?c = _ |- _ =>
               first [ rewrite (Hgood h c eq_refl) in H
                     | rewrite (Hbad h c eq_refl) in H ];
               first [ discriminate H | clear H ]
           end;
    world_eq.
Qed.



(** X15: last one out.  [stop] sends its two best-effort calls and removes
    the entry of its renderer.  While another entry remains it returns
    without touching the notify server or the globals.  When none remains
    and the server stops, the globals are cleared; when the server refuses to
    stop, [stop] raises that error with the entry already removed and the
    globals still set. *)
Theorem stop_last_one_out (self : nat) (w : World) (s : QueueSession) :
  heap w !! self = Some s ->
  let left := delete (udn (renderer s)) (_sessions w) in
  let w1 := with_sessions left (with_wire (wire w ++ stop_calls s) w) in
  (left <> ∅ -> stop self w = (Return tt, w1))
  /\ (left = ∅ -> _notify_server (infra w) = false ->
      stop self w = (Return tt, with_infra infra_none w1))
  /\ (left = ∅ -> _notify_server (infra w) = true ->
      fault (wire w1) StopServer = None ->
      stop self w
      = (Return tt,
         with_infra infra_none (with_wire (wire w1 ++ [StopServer]) w1)))
  /\ (forall msg,
        left = ∅ -> _notify_server (infra w) = true ->
        fault (wire w1) StopServer = Some msg ->
        stop self w
        = (Raise (UpnpError msg), with_wire (wire w1 ++ [StopServer]) w1)).
Proof.
  intros Hs left w1.
  rewrite (stop_run self w s Hs).
  rewrite (_cleanup_run self _ s) by exact Hs.
  cbn -[bool_decide delete]. fold left.
  repeat split.
  - intros Hne. by rewrite (bool_decide_eq_false_2 _ Hne).
  - intros He Hoff. by rewrite (bool_decide_eq_true_2 _ He), Hoff.
  - intros He Hon Hf. cbn in Hf.
    by rewrite (bool_decide_eq_true_2 _ He), Hon, Hf.
  - intros msg He Hon Hf. cbn in Hf.
    by rewrite (bool_decide_eq_true_2 _ He), Hon, Hf.
Qed.

(** X16: [status] on a session whose index is inside the queue returns, and
    reports the 1-based number and the display fields of the current track,
    "playing" exactly when the session holds a handle; on a session without
    tracks it returns with no track fields.  It never changes the world. *)
Theorem status_reports_current_track (self : nat) (w : World)
  (s : QueueSession) :
  heap w !! self = Some s ->
  let report (t : option Track) :=
    (Return {| status_renderer := name (renderer s);
               status_state := match _dmr s with
                               | Some _ => "playing"
                               | None => "stopped"
                               end;
               status_track := current_index s + 1;
               status_total_tracks := length (tracks s);
               status_title := title <$> t;
               status_artist := artist <$> t;
               status_album := album <$> t |}, w) in
  (0 <= current_index s < Z.of_nat (length (tracks s)) ->
   exists t, tracks s !! Z.to_nat (current_index s) = Some t
             /\ status self w = report (Some t))
  /\ (tracks s = [] -> status self w = report None).
Proof.
  intros Hs report. subst report. split.
  - intros Hci.
    destruct (index_found (tracks s) (current_index s) Hci) as [t Ht].
    exists t. split; [by rewrite py_index_nat in Ht by lia|].
    unfold status. munfold. rewrite Hs. cbn.
    destruct (tracks s) as [|t' ts] eqn:Hts; [cbn in Hci; lia|].
    by rewrite Ht.
  - intros Hts. unfold status. munfold. rewrite Hs. cbn. by rewrite Hts.
Qed.

(** X2: the index bounds hold however the coroutines interleave at the
    [await] of [_preload_next].  Every session operation, [stop], the tasks
    of the event loop, and [play_tracks] with a non-empty track list keep,
    for every session, the current index inside the queue and a recorded
    preload inside the queue, whatever the device answers.  So do the two
    halves of [_preload_next] on their own: the first half holds an index of
    the session's queue while it is suspended, and the second half, resumed
    with such an index in whatever state the session then is, keeps the
    bounds (the queue itself never changes).  The relation between the two
    indices is not part of this: a preload recorded after a skip can be the
    current index. *)
Theorem lifecycle_keeps_indexes (self : nat) (op : Op) (r : DlnaRenderer)
  (ts : list Track) (w : World) :
  indexes_ok w ->
  ts <> [] ->
  indexes_ok (run_op self op w).2
  /\ indexes_ok (stop self w).2
  /\ indexes_ok (run_pending w).2
  /\ indexes_ok (play_tracks r ts w).2
  /\ indexes_ok (_preload_next_send self w).2
  /\ (forall s held,
        heap w !! self = Some s ->
        (_preload_next_send self w).1 = Return held ->
        held_in_queue s held)
  /\ (forall s held,
        heap w !! self = Some s ->
        held_in_queue s held ->
        indexes_ok (_preload_next_resume self held w).2).
Proof.
  intros Hw Hts.
  assert (Hhalves :
            indexes_ok (_preload_next_send self w).2
            /\ (forall s held,
                  heap w !! self = Some s ->
                  (_preload_next_send self w).1 = Return held ->
                  held_in_queue s held)
            /\ (forall s held,
                  heap w !! self = Some s ->
                  held_in_queue s held ->
                  indexes_ok (_preload_next_resume self held w).2)).
  { split; [|split].
    - unfold _preload_next_send. munfold. mrun; exact Hw.
    - intros s held Hs.
      pose proof (indexes_ok_lookup _ _ _ Hw Hs) as [Hci _].
      unfold _preload_next_send. munfold.
      rewrite Hs. mrun; intros Heq;
        first [discriminate Heq
              | injection Heq as <-; cbn; first [done | lia]].
    - intros s held Hs Hheld. pose proof (indexes_ok_lookup _ _ _ Hw Hs) as Hok.
      destruct held as [|next_idx [[]|e]]; [done| |];
        unfold _preload_next_resume; munfold; rewrite Hs;
        cbn [snd heap with_heap]; unfold indexes_ok;
        (apply Forall_insert; [exact Hw|]);
        unfold index_ok in *; cbn in *; (split; [tauto|first [done|lia]]). }
  enough (Hmain : indexes_ok (run_op self op w).2
                  /\ indexes_ok (stop self w).2
                  /\ indexes_ok (run_pending w).2
                  /\ indexes_ok (play_tracks r ts w).2).
  { destruct Hmain as (H1 & H2 & H3 & H4).
    exact (conj H1 (conj H2 (conj H3 (conj H4 Hhalves)))). }
  clear Hhalves.
  split; [by apply run_op_indexes|].
  assert (Hstop : forall e, indexes_ok (stop e w).2).
  { intros e. unfold indexes_ok.
    by rewrite (proj1 (stop_frame e w)). }
  split; [by apply Hstop|]. split.
  - apply (run_pending_keeps indexes_ok); try done.
    + intros. by apply run_op_indexes.
    + intros e w0 Hw0. unfold indexes_ok.
      by rewrite (proj1 (_cleanup_frame e w0)).
  - rewrite play_tracks_run.
    assert (H1 : indexes_ok
                   (match _sessions w !! udn r with
                    | Some existing => stop existing w
                    | None => (Return (), w)
                    end).2).
    { destruct (_sessions w !! udn r); [by apply Hstop|done]. }
    destruct (match _sessions w !! udn r with
              | Some existing => stop existing w
              | None => (Return (), w)
              end) as [[[]|e] w1]; [|done].
    cbv zeta. cbn [snd] in H1.
    match goal with
    | |- context [start ?n ?w2] =>
        assert (H2 : indexes_ok w2);
        [|pose proof (run_op_indexes n OpStart w2 H2) as H3;
          cbn [run_op] in H3; by destruct (start n w2) as [[[]|?] ?]]
    end.
    unfold indexes_ok. cbn [heap with_sessions with_heap].
    apply Forall_app. split; [exact H1|].
    constructor; [|constructor].
    unfold index_ok. cbn. split; [|done].
    destruct ts; [done|]. cbn [length]. lia.
Qed.

End start_stop_facts.

(** ** server.py: the other tools *)
Section other_tool_facts.
Context {env : Environment}.

(** With a fresh cache a lookup is answered from the cache, and leaves the
    world alone. *)
Lemma find_renderer_cached (name_ : string) (w : World) :
  discovery.cache_is_fresh false w = true ->
  discovery.find_renderer name_ w = ((discovery.find_renderer name_ w).1, w)
  /\ forall w',
      _renderer_cache w' = _renderer_cache w ->
      discovery.cache_is_fresh false w' = true ->
      discovery.find_renderer name_ w'
      = ((discovery.find_renderer name_ w).1, w').
Proof.
  intros Hfresh.
  rewrite (find_renderer_unfold name_ w w _ (discover_hit false w Hfresh)).
  split; [done|]. intros w' Hcache Hfresh'.
  rewrite (find_renderer_unfold name_ w' w' _ (discover_hit false w' Hfresh')).
  by rewrite Hcache.
Qed.

(** [stop] of a session does not touch the discovery cache or the clock. *)
Lemma stop_keeps_cache (self : nat) (w : World) :
  _renderer_cache (queue_manager.stop self w).2 = _renderer_cache w
  /\ discovery.cache_is_fresh false (queue_manager.stop self w).2
     = discovery.cache_is_fresh false w.
Proof.
  destruct (heap w !! self) as [s|] eqn:Hs.
  2: { by rewrite (stop_dangling self w Hs). }
  rewrite (stop_run self w s Hs).
  rewrite (_cleanup_run self _ s) by exact Hs.
  cbn -[bool_decide delete].
  case_bool_decide;
    [destruct (_notify_server (infra w));
       [destruct (fault _ StopServer)|]|]; done.
Qed.

(** X18: the [stop] tool on a renderer with a registered session stops that
    session and reports success; asked again, it finds no session, reports
    "No active playback" and sends nothing; and [get_status] then reports
    the renderer idle.  The cache is taken to be fresh, so that the lookups
    do not search. *)
Theorem stop_tool_then_idle (renderer_name : string) (w : World)
  (r : DlnaRenderer) (sid : nat) (s : QueueSession) :
  discovery.cache_is_fresh false w = true ->
  (discovery.find_renderer renderer_name w).1 = Return (Some r) ->
  _sessions w !! udn r = Some sid ->
  heap w !! sid = Some s ->
  udn (renderer s) = udn r ->
  (forall h, fault h StopServer = None) ->
  let w1 := (queue_manager.stop sid w).2 in
  server.stop renderer_name w = (Return (server.Stopped (name r)), w1)
  /\ server.stop renderer_name w1 = (Return (server.no_active_playback r), w1)
  /\ server.get_status renderer_name w1 = (Return (server.Idle (name r)), w1).
Proof.
  intros Hfresh Hfind Hreg Hs Hudn Hserver w1.
  destruct (find_renderer_cached renderer_name w Hfresh) as [Hhere Hthere].
  rewrite Hfind in Hhere, Hthere.
  assert (Hstop : queue_manager.stop sid w = (Return tt, w1)).
  { subst w1. rewrite (stop_run sid w s Hs).
    rewrite (_cleanup_run sid _ s) by exact Hs.
    cbn -[bool_decide delete]. rewrite Hserver.
    case_bool_decide; [destruct (_notify_server (infra w))|]; done. }
  destruct (stop_keeps_cache sid w) as [Hcache Hfresh1].
  fold w1 in Hcache, Hfresh1. rewrite Hfresh in Hfresh1.
  assert (Hgone : _sessions w1 !! udn r = None).
  { subst w1.
    rewrite (proj2 (proj2 (proj2 (proj2 (stop_frame sid w)))) s Hs), Hudn.
    apply lookup_delete_eq. }
  clearbody w1. split; [|split].
  - unfold server.stop, bind. rewrite Hhere.
    unfold queue_manager.get_session, bind, get_world, ret.
    by rewrite Hreg, Hstop.
  - unfold server.stop, bind. rewrite (Hthere w1 Hcache Hfresh1).
    unfold queue_manager.get_session, bind, get_world, ret.
    by rewrite Hgone.
  - unfold server.get_status, bind. rewrite (Hthere w1 Hcache Hfresh1).
    unfold queue_manager.get_session, bind, get_world, ret.
    by rewrite Hgone.
Qed.

(** X19: a name that resolves to no renderer makes every control tool
    return the not-found error right after the lookup: no session is looked
    up, nothing is sent to any renderer. *)
Theorem unknown_renderer_not_found (renderer_name : string) (w : World) :
  (discovery.find_renderer renderer_name w).1 = Return None ->
  let w' := (discovery.find_renderer renderer_name w).2 in
  let answer := (Return (server.not_found renderer_name), w') in
  server.stop renderer_name w = answer
  /\ server.next_track renderer_name w = answer
  /\ server.previous_track renderer_name w = answer
  /\ server.get_status renderer_name w = answer.
Proof.
  intros Hfind w' answer. subst w' answer.
  unfold server.stop, server.next_track, server.previous_track,
    server.get_status, bind.
  destruct (discovery.find_renderer renderer_name w) as [found w'].
  cbn in Hfind. by rewrite Hfind.
Qed.

(** X20: the skip tools at the ends of the queue.  With the session on its
    last track [next_track] answers "Already at last track", with the
    session on its first track [previous_track] answers "Already at first
    track"; the session does not move and nothing is sent. *)
Theorem skip_tools_at_the_ends (renderer_name : string) (w : World)
  (r : DlnaRenderer) (sid : nat) (s : QueueSession) :
  discovery.cache_is_fresh false w = true ->
  (discovery.find_renderer renderer_name w).1 = Return (Some r) ->
  _sessions w !! udn r = Some sid ->
  heap w !! sid = Some s ->
  (current_index s + 1 >= Z.of_nat (length (tracks s)) ->
   server.next_track renderer_name w
   = (Return (server.Failed "Already at last track"), w))
  /\ (current_index s <= 0 ->
      server.previous_track renderer_name w
      = (Return (server.Failed "Already at first track"), w)).
Proof.
  intros Hfresh Hfind Hreg Hs.
  destruct (find_renderer_cached renderer_name w Hfresh) as [Hhere _].
  rewrite Hfind in Hhere. split; intros Hend.
  - unfold server.next_track, bind. rewrite Hhere.
    unfold queue_manager.get_session, bind, get_world, ret. rewrite Hreg.
    unfold queue_manager.next, bind, deref. rewrite Hs.
    by rewrite (bool_decide_eq_true_2 _ Hend).
  - unfold server.previous_track, bind. rewrite Hhere.
    unfold queue_manager.get_session, bind, get_world, ret. rewrite Hreg.
    unfold queue_manager.previous, bind, deref. rewrite Hs.
    by rewrite (bool_decide_eq_true_2 _ Hend).
Qed.

(** X21: [next_track] on a started session with a next track and a device
    that acknowledges reports the renderer's name, the 1-based number of the
    new track, the queue length and the title and artist of the new
    track. *)
Theorem next_track_reports_new_track (renderer_name : string) (w : World)
  (r : DlnaRenderer) (sid : nat) (s : QueueSession) (d : DmrDevice) :
  (forall h c, fault h c = None) ->
  discovery.cache_is_fresh false w = true ->
  (discovery.find_renderer renderer_name w).1 = Return (Some r) ->
  _sessions w !! udn r = Some sid ->
  heap w !! sid = Some s ->
  _dmr s = Some d ->
  0 <= current_index s ->
  current_index s + 1 < Z.of_nat (length (tracks s)) ->
  exists t,
    py_index (tracks s) (current_index s + 1) = Some t
    /\ server.next_track renderer_name w
       = (Return (server.NowPlaying (name r) (current_index s + 2)
                    (length (tracks s)) (title t) (artist t)),
          (queue_manager.next sid w).2).
Proof.
  intros Hok Hfresh Hfind Hreg Hs Hd Hci Hlt.
  destruct (find_renderer_cached renderer_name w Hfresh) as [Hhere _].
  rewrite Hfind in Hhere.
  destruct (index_found (tracks s) (current_index s + 1)) as [t Ht]; [lia|].
  exists t. split; [exact Ht|].
  pose proof (skip_to_run sid w s d (current_index s + 1) t queue_manager.next
                (or_introl (conj eq_refl (conj eq_refl Hlt)))
                Hok Hs Hd ltac:(lia) Ht) as Hnext.
  unfold server.next_track, bind. rewrite Hhere.
  unfold queue_manager.get_session, bind, get_world, ret. rewrite Hreg.
  rewrite Hnext. cbn [snd]. unfold deref. cbn [heap with_heap with_wire].
  rewrite (lookup_heap_insert w sid s _ Hs).
  cbn [current_index tracks set_preloaded_index set_current_index].
  by replace (current_index s + 1 + 1) with (current_index s + 2) by lia.
Qed.

End other_tool_facts.

(** ** discovery.py: a discovery pass *)
Section pass_facts.
Context {env : Environment}.
Import discovery.

(** Every result of the fan-out is the outcome of the fetch of one of the
    locations, and there is one result per location. *)
Lemma gather_results (locations : list string) (w : World) :
  exists results,
    gather locations w
    = (Return results,
       with_wire (wire w ++ (FetchDescription <$> locations)) w)
    /\ length results = length locations
    /\ forall r, In (Fetched r) results ->
                 exists h loc, In loc locations
                               /\ fetch_device_description h loc = Fetched r.
Proof.
  revert w. induction locations as [|loc rest IH]; intros w.
  - exists []. cbn. rewrite app_nil_r, with_wire_same. by repeat split.
  - destruct (IH (with_wire (wire w ++ [FetchDescription loc]) w))
      as (results & Hres & Hlen & Hin).
    exists (fetch_device_description (wire w) loc :: results).
    split; [|split].
    + cbn. unfold bind, get_world, modify_world. rewrite Hres. cbn.
      by rewrite <- app_assoc.
    + cbn. by rewrite Hlen.
    + intros r [Hr|Hr].
      * exists (wire w), loc. split; [by left|done].
      * destruct (Hin r Hr) as (h & loc' & Hloc & Hf).
        exists h, loc'. split; [by right|done].
Qed.

Lemma collect_spec (results : list FetchResult) :
  (length (collect results) <= length results)%nat
  /\ forall r, In r (collect results) -> In (Fetched r) results.
Proof.
  induction results as [|x results [IHlen IHin]]; [by split|].
  destruct x; cbn; (split; [lia|]); intros r0 Hr; try (right; by apply IHin).
  destruct Hr as [->|Hr]; [by left|right; by apply IHin].
Qed.

(** X22: a forced discovery searches whatever the cache holds.  When
    [_ssdp_search] returns, the pass sends one multicast search and one
    description fetch per location found, returns only renderers that a
    fetch delivered (so at most one per location: fetches that fail or
    deliver nothing are dropped), and replaces the cache by the returned
    list, stamped with the time at the end of the pass.  When
    [_ssdp_search] raises, the exception leaves [discover_renderers]: no
    description is fetched, and cache, time stamp and clock stay as they
    were. *)
Theorem forced_discovery_pass (w : World) :
  match ssdp_search (wire w) with
  | Return locations =>
      exists rs w',
        discover_renderers true w = (Return rs, w')
        /\ wire w' = wire w ++ MSearch :: (FetchDescription <$> locations)
        /\ searches (wire w') = S (searches (wire w))
        /\ _renderer_cache w' = rs
        /\ _cache_time w' = clock w'
        /\ (length rs <= length locations)%nat
        /\ forall r, In r rs ->
                     exists h loc, In loc locations
                                   /\ fetch_device_description h loc = Fetched r
  | Raise e =>
      discover_renderers true w = (Raise e, with_wire (wire w ++ [MSearch]) w)
  end.
Proof.
  destruct (ssdp_search (wire w)) as [locations|e] eqn:Hs;
    [|by apply discover_fails].
  destruct (gather_results locations (with_wire (wire w ++ [MSearch]) w))
    as (results & Hres & Hlen & Hin).
  destruct (collect_spec results) as [Hclen Hcin].
  eexists (collect results), _. split.
  { unfold discover_renderers, bind, get_world, modify_world, lift.
    cbn [cache_is_fresh negb andb wire with_wire]. rewrite Hs, Hres. cbn.
    reflexivity. }
  cbn [wire _renderer_cache _cache_time clock with_cache with_clock with_wire].
  split; [by rewrite <- app_assoc|].
  split.
  { rewrite <- app_assoc, searches_app.
    change ([MSearch] ++ ?l) with (MSearch :: l).
    change (MSearch :: ?l) with ([MSearch] ++ l).
    rewrite searches_app, searches_fetches. cbn. lia. }
  split; [done|]. split; [done|]. split; [lia|].
  intros r Hr. apply Hin. by apply Hcin.
Qed.

(** X17: the [list_renderers] tool.  Without [force_refresh], while the
    cache holds renderers and is younger than the TTL, it reports the cached
    renderers, name and gapless flag each, and sends nothing.  With
    [force_refresh] it searches even then: when [_ssdp_search] returns it
    reports what the new pass found, which is also what the cache holds
    afterwards, and when [_ssdp_search] raises the exception leaves the
    tool.  The total it reports is the number of renderers listed. *)
Theorem list_renderers_cache_and_refresh (w : World) :
  cache_is_fresh false w = true ->
  let item (r : DlnaRenderer) := (name r, supports_next r) in
  server.list_renderers false w
  = (Return (server.Renderers (length (_renderer_cache w))
               (item <$> _renderer_cache w)), w)
  /\ match ssdp_search (wire w) with
     | Return _ =>
         exists w',
           server.list_renderers true w
           = (Return (server.Renderers (length (_renderer_cache w'))
                        (item <$> _renderer_cache w')), w')
           /\ searches (wire w') = S (searches (wire w))
     | Raise e =>
         server.list_renderers true w
         = (Raise e, with_wire (wire w ++ [MSearch]) w)
     end.
Proof.
  intros Hfresh item. split.
  - unfold server.list_renderers, bind. rewrite (discover_hit _ _ Hfresh).
    cbn. by rewrite length_fmap.
  - destruct (ssdp_search (wire w)) as [locations|e] eqn:Hs.
    + destruct (discover_miss true w locations eq_refl Hs) as [results Hmiss].
      cbv zeta in Hmiss.
      match type of Hmiss with _ = (_, ?w1) => exists w1 end. split.
      * unfold server.list_renderers, bind. rewrite Hmiss. cbn.
        by rewrite length_fmap.
      * cbn [wire with_cache with_clock with_wire].
        change (MSearch :: ?l) with ([MSearch] ++ l).
        rewrite !searches_app, searches_fetches. cbn. lia.
    + unfold server.list_renderers, bind.
      by rewrite (discover_fails true w e eq_refl Hs).
Qed.

End pass_facts.

(** ** discovery.py: SSDP responses *)

Section response_facts.
Context {env : Environment}.
Import discovery.

Lemma split_crlf_nonempty (s : string) : split_crlf s <> [].
Proof.
  assert (H : forall s, split_crlf s <> [] /\ forall c, split_crlf (String c s) <> []).
  { clear s. induction s as [|c' s [IH1 IH2]].
    - split; [done|]. intros c. done.
    - split; [apply IH2|]. intros c.
      change (split_crlf (String c (String c' s)))
        with (if (Ascii.eqb c CR && Ascii.eqb c' LF)%bool
              then EmptyString :: split_crlf s
              else push_front c (split_crlf (String c' s))).
      destruct (_ && _)%bool; [done|].
      specialize (IH2 c'). by destruct (split_crlf (String c' s)). }
  apply H.
Qed.

Lemma push_front_app (c : ascii) (l1 l2 : list string) :
  l1 <> [] -> push_front c (l1 ++ l2) = push_front c l1 ++ l2.
Proof. by destruct l1. Qed.

Lemma split_crlf_cons2 (c c' : ascii) (s : string) :
  split_crlf (String c (String c' s))
  = if (Ascii.eqb c CR && Ascii.eqb c' LF)%bool
    then EmptyString :: split_crlf s
    else push_front c (split_crlf (String c' s)).
Proof. reflexivity. Qed.

(** The pieces of a text that has a line break in the middle. *)
Lemma split_crlf_app (a b : string) :
  split_crlf (a +:+ CRLF +:+ b) = split_crlf a ++ split_crlf b.
Proof.
  assert (H : forall a,
             (forall b, split_crlf (a +:+ CRLF +:+ b)
                        = split_crlf a ++ split_crlf b)
             /\ (forall c b, split_crlf (String c a +:+ CRLF +:+ b)
                             = split_crlf (String c a) ++ split_crlf b)).
  { clear a b. induction a as [|c' a [IH1 IH2]].
    - split; [done|]. intros c b.
      rewrite append_cons, append_nil. unfold CRLF.
      rewrite !append_cons, append_nil, split_crlf_cons2.
      replace (Ascii.eqb CR LF) with false by reflexivity.
      rewrite andb_false_r.
      rewrite split_crlf_cons2. by cbn.
    - split; [apply IH2|]. intros c b.
      rewrite !append_cons, !split_crlf_cons2.
      destruct (_ && _)%bool.
      + by rewrite IH1.
      + rewrite <- append_cons, IH2.
        apply push_front_app, split_crlf_nonempty. }
  apply H.
Qed.

Lemma after_colon_app (hdr value : string) :
  after_colon hdr = None ->
  after_colon (hdr +:+ ":" +:+ value) = Some value.
Proof.
  induction hdr as [|c hdr IH]; intros H; [done|].
  rewrite append_cons. cbn in *. destruct (Ascii.eqb c ":"); [done|].
  by apply IH.
Qed.


Lemma first_location_skip (l1 l2 : list string) :
  Forall (fun line => String.prefix "location:" (lower line) = false) l1 ->
  first_location (l1 ++ l2) = first_location l2.
Proof.
  induction 1 as [|line l1 Hline _ IH]; [done|]. cbn. by rewrite Hline.
Qed.

(** X23: [_parse_location] returns the value of the first header line whose
    name, in any letter case, is "location": everything after the first
    colon of that line, later colons included, without the surrounding
    white space.  Lines before it that are no such header, and everything
    after it, do not matter. *)
Theorem parse_location_finds_header (head hdr value tail : string) :
  Forall (fun line => String.prefix "location:" (lower line) = false)
         (split_crlf head) ->
  split_crlf (hdr +:+ ":" +:+ value) = [hdr +:+ ":" +:+ value] ->
  String.prefix "location:" (lower (hdr +:+ ":" +:+ value)) = true ->
  after_colon hdr = None ->
  _parse_location (head +:+ CRLF +:+ (hdr +:+ ":" +:+ value) +:+ CRLF +:+ tail)
  = Return (Some (strip value)).
Proof.
  intros Hhead Hline Hmatch Hcolon. unfold _parse_location.
  rewrite !split_crlf_app, Hline, (first_location_skip _ _ Hhead).
  cbn [app first_location]. by rewrite Hmatch, after_colon_app.
Qed.

(** X24: [_parse_location] returns [None] exactly when no line of the
    response is a location header; and it raises only if [lower] could
    produce the colon of "location:" from a line without colon, so with a
    [lower] that cannot it always returns. *)
Theorem parse_location_none_iff (response : string) :
  (_parse_location response = Return None
   <-> Forall (fun line => String.prefix "location:" (lower line) = false)
              (split_crlf response))
  /\ ((forall line, String.prefix "location:" (lower line) = true ->
                    after_colon line <> None) ->
      exists found, _parse_location response = Return found).
Proof.
  unfold _parse_location. generalize (split_crlf response). intros lines.
  split; [split|].
  - induction lines as [|line lines IH]; [done|]. cbn.
    destruct (String.prefix "location:" (lower line)) eqn:E.
    + by destruct (after_colon line).
    + intros H. constructor; [done|by apply IH].
  - intros H. rewrite <- (app_nil_r lines). by rewrite first_location_skip.
  - intros Hlower. induction lines as [|line lines IH]; [by exists None|].
    cbn. destruct (String.prefix "location:" (lower line)) eqn:E; [|done].
    specialize (Hlower line E).
    destruct (after_colon line) as [v|]; [by eexists|done].
Qed.

(** The receive loop, started with any list. *)
Lemma receive_spec (turns : list Recv) (locations found : list string) :
  NoDup locations ->
  ~ In EmptyString locations ->
  receive turns locations = Return found ->
  NoDup found
  /\ ~ In EmptyString found
  /\ (exists added, found = locations ++ added)
  /\ forall loc, In loc found ->
                 In loc locations
                 \/ exists text, In (Datagram text) turns
                                 /\ _parse_location text = Return (Some loc).
Proof.
  revert locations. induction turns as [|turn turns IH]; intros locations.
  - intros Hnd Hne [= <-]. repeat split; try done.
    + exists []. by rewrite app_nil_r.
    + intros loc Hloc. by left.
  - intros Hnd Hne Hrun. destruct turn as [text| |]; cbn in Hrun.
    + destruct (_parse_location text) as [[loc|]|e] eqn:Hparse; [| |done].
      * destruct (negb (String.eqb loc "")
                  && negb (existsb (String.eqb loc) locations))%bool eqn:Hnew.
        -- apply andb_true_iff in Hnew as [Hnonempty Hfresh].
           apply negb_true_iff in Hnonempty, Hfresh.
           apply String.eqb_neq in Hnonempty.
           assert (Hnotin : ~ In loc locations).
           { intros Hin. assert (existsb (String.eqb loc) locations = true).
             { apply existsb_exists. exists loc. split; [done|].
               apply String.eqb_refl. }
             congruence. }
           destruct (IH (locations ++ [loc])) as (H1 & H2 & [added H3] & H4);
             [| |exact Hrun|].
           ++ apply NoDup_app. split_and!.
              ** done.
              ** intros x Hx Hx'. apply list_elem_of_In in Hx.
                 apply list_elem_of_singleton in Hx'. by subst.
              ** apply NoDup_singleton.
           ++ intros Hin. apply in_app_or in Hin as [Hin|[Hin|[]]]; [done|].
              by subst.
           ++ repeat split; try done.
              ** exists ([loc] ++ added). by rewrite app_assoc.
              ** intros l Hl. destruct (H4 l Hl) as [Hin|(t & Ht & Hp)].
                 --- apply in_app_or in Hin as [Hin|[<-|[]]]; [by left|].
                     right. exists text. split; [by left|done].
                 --- right. exists t. split; [by right|done].
        -- destruct (IH locations Hnd Hne Hrun) as (H1 & H2 & H3 & H4).
           repeat split; try done.
           intros l Hl. destruct (H4 l Hl) as [Hin|(t & Ht & Hp)]; [by left|].
           right. exists t. split; [by right|done].
      * destruct (IH locations Hnd Hne Hrun) as (H1 & H2 & H3 & H4).
        repeat split; try done.
        intros l Hl. destruct (H4 l Hl) as [Hin|(t & Ht & Hp)]; [by left|].
        right. exists t. split; [by right|done].
    + destruct (IH locations Hnd Hne Hrun) as (H1 & H2 & H3 & H4).
      repeat split; try done.
      intros l Hl. destruct (H4 l Hl) as [Hin|(t & Ht & Hp)]; [by left|].
      right. exists t. split; [by right|done].
    + injection Hrun as <-. repeat split; try done.
      * exists []. by rewrite app_nil_r.
      * intros loc Hloc. by left.
Qed.

(** X25: the locations [_ssdp_search] collects hold no duplicate and no
    empty string, and each is the location parsed from one of the datagrams
    received; a turn that times out changes nothing, and nothing received
    after an [OSError] is looked at. *)
Theorem ssdp_search_collects (turns : list Recv) (found : list string) :
  _ssdp_search turns = Return found ->
  List.NoDup found
  /\ ~ In EmptyString found
  /\ (forall loc, In loc found ->
                  exists text, In (Datagram text) turns
                               /\ _parse_location text = Return (Some loc))
  /\ (forall before after,
         turns = before ++ SocketError :: after ->
         _ssdp_search before = Return found)
  /\ (forall before after,
         turns = before ++ TimedOut :: after ->
         _ssdp_search (before ++ after) = Return found).
Proof.
  intros Hrun. unfold _ssdp_search in *.
  destruct (receive_spec turns [] found NoDup_nil_2 (fun H => H) Hrun)
    as (H1 & H2 & _ & H4).
  split; [by apply NoDup_ListNoDup|]. split; [exact H2|]. split.
  { intros loc Hloc. by destruct (H4 loc Hloc) as [[]|H]. }
  clear H1 H2 H4. revert Hrun. generalize (@nil string) as locations.
  intros locations Hrun. split.
  - intros before after ->. revert locations Hrun.
    induction before as [|turn before IH]; intros locations Hrun;
      [done|].
    destruct turn as [text| |]; cbn in *; [| by apply IH | done].
    destruct (_parse_location text) as [[loc|]|e]; [| by apply IH | done].
    destruct (_ && _)%bool; by apply IH.
  - intros before after ->. revert locations Hrun.
    induction before as [|turn before IH]; intros locations Hrun;
      [done|].
    destruct turn as [text| |]; cbn in *; [| by apply IH | done].
    destruct (_parse_location text) as [[loc|]|e]; [| by apply IH | done].
    destruct (_ && _)%bool; by apply IH.
Qed.

End response_facts.

(** ** discovery.py: device descriptions *)

Section description_facts.
Context {web : discovery.Web}.
Import discovery.

Lemma Element_induction (P : Element -> Prop) :
  (forall tag text children, Forall P children -> P (Elem tag text children)) ->
  forall elem, P elem.
Proof.
  intros H. fix IH 1. intros [tag text children]. apply H.
  induction children as [|child children IHc]; constructor;
    [apply IH|exact IHc].
Qed.

Lemma descendants_inside (x root : Element) :
  In x (descendants root) <-> inside x root.
Proof.
  split.
  - revert x. induction root as [tag text children IH] using Element_induction.
    intros x [<-|Hin]; [constructor|].
    apply in_flat_map in Hin as (child & Hchild & Hx).
    apply (inside_child _ child); [exact Hchild|].
    rewrite Forall_forall in IH. apply IH; [|exact Hx].
    by apply list_elem_of_In.
  - induction 1 as [[tag text children]|x child [tag text children] Hc _ IH].
    + by left.
    + right. apply in_flat_map. by exists child.
Qed.

Lemma iter_inside (x root : Element) (tag : string) :
  In x (iter root tag) <-> inside x root /\ tag_of x = tag.
Proof.
  unfold iter. rewrite filter_In, descendants_inside. unfold has_tag.
  by rewrite String.eqb_eq.
Qed.

Lemma _check_set_next_support_asked (base scpd_path : string)
    (asked : list string) :
  (_check_set_next_support base scpd_path asked).2
  = asked ++ (if String.eqb scpd_path "" then [] else [resolve base scpd_path]).
Proof.
  unfold _check_set_next_support.
  destruct (String.eqb scpd_path ""); [by rewrite app_nil_r|].
  destruct (get _ _) as [status text|]; [|done].
  destruct (negb _); [done|]. by destruct (fromstring text).
Qed.

(** X26: [_check_set_next_support] answers [True] exactly when the path is
    not empty, the document asked for (the path itself when it starts with
    "http", else the base URL followed by it) comes back with status 200
    and parses, and somewhere in it, at any depth, there is an [action]
    element whose first [name] child holds SetNextAVTransportURI.  It asks
    for one document at most, and for none when the path is empty. *)
Theorem check_set_next_support_spec (base scpd_path : string)
    (asked : list string) :
  ((_check_set_next_support base scpd_path asked).1 = true
   <-> scpd_path <> EmptyString
       /\ exists text root action,
            get asked (resolve base scpd_path) = Replied 200 text
            /\ fromstring text = Some root
            /\ inside action root
            /\ tag_of action = service_tag "action"
            /\ findtext action (service_tag "name") ""
               = "SetNextAVTransportURI")
  /\ (_check_set_next_support base scpd_path asked).2
     = asked ++ (if String.eqb scpd_path "" then []
                 else [resolve base scpd_path]).
Proof.
  split; [|apply _check_set_next_support_asked].
  unfold _check_set_next_support.
  destruct (String.eqb scpd_path "") eqn:Hpath.
  { apply String.eqb_eq in Hpath. split; [done|]. by intros [? _]. }
  apply String.eqb_neq in Hpath.
  destruct (get asked (resolve base scpd_path)) as [status text|] eqn:Hget.
  2:{ split; [done|]. by intros (_ & ? & ? & ? & ? & _). }
  destruct (status =? 200)%Z eqn:Hstatus; cbn [negb].
  2:{ split; [done|]. intros (_ & ? & ? & ? & [= -> _] & _).
      by rewrite Z.eqb_refl in Hstatus. }
  apply Z.eqb_eq in Hstatus as ->.
  destruct (fromstring text) as [root|] eqn:Hparse.
  2:{ split; [done|]. intros (_ & ? & ? & ? & [= <-] & ? & _). congruence. }
  cbn [fst]. rewrite existsb_exists. split.
  - intros (action & Hin & Hname). split; [done|].
    apply iter_inside in Hin as [Hin Htag].
    exists text, root, action. split_and!; try done.
    by apply String.eqb_eq.
  - intros (_ & text' & root' & action & [= <-] & Hroot & Hin & Htag & Hname).
    assert (root' = root) as -> by congruence.
    exists action. split; [by apply iter_inside|].
    by apply String.eqb_eq.
Qed.

Lemma services_loop_app (l1 l2 : list Element) (base : string)
    (vars : Locals) (asked : list string) :
  services_loop (l1 ++ l2) base vars asked
  = services_loop l2 base (services_loop l1 base vars asked).1
                          (services_loop l1 base vars asked).2.
Proof.
  revert vars asked. induction l1 as [|service l1 IH]; intros vars asked;
    [done|].
  cbn [app services_loop]. destruct (String.eqb _ _AVTRANSPORT_TYPE).
  - destruct (_check_set_next_support _ _ _). apply IH.
  - destruct (String.eqb _ _RENDERING_CONTROL_TYPE); apply IH.
Qed.

Lemma services_loop_others (l : list Element) (base : string)
    (vars : Locals) (asked : list string) :
  Forall (fun service => findtext service (device_tag "serviceType") ""
                         <> _AVTRANSPORT_TYPE) l ->
  av_control_url (services_loop l base vars asked).1 = av_control_url vars
  /\ bound_supports_next (services_loop l base vars asked).1
     = bound_supports_next vars
  /\ (services_loop l base vars asked).2 = asked.
Proof.
  intros Hl. revert vars. induction Hl as [|service l Hs _ IH]; intros vars;
    [done|].
  cbn [services_loop]. apply String.eqb_neq in Hs. rewrite Hs.
  destruct (String.eqb _ _RENDERING_CONTROL_TYPE); [|apply IH].
  destruct (IH {| av_control_url := av_control_url vars;
                  rc_control_url := findtext service (device_tag "controlURL") "";
                  bound_supports_next := bound_supports_next vars |})
    as (H1 & H2 & H3).
  by rewrite H1, H2, H3.
Qed.

(** X27: in the loop over the services the last AVTransport service
    decides: the control URL and the gapless flag are those of that
    service, the flag being read from its SCPD document, whatever earlier
    AVTransport services said. *)
Theorem last_avtransport_service_wins (before after : list Element)
    (service : Element) (base : string) (vars : Locals)
    (asked : list string) :
  findtext service (device_tag "serviceType") "" = _AVTRANSPORT_TYPE ->
  Forall (fun other => findtext other (device_tag "serviceType") ""
                       <> _AVTRANSPORT_TYPE) after ->
  let seen := services_loop before base vars asked in
  let check :=
    _check_set_next_support base
      (findtext service (device_tag "SCPDURL") "") seen.2 in
  let done := services_loop (before ++ service :: after) base vars asked in
  av_control_url done.1 = findtext service (device_tag "controlURL") ""
  /\ bound_supports_next done.1 = Some check.1
  /\ done.2 = check.2.
Proof.
  intros Htype Hafter seen check done. subst done.
  rewrite services_loop_app. fold seen. cbn [services_loop].
  rewrite Htype, String.eqb_refl. fold check.
  destruct check as [supports asked'].
  match goal with
  | |- context [services_loop after base ?v ?a] =>
      destruct (services_loop_others after base v a Hafter) as (H1 & H2 & H3)
  end.
  by rewrite H1, H2, H3.
Qed.

Lemma services_loop_bound (l : list Element) (base : string)
    (vars : Locals) (asked : list string) :
  (av_control_url vars <> EmptyString -> bound_supports_next vars <> None) ->
  av_control_url (services_loop l base vars asked).1 <> EmptyString ->
  bound_supports_next (services_loop l base vars asked).1 <> None.
Proof.
  revert vars asked. induction l as [|service l IH]; intros vars asked Hinv;
    [exact Hinv|].
  cbn [services_loop]. destruct (String.eqb _ _AVTRANSPORT_TYPE).
  - destruct (_check_set_next_support _ _ _). by apply IH.
  - destruct (String.eqb _ _RENDERING_CONTROL_TYPE); by apply IH.
Qed.

Lemma resolve_nonempty (base path : string) :
  path <> EmptyString -> resolve base path <> EmptyString.
Proof.
  unfold resolve. intros Hpath. destruct (String.prefix "http" path); [done|].
  destruct base; [by rewrite append_nil|by rewrite append_cons].
Qed.

(** X28: whatever the device answers, [_fetch_device_description] returns a
    renderer or [None], or raises the [ValueError] of [urlparse]; it never
    reads [supports_next] before the loop has assigned it.  A renderer it
    returns has a UDN and an AVTransport control URL that are not empty,
    the location it was asked for, and the base URL made of the scheme and
    the host of that location. *)
Theorem fetch_device_description_sound (loc : string)
    (asked : list string) :
  match (_fetch_device_description loc asked).1 with
  | IsRenderer r =>
      udn r <> EmptyString
      /\ av_transport_control_url r <> EmptyString
      /\ location r = loc
      /\ _base_url_from_location loc = Some (base_url r)
  | IsNone => True
  | Raises e => e = ValueError /\ urlparse loc = None
  end.
Proof.
  unfold _fetch_device_description.
  destruct (get asked loc) as [status text|]; [|done].
  destruct (negb _); [done|].
  destruct (fromstring text) as [root|]; [|done].
  destruct (find root _) as [device|]; [|done].
  destruct (String.eqb (findtext device (device_tag "UDN") "") "") eqn:Hudn;
    [done|].
  apply String.eqb_neq in Hudn.
  unfold _base_url_from_location.
  destruct (urlparse loc) as [[scheme netloc]|]; [|done].
  destruct (find device _) as [service_list|]; [|done].
  match goal with
  | |- context [services_loop ?l ?b ?v ?a] =>
      pose proof (services_loop_bound l b v a) as Hbound;
      destruct (services_loop l b v a) as [vars asked']
  end.
  cbn [fst av_control_url bound_supports_next] in Hbound.
  destruct (String.eqb (av_control_url vars) "") eqn:Hav; [done|].
  apply String.eqb_neq in Hav.
  destruct (bound_supports_next vars) as [supports|].
  - cbn. split_and!; try done. by apply resolve_nonempty.
  - by destruct Hbound.
Qed.

Lemma services_loop_asked (l : list Element) (base : string)
    (vars : Locals) (asked : list string) :
  (services_loop l base vars asked).2 = asked ++ scpd_requests base l.
Proof.
  revert vars asked. induction l as [|service l IH]; intros vars asked.
  { cbn. by rewrite app_nil_r. }
  cbn [services_loop scpd_requests flat_map].
  destruct (String.eqb _ _AVTRANSPORT_TYPE); cbn [andb].
  - pose proof (_check_set_next_support_asked base
                  (findtext service (device_tag "SCPDURL") "") asked) as Hc.
    destruct (_check_set_next_support _ _ _) as [supports asked'].
    cbn [snd] in Hc. rewrite IH, Hc. fold (scpd_requests base l).
    destruct (String.eqb _ ""); cbn [negb app]; by rewrite <- app_assoc.
  - destruct (String.eqb _ _RENDERING_CONTROL_TYPE); apply IH.
Qed.

(** X29: for a description that parses and names a device with a UDN and a
    service list, [_fetch_device_description] asks for the description
    first and then, in document order, for the SCPD document of each
    AVTransport service that names one, and for nothing else: no other
    service's SCPD is fetched. *)
Theorem fetch_device_description_requests (location text base : string)
    (root device service_list : Element) (asked : list string) :
  get asked location = Replied 200 text ->
  fromstring text = Some root ->
  find root (device_tag "device") = Some device ->
  findtext device (device_tag "UDN") "" <> EmptyString ->
  _base_url_from_location location = Some base ->
  find device (device_tag "serviceList") = Some service_list ->
  (_fetch_device_description location asked).2
  = asked ++ location
      :: scpd_requests base (findall service_list (device_tag "service")).
Proof.
  intros Hget Hparse Hdevice Hudn Hbase Hlist.
  unfold _fetch_device_description.
  apply String.eqb_neq in Hudn.
  rewrite Hget, Hparse, Hdevice, Hudn, Hbase, Hlist. cbn [Z.eqb negb Pos.eqb].
  match goal with
  | |- context [services_loop ?l ?b ?v ?a] =>
      pose proof (services_loop_asked l b v a) as Hasked;
      destruct (services_loop l b v a) as [vars asked']
  end.
  cbn [snd] in Hasked. rewrite <- app_assoc in Hasked. cbn [app] in Hasked.
  destruct (String.eqb (av_control_url vars) ""); [exact Hasked|].
  destruct (bound_supports_next vars); exact Hasked.
Qed.

End description_facts.

(** ** The further properties on concrete runs *)
Import sample.

(** Sanity checks of the sample worlds and documents. *)
Example playing_sessions : _sessions playing = {[ udn hifiberry := 0%nat ]}.
Proof. vm_compute. reflexivity. Qed.

Example playing_indexes_ok : indexes_ok playing.
Proof.
  unfold indexes_ok. rewrite playing_heap.
  constructor; [|constructor]. unfold index_ok. cbn. lia.
Qed.

Example playing_registry_ok : registry_ok playing.
Proof.
  intros u sid H. rewrite playing_sessions in H.
  apply lookup_singleton_Some in H as [<- <-].
  exists playing_session. by rewrite playing_heap.
Qed.

Example fetch_hifiberry :
  discovery._fetch_device_description (web := upnp) (location hifiberry) []
  = (discovery.IsRenderer hifiberry,
     [location hifiberry; "http://192.168.1.100:49152/AVTransport/scpd.xml"]).
Proof. vm_compute. reflexivity. Qed.

Example parse_hifiberry :
  discovery._parse_location (env := silent)
    (ssdp_response (location hifiberry))
  = Return (Some (location hifiberry)).
Proof. vm_compute. reflexivity. Qed.

Lemma sessions_keep_their_queue_witness :
  let e := network [hifiberry] in
  heap playing !! 0%nat = Some playing_session
  /\ (exists s',
        heap (queue_manager.run_op (env := e) 0 OpNext playing).2 !! 0%nat
        = Some s'
        /\ same_queue playing_session s')
  /\ exists s',
       heap (queue_manager.play_tracks (env := e) hifiberry two_tracks
               playing).2 !! 0%nat = Some s'
       /\ same_queue playing_session s'.
Proof.
  intros e.
  assert (Hs : heap playing !! 0%nat = Some playing_session)
    by (vm_compute; reflexivity).
  destruct (sessions_keep_their_queue (env := e) 0 OpNext hifiberry
              two_tracks playing 0 playing_session Hs)
    as (Hop & _ & _ & _ & Hplay).
  exact (conj Hs (conj Hop Hplay)).
Defined.

Lemma infrastructure_stays_consistent_witness :
  let e := network [hifiberry] in
  infra_ok playing
  /\ infra_ok (queue_manager.stop (env := e) 0 playing).2
  /\ (queue_manager.start (env := e) 0 playing).1 <> Raise AssertionError.
Proof.
  intros e.
  assert (Hok : infra_ok playing) by (right; vm_compute; reflexivity).
  destruct (infrastructure_stays_consistent (env := e) 0 OpNext hifiberry
              two_tracks playing Hok) as (_ & Hstop & _ & _ & Hstart).
  exact (conj Hok (conj Hstop Hstart)).
Defined.

Lemma registry_stays_consistent_witness :
  let e := network [hifiberry] in
  registry_ok playing
  /\ registry_ok (queue_manager.play_tracks (env := e) hifiberry two_tracks
                    playing).2.
Proof.
  intros e.
  destruct (registry_stays_consistent (env := e) 0 OpNext hifiberry
              two_tracks playing playing_registry_ok) as (_ & _ & Hplay & _).
  exact (conj playing_registry_ok Hplay).
Defined.

Lemma play_tracks_registers_first_witness :
  let e := network [hifiberry] in
  let w' := (queue_manager.play_tracks (env := e) hifiberry three_tracks
               boot).2 in
  _sessions boot !! udn hifiberry = None
  /\ queue_manager.get_session (udn hifiberry) w' = (Return (Some 0%nat), w').
Proof.
  intros e w'.
  assert (Hnone : _sessions boot !! udn hifiberry = None)
    by (vm_compute; reflexivity).
  destruct (play_tracks_registers_first (env := e) hifiberry three_tracks
              boot Hnone) as (_ & Hget & _).
  exact (conj Hnone Hget).
Defined.

Lemma play_tracks_unreachable_device_witness :
  let e := refusing [hifiberry] is_create_device in
  _sessions boot !! udn hifiberry = None
  /\ (queue_manager.play_tracks (env := e) hifiberry three_tracks boot).1
     = Raise (UpnpError "UPnP error 501")
  /\ _sessions (queue_manager.play_tracks (env := e) hifiberry three_tracks
                  boot).2 !! udn hifiberry = Some 0%nat
  /\ heap (queue_manager.play_tracks (env := e) hifiberry three_tracks boot).2
     = [created_session].
Proof.
  intros e.
  assert (Hnone : _sessions boot !! udn hifiberry = None)
    by (vm_compute; reflexivity).
  destruct (play_tracks_unreachable_device (env := e) hifiberry three_tracks
              boot "UPnP error 501" Hnone (or_introl eq_refl)
              (fun _ => eq_refl) (fun _ => eq_refl))
    as (Hraise & Hreg & Hheap & _).
  exact (conj Hnone (conj Hraise (conj Hreg Hheap))).
Defined.

Lemma stale_stop_unregisters_replacement_witness :
  let e := network [hifiberry] in
  let w' := (queue_manager.stop (env := e) 0 replaced).2 in
  heap replaced !! 0%nat = Some playing_session
  /\ _sessions replaced !! udn hifiberry = Some 1%nat
  /\ queue_manager.get_session (udn hifiberry) w' = (Return None, w')
  /\ heap w' !! 1%nat = heap replaced !! 1%nat.
Proof.
  intros e w'.
  assert (Hs : heap replaced !! 0%nat = Some playing_session)
    by (vm_compute; reflexivity).
  assert (Hreg : _sessions replaced !! udn (renderer playing_session)
                 = Some 1%nat) by (vm_compute; reflexivity).
  destruct (stale_stop_unregisters_replacement (env := e) 0 1 replaced
              playing_session Hs Hreg ltac:(discriminate))
    as (Hget & Hheap & _).
  exact (conj Hs (conj Hreg (conj Hget Hheap))).
Defined.

Lemma skip_moves_and_preloads_witness :
  let e := network [hifiberry] in
  heap playing !! 0%nat = Some playing_session
  /\ queue_manager.next (env := e) 0 playing
     = (Return (Some (mk_track "1")),
        with_heap
          [set_preloaded_index (Some 2)
             (set_current_index 1 playing_session)]
          (with_wire
             (wire playing
              ++ [SetTransportURI hifiberry_dmr (url (mk_track "1"))
                    (title (mk_track "1"))
                    (queue_manager.metadata_of (env := e) (mk_track "1"));
                  Play hifiberry_dmr;
                  SetNextTransportURI hifiberry_dmr (url (mk_track "2"))
                    (title (mk_track "2"))
                    (queue_manager.metadata_of (env := e) (mk_track "2"))])
             playing)).
Proof.
  intros e.
  assert (Hs : heap playing !! 0%nat = Some playing_session)
    by (vm_compute; reflexivity).
  destruct (skip_moves_and_preloads (env := e) 0 playing playing_session
              hifiberry_dmr (fun _ _ => eq_refl) Hs eq_refl
              ltac:(split; [discriminate | reflexivity]))
    as [Hnext _].
  destruct (Hnext eq_refl) as (t & Ht & Hrun).
  assert (Hidx : py_index (tracks playing_session)
                   (current_index playing_session + 1)
                 = Some (mk_track "1")) by reflexivity.
  rewrite Hidx in Ht. injection Ht as <-.
  rewrite playing_heap in Hrun.
  exact (conj Hs Hrun).
Defined.

Lemma next_then_previous_witness :
  let e := network [hifiberry] in
  let w1 := (queue_manager.next (env := e) 0 playing).2 in
  heap playing !! 0%nat = Some playing_session
  /\ (queue_manager.previous (env := e) 0 w1).1
     = Return (Some (mk_track "0"))
  /\ exists s',
       heap (queue_manager.previous (env := e) 0 w1).2 !! 0%nat = Some s'
       /\ current_index s' = 0
       /\ _preloaded_index s' = Some 1
       /\ _dmr s' = Some hifiberry_dmr
       /\ same_queue playing_session s'.
Proof.
  intros e w1.
  assert (Hs : heap playing !! 0%nat = Some playing_session)
    by (vm_compute; reflexivity).
  exact (conj Hs
           (next_then_previous (env := e) 0 playing playing_session
              hifiberry_dmr (mk_track "0") (fun _ _ => eq_refl) Hs eq_refl
              ltac:(discriminate) eq_refl eq_refl)).
Defined.

Lemma skip_fails_after_moving_witness :
  let e := refusing [hifiberry] is_set_transport_uri in
  heap playing !! 0%nat = Some playing_session
  /\ queue_manager.next (env := e) 0 playing
     = (Raise (UpnpError "UPnP error 501"),
        with_heap
          [set_preloaded_index None (set_current_index 1 playing_session)]
          (with_wire
             (wire playing
              ++ [SetTransportURI hifiberry_dmr (url (mk_track "1"))
                    (title (mk_track "1"))
                    (queue_manager.metadata_of (env := e) (mk_track "1"))])
             playing)).
Proof.
  intros e.
  assert (Hs : heap playing !! 0%nat = Some playing_session)
    by (vm_compute; reflexivity).
  assert (Hfault : forall c, is_set_transport_uri c = true ->
                             fault (Environment := e) (wire playing) c
                             = Some "UPnP error 501").
  { intros c Hc. cbn. rewrite Hc. reflexivity. }
  destruct (skip_fails_after_moving (env := e) 0 playing playing_session
              "UPnP error 501" Hs
              ltac:(split; [discriminate | reflexivity]) Hfault)
    as [Hnext _].
  destruct (Hnext eq_refl) as (t & Ht & Hrun).
  assert (Hidx : py_index (tracks playing_session)
                   (current_index playing_session + 1)
                 = Some (mk_track "1")) by reflexivity.
  rewrite Hidx in Ht. injection Ht as <-.
  rewrite playing_heap in Hrun.
  exact (conj Hs Hrun).
Defined.

Lemma stopped_on_last_track_unregisters_witness :
  let e := network [linn] in
  let w1 := (queue_manager._on_event 0 (Mapping stopped) last_track).2 in
  let w2 := (queue_manager.run_pending (env := e) w1).2 in
  heap last_track !! 0%nat = Some last_track_session
  /\ stopped !! "TransportState" = Some "STOPPED"
  /\ w1 = with_tasks [T_cleanup 0] last_track
  /\ _sessions w2 = ∅
  /\ wire w2 = wire last_track ++ [StopServer]
  /\ infra w2 = infra_none
  /\ queue_manager.on_event 0 stopped_delivered last_track
     = (Raise (AttributeError "'list' object has no attribute 'get'"),
        last_track).
Proof.
  intros e w1 w2.
  assert (Hs : heap last_track !! 0%nat = Some last_track_session)
    by (vm_compute; reflexivity).
  assert (Hsv : stopped !! "TransportState" = Some "STOPPED")
    by (vm_compute; reflexivity).
  destruct (stopped_on_last_track_unregisters (env := e) 0 last_track
              last_track_session stopped (fun _ => eq_refl) eq_refl Hs
              eq_refl ltac:(discriminate) Hsv)
    as (H1 & H2 & _ & _ & H5 & H6 & H7).
  assert (Hleft : delete (udn (renderer last_track_session))
                    (_sessions last_track) = ∅)
    by (vm_compute; reflexivity).
  rewrite Hleft in H2, H5, H6.
  exact (conj Hs (conj Hsv (conj H1 (conj H2 (conj H5 (conj H6
           (proj1 (H7 stopped_delivered ltac:(discriminate))))))))).
Defined.

Lemma other_events_change_nothing_witness :
  heap playing !! 0%nat = Some playing_session
  /\ stopped !! "TransportState" = Some "STOPPED"
  /\ (queue_manager._on_event 0 (Mapping stopped) playing).2 = playing
  /\ (queue_manager.on_event 0 stopped_delivered playing).2 = playing.
Proof.
  assert (Hs : heap playing !! 0%nat = Some playing_session)
    by (vm_compute; reflexivity).
  assert (Hsv : stopped !! "TransportState" = Some "STOPPED")
    by (vm_compute; reflexivity).
  assert (Huri : forall uri p t,
             stopped !! "CurrentTrackURI" = Some uri ->
             _preloaded_index playing_session = Some p ->
             py_index (tracks playing_session) p = Some t ->
             uri = "" \/ uri <> url t).
  { intros uri p t H. vm_compute in H. discriminate H. }
  destruct (other_events_change_nothing 0 playing playing_session
              stopped Hs Huri (fun _ => conj eq_refl eq_refl))
    as (H1 & _ & H3).
  exact (conj Hs (conj Hsv (conj H1 (proj1 (H3 stopped_delivered))))).
Defined.

Lemma start_survives_refused_preload_witness :
  let e := refusing [hifiberry] is_set_next in
  heap created !! 0%nat = Some created_session
  /\ (queue_manager.start (env := e) 0 created).1 = Return tt
  /\ heap (queue_manager.start (env := e) 0 created).2
     = [set_preloaded_index None
          (set_dmr (Some hifiberry_dmr) created_session)].
Proof.
  intros e.
  assert (Hs : heap created !! 0%nat = Some created_session)
    by (vm_compute; reflexivity).
  assert (Hack : forall h c, is_set_next c = false ->
                             fault (Environment := e) h c = None).
  { intros h c Hc. cbn. rewrite Hc. reflexivity. }
  assert (Hrefuse : forall h c, is_set_next c = true ->
                                fault (Environment := e) h c
                                = Some "UPnP error 501").
  { intros h c Hc. cbn. rewrite Hc. reflexivity. }
  pose proof (start_survives_refused_preload (env := e) 0 created
                created_session (mk_track "0") (mk_track "1") [mk_track "2"]
                "UPnP error 501" Hack Hrefuse (or_introl eq_refl) Hs eq_refl
                eq_refl eq_refl) as Hrun.
  cbv zeta in Hrun. rewrite Hrun.
  exact (conj Hs (conj eq_refl eq_refl)).
Defined.


Lemma stop_last_one_out_witness :
  let e := network [hifiberry] in
  heap playing !! 0%nat = Some playing_session
  /\ queue_manager.stop (env := e) 0 playing
     = (Return tt,
        with_infra infra_none
          (with_wire
             (wire playing
              ++ [Stop hifiberry_dmr; Unsubscribe hifiberry_dmr; StopServer])
             (with_sessions ∅ playing))).
Proof.
  intros e.
  assert (Hs : heap playing !! 0%nat = Some playing_session)
    by (vm_compute; reflexivity).
  destruct (stop_last_one_out (env := e) 0 playing playing_session Hs)
    as (_ & _ & Hlast & _).
  assert (Hleft : delete (udn (renderer playing_session)) (_sessions playing)
                  = ∅) by (vm_compute; reflexivity).
  specialize (Hlast Hleft eq_refl eq_refl).
  split; [exact Hs|]. rewrite Hlast. vm_compute. reflexivity.
Defined.

Lemma status_reports_current_track_witness :
  let e := network [hifiberry] in
  heap playing !! 0%nat = Some playing_session
  /\ queue_manager.status 0 playing
     = (Return {| status_renderer := "HiFiBerry Garten";
                  status_state := "playing";
                  status_track := 1;
                  status_total_tracks := 3;
                  status_title := Some "Track 0";
                  status_artist := Some "Test Artist";
                  status_album := Some "Test Album" |}, playing).
Proof.
  intros e.
  assert (Hs : heap playing !! 0%nat = Some playing_session)
    by (vm_compute; reflexivity).
  destruct (status_reports_current_track 0 playing playing_session Hs)
    as [Hin _].
  destruct (Hin ltac:(split; [discriminate | reflexivity]))
    as (t & Ht & Hrun).
  injection Ht as <-.
  exact (conj Hs Hrun).
Defined.

Lemma lifecycle_keeps_indexes_witness :
  let e := network [hifiberry] in
  let w1 := (queue_manager._preload_next_send (env := e) 0 playing).2 in
  let w2 := (queue_manager.next (env := e) 0 w1).2 in
  indexes_ok playing
  /\ indexes_ok w1
  /\ indexes_ok w2
  /\ indexes_ok (queue_manager._preload_next_resume 0
                   (Awaiting 1 (Return tt)) w2).2.
Proof.
  intros e w1 w2.
  destruct (lifecycle_keeps_indexes (env := e) 0 OpNext hifiberry two_tracks
              playing playing_indexes_ok ltac:(discriminate))
    as (_ & _ & _ & _ & Hsend & _ & _).
  fold w1 in Hsend.
  destruct (lifecycle_keeps_indexes (env := e) 0 OpNext hifiberry two_tracks
              w1 Hsend ltac:(discriminate)) as (Hnext & _).
  assert (Hw2 : indexes_ok w2).
  { unfold queue_manager.run_op, bind in Hnext. subst w2.
    by destruct (queue_manager.next 0 w1) as [[?|?] ?]. }
  assert (Hs2 : heap w2 !! 0%nat
                = Some (set_preloaded_index (Some 2)
                          (set_current_index 1 playing_session)))
    by (vm_compute; reflexivity).
  destruct (lifecycle_keeps_indexes (env := e) 0 OpNext hifiberry two_tracks
              w2 Hw2 ltac:(discriminate)) as (_ & _ & _ & _ & _ & _ & Hresume).
  exact (conj playing_indexes_ok (conj Hsend (conj Hw2
           (Hresume _ (Awaiting 1 (Return tt)) Hs2
              ltac:(split; reflexivity))))).
Defined.

Lemma stop_tool_then_idle_witness :
  let e := network [hifiberry] in
  let w1 := (queue_manager.stop (env := e) 0 playing_cached).2 in
  discovery.cache_is_fresh false playing_cached = true
  /\ (discovery.find_renderer (env := e) "hifiberry" playing_cached).1
     = Return (Some hifiberry)
  /\ server.stop (env := e) "hifiberry" playing_cached
     = (Return (server.Stopped "HiFiBerry Garten"), w1)
  /\ server.stop (env := e) "hifiberry" w1
     = (Return (server.Failed "No active playback on 'HiFiBerry Garten'"), w1)
  /\ server.get_status (env := e) "hifiberry" w1
     = (Return (server.Idle "HiFiBerry Garten"), w1).
Proof.
  intros e w1.
  assert (Hfresh : discovery.cache_is_fresh false playing_cached = true)
    by (vm_compute; reflexivity).
  assert (Hfind : (discovery.find_renderer (env := e) "hifiberry"
                     playing_cached).1 = Return (Some hifiberry))
    by (vm_compute; reflexivity).
  assert (Hreg : _sessions playing_cached !! udn hifiberry = Some 0%nat)
    by (vm_compute; reflexivity).
  assert (Hs : heap playing_cached !! 0%nat = Some playing_session)
    by (vm_compute; reflexivity).
  destruct (stop_tool_then_idle (env := e) "hifiberry" playing_cached
              hifiberry 0 playing_session Hfresh Hfind Hreg Hs eq_refl
              (fun _ => eq_refl)) as (H1 & H2 & H3).
  exact (conj Hfresh (conj Hfind (conj H1 (conj H2 H3)))).
Defined.

Lemma unknown_renderer_not_found_witness :
  let e := network [hifiberry] in
  let w' := (discovery.find_renderer (env := e) "kitchen" playing_cached).2 in
  (discovery.find_renderer (env := e) "kitchen" playing_cached).1
  = Return None
  /\ server.stop (env := e) "kitchen" playing_cached
     = (Return (server.Failed "Renderer 'kitchen' not found"), w')
  /\ server.get_status (env := e) "kitchen" playing_cached
     = (Return (server.Failed "Renderer 'kitchen' not found"), w').
Proof.
  intros e w'.
  assert (Hfind : (discovery.find_renderer (env := e) "kitchen"
                     playing_cached).1 = Return None)
    by (vm_compute; reflexivity).
  destruct (unknown_renderer_not_found (env := e) "kitchen" playing_cached
              Hfind) as (H1 & _ & _ & H4).
  exact (conj Hfind (conj H1 H4)).
Defined.

Lemma skip_tools_at_the_ends_witness :
  let e := network [hifiberry] in
  discovery.cache_is_fresh false playing_cached = true
  /\ (discovery.find_renderer (env := e) "hifiberry" playing_cached).1
     = Return (Some hifiberry)
  /\ server.previous_track (env := e) "hifiberry" playing_cached
     = (Return (server.Failed "Already at first track"), playing_cached).
Proof.
  intros e.
  assert (Hfresh : discovery.cache_is_fresh false playing_cached = true)
    by (vm_compute; reflexivity).
  assert (Hfind : (discovery.find_renderer (env := e) "hifiberry"
                     playing_cached).1 = Return (Some hifiberry))
    by (vm_compute; reflexivity).
  assert (Hreg : _sessions playing_cached !! udn hifiberry = Some 0%nat)
    by (vm_compute; reflexivity).
  assert (Hs : heap playing_cached !! 0%nat = Some playing_session)
    by (vm_compute; reflexivity).
  destruct (skip_tools_at_the_ends (env := e) "hifiberry" playing_cached
              hifiberry 0 playing_session Hfresh Hfind Hreg Hs)
    as [_ Hprev].
  exact (conj Hfresh (conj Hfind (Hprev ltac:(discriminate)))).
Defined.

Lemma next_track_reports_new_track_witness :
  let e := network [hifiberry] in
  discovery.cache_is_fresh false playing_cached = true
  /\ (discovery.find_renderer (env := e) "hifiberry" playing_cached).1
     = Return (Some hifiberry)
  /\ server.next_track (env := e) "hifiberry" playing_cached
     = (Return (server.NowPlaying "HiFiBerry Garten" 2 3 "Track 1"
                  "Test Artist"),
        (queue_manager.next (env := e) 0 playing_cached).2).
Proof.
  intros e.
  assert (Hfresh : discovery.cache_is_fresh false playing_cached = true)
    by (vm_compute; reflexivity).
  assert (Hfind : (discovery.find_renderer (env := e) "hifiberry"
                     playing_cached).1 = Return (Some hifiberry))
    by (vm_compute; reflexivity).
  assert (Hreg : _sessions playing_cached !! udn hifiberry = Some 0%nat)
    by (vm_compute; reflexivity).
  assert (Hs : heap playing_cached !! 0%nat = Some playing_session)
    by (vm_compute; reflexivity).
  destruct (next_track_reports_new_track (env := e) "hifiberry"
              playing_cached hifiberry 0 playing_session hifiberry_dmr
              (fun _ _ => eq_refl) Hfresh Hfind Hreg Hs eq_refl
              ltac:(discriminate) eq_refl) as (t & Ht & Hrun).
  assert (Hidx : py_index (tracks playing_session)
                   (current_index playing_session + 1)
                 = Some (mk_track "1")) by reflexivity.
  rewrite Hidx in Ht. injection Ht as <-.
  exact (conj Hfresh (conj Hfind Hrun)).
Defined.

Lemma lower_ascii_colon (c : ascii) : lower_ascii c = ":"%char -> c = ":"%char.
Proof.
  unfold lower_ascii.
  destruct (Nat.leb 65 (nat_of_ascii c) && Nat.leb (nat_of_ascii c) 90)%bool
    eqn:E; [|done].
  apply andb_true_iff in E as [E1 E2]. apply Nat.leb_le in E1, E2.
  intros H. apply (f_equal nat_of_ascii) in H.
  rewrite nat_ascii_embedding in H by lia.
  change (nat_of_ascii ":") with 58%nat in H. lia.
Qed.

Lemma ascii_lower_prefix (a : ascii) (s line : string) :
  String.prefix (String a s) (ascii_lower line) = true ->
  exists c rest,
    line = String c rest /\ lower_ascii c = a
    /\ String.prefix s (ascii_lower rest) = true.
Proof.
  destruct line as [|c rest]; cbn; [discriminate|].
  destruct (ascii_dec a (lower_ascii c)) as [->|]; [eauto|discriminate].
Qed.

(** [ascii_lower] makes no colon of its own. *)
Lemma ascii_lower_location (line : string) :
  String.prefix "location:" (ascii_lower line) = true ->
  discovery.after_colon line <> None.
Proof.
  intros H.
  do 8 (apply ascii_lower_prefix in H as (? & ? & -> & _ & H)).
  apply ascii_lower_prefix in H as (c & rest & -> & Hc & _).
  apply lower_ascii_colon in Hc as ->.
  repeat (cbn [discovery.after_colon];
          match goal with
          | |- context [Ascii.eqb ?c ":"] =>
              is_var c; destruct (Ascii.eqb c ":"); [discriminate|]
          end).
  cbn. discriminate.
Qed.

Lemma parse_location_finds_header_witness :
  discovery._parse_location (env := silent)
    (ssdp_response "http://192.168.1.100:49152/description.xml")
  = Return (Some "http://192.168.1.100:49152/description.xml").
Proof.
  refine (parse_location_finds_header (env := silent)
            ("HTTP/1.1 200 OK" +:+ discovery.CRLF
               +:+ "CACHE-CONTROL: max-age=1800")
            "Location" " http://192.168.1.100:49152/description.xml"
            ("ST: urn:schemas-upnp-org:device:MediaRenderer:1"
               +:+ discovery.CRLF +:+ discovery.CRLF)
            _ eq_refl eq_refl eq_refl).
  replace (discovery.split_crlf _)
    with ["HTTP/1.1 200 OK"; "CACHE-CONTROL: max-age=1800"]
    by (vm_compute; reflexivity).
  repeat (constructor; [vm_compute; reflexivity|]). constructor.
Defined.

Lemma parse_location_none_iff_witness :
  discovery._parse_location (env := silent)
    ("HTTP/1.1 200 OK" +:+ discovery.CRLF +:+ "ST: upnp:rootdevice")
  = Return None
  /\ exists found,
       discovery._parse_location (env := silent)
         (ssdp_response "http://192.168.1.100:49152/description.xml")
       = Return found.
Proof.
  split.
  - apply (proj1 (parse_location_none_iff (env := silent) _)).
    replace (discovery.split_crlf _)
      with ["HTTP/1.1 200 OK"; "ST: upnp:rootdevice"]
      by (vm_compute; reflexivity).
    repeat (constructor; [vm_compute; reflexivity|]). constructor.
  - exact (proj2 (parse_location_none_iff (env := silent) _)
             ascii_lower_location).
Defined.

Lemma ssdp_search_collects_witness :
  let first := ssdp_response "http://192.168.1.100:49152/description.xml" in
  let second := ssdp_response "http://192.168.1.101:8080/desc.xml" in
  let third := ssdp_response "http://192.168.1.102/late.xml" in
  let turns := [discovery.Datagram first; discovery.TimedOut;
                discovery.Datagram first; discovery.Datagram second;
                discovery.SocketError; discovery.Datagram third] in
  let found := ["http://192.168.1.100:49152/description.xml";
                "http://192.168.1.101:8080/desc.xml"] in
  discovery._ssdp_search (env := silent) turns = Return found
  /\ List.NoDup found
  /\ discovery._ssdp_search (env := silent)
       [discovery.Datagram first; discovery.TimedOut;
        discovery.Datagram first; discovery.Datagram second]
     = Return found.
Proof.
  intros first second third turns found.
  assert (Hrun : discovery._ssdp_search (env := silent) turns = Return found)
    by (vm_compute; reflexivity).
  destruct (ssdp_search_collects (env := silent) turns found Hrun)
    as (Hnodup & _ & _ & Hbreak & _).
  exact (conj Hrun (conj Hnodup
           (Hbreak [discovery.Datagram first; discovery.TimedOut;
                    discovery.Datagram first; discovery.Datagram second]
                   [discovery.Datagram third] eq_refl))).
Defined.

Lemma last_avtransport_service_wins_witness :
  let base := "http://192.168.1.100:49152" in
  let vars := {| discovery.av_control_url := "";
                 discovery.rc_control_url := "";
                 discovery.bound_supports_next := None |} in
  let earlier :=
    service_elem discovery._AVTRANSPORT_TYPE "/Old/control" "" in
  let done :=
    discovery.services_loop (web := upnp)
      ([earlier; rendering_control_service]
       ++ av_transport_service :: [connection_manager_service])
      base vars [] in
  discovery.av_control_url done.1 = "/AVTransport/control"
  /\ discovery.bound_supports_next done.1 = Some true
  /\ done.2 = ["http://192.168.1.100:49152/AVTransport/scpd.xml"].
Proof.
  intros base vars earlier done.
  refine (last_avtransport_service_wins (web := upnp)
            [earlier; rendering_control_service]
            [connection_manager_service] av_transport_service base vars []
            eq_refl _).
  repeat constructor. discriminate.
Defined.

Lemma fetch_device_description_requests_witness :
  (discovery._fetch_device_description (web := upnp) (location hifiberry)
     ["http://192.168.1.7/earlier.xml"]).2
  = ["http://192.168.1.7/earlier.xml"; location hifiberry;
     "http://192.168.1.100:49152/AVTransport/scpd.xml"].
Proof.
  refine (fetch_device_description_requests (web := upnp)
            (location hifiberry) "description" "http://192.168.1.100:49152"
            description_doc device_elem service_list_elem
            ["http://192.168.1.7/earlier.xml"]
            eq_refl eq_refl eq_refl _ eq_refl eq_refl).
  discriminate.
Defined.


Lemma list_renderers_cache_and_refresh_witness :
  let e := network [hifiberry] in
  discovery.cache_is_fresh false playing_cached = true
  /\ server.list_renderers (env := e) false playing_cached
     = (Return (server.Renderers 1 [("HiFiBerry Garten", true)]),
        playing_cached).
Proof.
  intros e.
  assert (Hfresh : discovery.cache_is_fresh false playing_cached = true)
    by (vm_compute; reflexivity).
  assert (Hcache : _renderer_cache playing_cached = [hifiberry])
    by (vm_compute; reflexivity).
  destruct (list_renderers_cache_and_refresh (env := e) playing_cached
              Hfresh) as [Hlist _].
  rewrite Hcache in Hlist.
  exact (conj Hfresh Hlist).
Defined.
